(** * Track/task registry of the Conductor helper (manus_conductor.py)

    A shallow embedding of the [ManusCondor] class: the registry document
    [conductor/tracks.md], the per-track plan files, the directory of track
    folders, and the regular expressions the class runs over them.

    Python [str] values are modelled as lists of characters with code
    points below 256 ([ascii]).  On that range the whitespace class of
    [\s] and of [str.strip] is {9..13, 28..32, 133, 160} and the class
    [\d] is {'0'..'9'} (as in CPython 3 for [str] patterns). *)

From Stdlib Require Import Ascii String.
From Stdlib Require Import List Bool Arith NArith Lia.
Import ListNotations.

Set Implicit Arguments.

(** ** Text *)

Definition text := list ascii.

Definition txt (s : string) : text := list_ascii_of_string s.

Definition newline : ascii := "010"%char.

Fixpoint text_eqb (a b : text) : bool :=
  match a, b with
  | [], [] => true
  | x :: a', y :: b' => Ascii.eqb x y && text_eqb a' b'
  | _, _ => false
  end.

(** [s.startswith(p)] *)
Fixpoint prefixb (p s : text) : bool :=
  match p, s with
  | [], _ => true
  | x :: p', y :: s' => Ascii.eqb x y && prefixb p' s'
  | _ :: _, [] => false
  end.

(** [p in s] *)
Fixpoint infixb (p s : text) : bool :=
  prefixb p s || match s with [] => false | _ :: s' => infixb p s' end.

(** Character classes of the [re] module on code points below 256. *)
Definition is_space (c : ascii) : bool :=
  let n := N_of_ascii c in
  (((9 <=? n) && (n <=? 13)) || ((28 <=? n) && (n <=? 32))
   || (n =? 133) || (n =? 160))%N.

Definition is_digit (c : ascii) : bool :=
  let n := N_of_ascii c in ((48 <=? n) && (n <=? 57))%N.

(** [.] without DOTALL: anything but a line feed. *)
Definition is_dot (c : ascii) : bool := negb (Ascii.eqb c newline).

(** [[ ~x]] *)
Definition is_marker (c : ascii) : bool :=
  Ascii.eqb c " " || Ascii.eqb c "~" || Ascii.eqb c "x".

(** [[^\]]] *)
Definition not_rbracket (c : ascii) : bool := negb (Ascii.eqb c "]").

(** [str.strip()] *)
Fixpoint lstrip (s : text) : text :=
  match s with
  | a :: s' => if is_space a then lstrip s' else s
  | [] => []
  end.

Definition rstrip (s : text) : text := rev (lstrip (rev s)).

Definition strip (s : text) : text := rstrip (lstrip s).

(** [str.split(sep)] for a non-empty separator: cut at every occurrence of
    [sep], scanning left to right; [skip] counts the separator characters
    still to be passed over after a cut. *)
Fixpoint split_go (sep : text) (skip : nat) (cur : text) (s : text)
  : list text :=
  match s with
  | [] => [rev cur]
  | a :: s' =>
      match skip with
      | S k => split_go sep k cur s'
      | O =>
          if prefixb sep s
          then rev cur :: split_go sep (length sep - 1) [] s'
          else split_go sep 0 (a :: cur) s'
      end
  end.

Definition split (sep s : text) : list text := split_go sep 0 [] s.

(** ** Decimal numbers: [int(digits)] and [f"{n:03d}"] *)

Definition digit_val (c : ascii) : nat := nat_of_ascii c - 48.

Definition int_acc (acc : nat) (s : text) : nat :=
  fold_left (fun a c => 10 * a + digit_val c) s acc.

Definition int (s : text) : nat := int_acc 0 s.

Definition digit_char (d : nat) : ascii := ascii_of_nat (48 + d).

Fixpoint digits_fuel (fuel n : nat) (acc : text) : text :=
  match fuel with
  | O => acc
  | S f =>
      let acc' := digit_char (n mod 10) :: acc in
      if n <? 10 then acc' else digits_fuel f (n / 10) acc'
  end.

(** [str(n)] *)
Definition str_of_nat (n : nat) : text := digits_fuel (S n) n [].

(** [f"{n:03d}"]: at least three digits, padded with zeros on the left. *)
Definition fmt03 (n : nat) : text :=
  let d := str_of_nat n in
  repeat "0"%char (3 - length d) ++ d.

(** ** The fragment of Python regular expressions the class uses

    Every pattern of the source is a concatenation of character classes,
    each taken once, or under a greedy [*] or [+], some of them inside a
    capturing group.  [match_here] is the backtracking matcher of [re] on
    that fragment: a greedy repetition takes as many characters as it can
    and gives them back one at a time while the rest of the pattern
    fails.  It returns the captured groups and the unmatched rest. *)

Inductive quant := One | Star | Plus.

Record item := Item { cls : ascii -> bool; qnt : quant; cap : bool }.

Definition regex := list item.

Definition keep (b : bool) (g : text) (gs : list text) : list text :=
  if b then g :: gs else gs.

Definition mres := (list text * text)%type.

Fixpoint rep (c : ascii -> bool) (k : text -> option mres) (s : text)
  : option (text * mres) :=
  match s with
  | a :: s' =>
      if c a then
        match rep c k s' with
        | Some (g, r) => Some (a :: g, r)
        | None => option_map (pair []) (k s)
        end
      else option_map (pair []) (k s)
  | [] => option_map (pair []) (k s)
  end.

Fixpoint match_here (p : regex) (s : text) : option mres :=
  match p with
  | [] => Some ([], s)
  | Item c q b :: p' =>
      match q with
      | One =>
          match s with
          | a :: s' =>
              if c a then
                match match_here p' s' with
                | Some (gs, r) => Some (keep b [a] gs, r)
                | None => None
                end
              else None
          | [] => None
          end
      | Star =>
          match rep c (match_here p') s with
          | Some (g, (gs, r)) => Some (keep b g gs, r)
          | None => None
          end
      | Plus =>
          match s with
          | a :: s' =>
              if c a then
                match rep c (match_here p') s' with
                | Some (g, (gs, r)) => Some (keep b (a :: g) gs, r)
                | None => None
                end
              else None
          | [] => None
          end
      end
  end.

(** [re.search]: the first position, left to right, where the pattern
    matches. *)
Fixpoint search (p : regex) (s : text) : option mres :=
  match match_here p s with
  | Some r => Some r
  | None => match s with [] => None | _ :: s' => search p s' end
  end.

(** A literal string, as [re.escape] makes it. *)
Definition lit (s : text) : regex :=
  map (fun a => Item (Ascii.eqb a) One false) s.

Definition ws_star : item := Item is_space Star false.
Definition ws_one : item := Item is_space One false.

(** ** Results of operations that can raise

    [ReError] is [re.error]; [IndexError] is what [re.sub] raises for a
    replacement template that refers to a group by a name the pattern
    does not have. *)

Inductive exn := FileNotFoundError | FileExistsError | ReError | IndexError.

Inductive result (A : Type) := Ok (a : A) | Raise (e : exn).
Arguments Ok {A} a.
Arguments Raise {A} e.

(** ** [re.sub]

    The replacement argument of [re.sub] is a template: [re] reads
    backslash escapes in it before any matching is done, and raises on a
    bad one.  [parse_template] follows CPython's [parse_template] (as of
    version 3.12) for a pattern without capturing groups, which is the
    case of both patterns the class substitutes with: [\g<0>] stands for
    the whole match, any other group reference raises: [IndexError] for
    a name that is an identifier, [re.error] otherwise.  The reader of
    the template looks one token ahead, so a lone backslash that ends the
    template right after the [>] of a group name is refused, with
    [re.error], before the name is looked up. *)

Inductive piece := Ch (c : ascii) | Whole.

Definition is_octal (c : ascii) : bool :=
  let n := N_of_ascii c in ((48 <=? n) && (n <=? 55))%N.

Definition is_ascii_letter (c : ascii) : bool :=
  let n := N_of_ascii c in
  (((65 <=? n) && (n <=? 90)) || ((97 <=? n) && (n <=? 122)))%N.

(** [str.isidentifier] on code points below 256: a letter or [_], then
    letters, digits, [_] and the middle dot. *)
Definition is_id_start (c : ascii) : bool :=
  let n := N_of_ascii c in
  (is_ascii_letter c || (n =? 95) || (n =? 170) || (n =? 181) || (n =? 186)
   || ((192 <=? n) && (n <=? 214)) || ((216 <=? n) && (n <=? 246))
   || (248 <=? n))%N.

Definition is_id_continue (c : ascii) : bool :=
  let n := N_of_ascii c in
  (is_id_start c || ((48 <=? n) && (n <=? 57)) || (n =? 183))%N.

Definition is_identifier (s : text) : bool :=
  match s with
  | [] => false
  | a :: s' => is_id_start a && forallb is_id_continue s'
  end.

Definition backslash : ascii := "092"%char.

(** The name of [\g<name>]: the characters before the first [>]. *)
Fixpoint group_name (s : text) : option (text * text) :=
  match s with
  | [] => None
  | a :: s' =>
      if Ascii.eqb a ">" then Some ([], s')
      else match group_name s' with
           | Some (n, r) => Some (a :: n, r)
           | None => None
           end
  end.

(** The escapes [\a \b \f \n \r \t \v \\]. *)
Definition escape_char (c : ascii) : option ascii :=
  if Ascii.eqb c "a" then Some "007"%char
  else if Ascii.eqb c "b" then Some "008"%char
  else if Ascii.eqb c "f" then Some "012"%char
  else if Ascii.eqb c "n" then Some "010"%char
  else if Ascii.eqb c "r" then Some "013"%char
  else if Ascii.eqb c "t" then Some "009"%char
  else if Ascii.eqb c "v" then Some "011"%char
  else if Ascii.eqb c backslash then Some backslash
  else None.

Definition octal_val (s : text) : nat :=
  fold_left (fun a c => 8 * a + digit_val c) s 0.

Fixpoint parse_template_fuel (fuel : nat) (s : text)
  : result (list piece) :=
  match fuel with
  | O => match s with [] => Ok [] | _ => Raise ReError end
  | S f =>
      let continue ps rest :=
        match parse_template_fuel f rest with
        | Ok tpl => Ok (ps ++ tpl)
        | Raise e => Raise e
        end in
      match s with
      | [] => Ok []
      | a :: s1 =>
          if negb (Ascii.eqb a backslash) then continue [Ch a] s1
          else
            match s1 with
            | [] => Raise ReError
            | e :: s2 =>
                if Ascii.eqb e "g" then
                  match s2 with
                  | lt :: s3 =>
                      if Ascii.eqb lt "<" then
                        match group_name s3 with
                        | Some (name, rest) =>
                            if negb (text_eqb name []) && forallb is_digit name
                            then if int name =? 0
                                 then continue [Whole] rest
                                 else Raise ReError
                            else if is_identifier name
                                    && negb (text_eqb rest [backslash])
                                 then Raise IndexError
                                 else Raise ReError
                        | None => Raise ReError
                        end
                      else Raise ReError
                  | [] => Raise ReError
                  end
                else if Ascii.eqb e "0" then
                  match s2 with
                  | d1 :: s3 =>
                      if is_octal d1 then
                        match s3 with
                        | d2 :: s4 =>
                            if is_octal d2
                            then continue
                                   [Ch (ascii_of_nat (octal_val [d1; d2]))] s4
                            else continue
                                   [Ch (ascii_of_nat (octal_val [d1]))] s3
                        | [] => continue
                                  [Ch (ascii_of_nat (octal_val [d1]))] s3
                        end
                      else continue [Ch zero] s2
                  | [] => continue [Ch zero] s2
                  end
                else if is_digit e then
                  match s2 with
                  | d1 :: d2 :: s4 =>
                      if is_octal e && is_octal d1 && is_octal d2
                         && (octal_val [e; d1; d2] <=? 255)
                      then continue
                             [Ch (ascii_of_nat (octal_val [e; d1; d2]))] s4
                      else Raise ReError
                  | _ => Raise ReError
                  end
                else
                  match escape_char e with
                  | Some c => continue [Ch c] s2
                  | None =>
                      if is_ascii_letter e then Raise ReError
                      else continue [Ch a; Ch e] s2
                  end
            end
      end
  end.

Definition parse_template (s : text) : result (list piece) :=
  parse_template_fuel (length s) s.

Definition expand (tpl : list piece) (m : text) : text :=
  flat_map (fun p => match p with Ch c => [c] | Whole => m end) tpl.

(** The substitution loop: at every position not inside a previous match
    the pattern is tried; a match is replaced and scanning goes on after
    it ([skip] characters are passed over); an empty match is replaced and
    the character after it copied. *)
Fixpoint sub_go (p : regex) (tpl : list piece) (skip : nat) (s : text)
  {struct s} : text :=
  match skip with
  | S k => match s with [] => [] | _ :: s' => sub_go p tpl k s' end
  | O =>
      match match_here p s with
      | Some (_, rest) =>
          let n := length s - length rest in
          let r := expand tpl (firstn n s) in
          match s with
          | [] => r
          | a :: s' =>
              match n with
              | O => r ++ a :: sub_go p tpl 0 s'
              | S k => r ++ sub_go p tpl k s'
              end
          end
      | None =>
          match s with
          | [] => []
          | a :: s' => a :: sub_go p tpl 0 s'
          end
      end
  end.

Definition re_sub (p : regex) (repl : text) (s : text) : result text :=
  match parse_template repl with
  | Raise e => Raise e
  | Ok tpl => Ok (sub_go p tpl 0 s)
  end.

(** ** The patterns of the source *)

(** [r'##\s*\[([ ~x])\]\s*Track:\s*(.+)'] *)
Definition heading_re : regex :=
  lit (txt "##") ++ [ws_star] ++ lit (txt "[") ++ [Item is_marker One true]
  ++ lit (txt "]") ++ [ws_star] ++ lit (txt "Track:") ++ [ws_star]
  ++ [Item is_dot Plus true].

(** [r'\[conductor/tracks/([^\]]+)\]'] *)
Definition folder_re : regex :=
  lit (txt "[conductor/tracks/") ++ [Item not_rbracket Plus true]
  ++ lit (txt "]").

(** [r'track-(\d+)'] *)
Definition track_number_re : regex :=
  lit (txt "track-") ++ [Item is_digit Plus true].

(** [r'^-\s*\[([ ~x])\]\s*Task:\s*(.+)'], used with [re.match], which
    tries the start of the line only, where [^] holds. *)
Definition task_re : regex :=
  lit (txt "-") ++ [ws_star] ++ lit (txt "[") ++ [Item is_marker One true]
  ++ lit (txt "]") ++ [ws_star] ++ lit (txt "Task:") ++ [ws_star]
  ++ [Item is_dot Plus true].

(** [r'^\s{4}-\s*\[([ ~x])\]\s*(.+)'], used with [re.match]. *)
Definition subtask_re : regex :=
  [ws_one; ws_one; ws_one; ws_one] ++ lit (txt "-") ++ [ws_star]
  ++ lit (txt "[") ++ [Item is_marker One true] ++ lit (txt "]")
  ++ [ws_star] ++ [Item is_dot Plus true].

(** [r'##\s*\[[ ~x]\]\s*Track:\s*' + re.escape(description)] *)
Definition old_pattern (description : text) : regex :=
  lit (txt "##") ++ [ws_star] ++ lit (txt "[") ++ [Item is_marker One false]
  ++ lit (txt "]") ++ [ws_star] ++ lit (txt "Track:") ++ [ws_star]
  ++ lit description.

(** [r'-\s*\[[ ~x]\]\s*Task:\s*' + re.escape(task_description)] *)
Definition old_task_pattern (task_description : text) : regex :=
  lit (txt "-") ++ [ws_star] ++ lit (txt "[") ++ [Item is_marker One false]
  ++ lit (txt "]") ++ [ws_star] ++ lit (txt "Task:") ++ [ws_star]
  ++ lit task_description.

(** ** Data model *)

Inductive Status := Pending | InProgress | Completed.

Definition Status_eqb (a b : Status) : bool :=
  match a, b with
  | Pending, Pending | InProgress, InProgress | Completed, Completed => true
  | _, _ => false
  end.

(** The names the source gives the three states. *)
Definition status_name (s : Status) : text :=
  match s with
  | Pending => txt "pending"
  | InProgress => txt "in_progress"
  | Completed => txt "completed"
  end.

Record Track := mkTrack {
  tr_id : text;
  tr_description : text;
  tr_status : Status;
  tr_folder : text
}.

Record Subtask := mkSubtask {
  st_subtask : text;
  st_status : Status
}.

Record Task := mkTask {
  tk_phase : option text;
  tk_task : text;
  tk_status : Status;
  tk_subtasks : list Subtask
}.

(** [{' ': 'pending', '~': 'in_progress', 'x': 'completed'}.get(c, 'pending')] *)
Definition status_of_marker (status_char : text) : Status :=
  if text_eqb status_char (txt " ") then Pending
  else if text_eqb status_char (txt "~") then InProgress
  else if text_eqb status_char (txt "x") then Completed
  else Pending.

(** [{'pending': ' ', 'in_progress': '~', 'completed': 'x'}.get(s, ' ')] *)
Definition marker_of_status_name (new_status : text) : ascii :=
  if text_eqb new_status (txt "pending") then " "%char
  else if text_eqb new_status (txt "in_progress") then "~"%char
  else if text_eqb new_status (txt "completed") then "x"%char
  else " "%char.

(** ** The project store

    What the class keeps on disk under the project root: the directory
    [conductor], in it the registry file [tracks.md] and the directory
    [tracks], and in that one entry per name, a plain file or a track
    folder with [metadata.json], [spec.md] and [plan.md].  A missing file
    or directory is [None].  The metadata file is kept as the record that
    [json.dumps] writes out. *)

Record Metadata := mkMetadata {
  md_id : text;
  md_description : text;
  md_created_at : text;
  md_status : text
}.

Record TrackDir := mkTrackDir {
  metadata_json : option Metadata;
  spec_md : option text;
  plan_md : option text
}.

Inductive node := File | Dir (d : TrackDir).

Record Conductor := mkConductor {
  tracks_dir : option (list (text * node));
  tracks_file : option text
}.

Definition Store := option Conductor.

Definition tracks_dir_of (st : Store) : option (list (text * node)) :=
  match st with Some c => tracks_dir c | None => None end.

Definition tracks_file_of (st : Store) : option text :=
  match st with Some c => tracks_file c | None => None end.

Fixpoint lookup (name : text) (es : list (text * node)) : option node :=
  match es with
  | [] => None
  | (n, x) :: es' => if text_eqb n name then Some x else lookup name es'
  end.

Fixpoint update (name : text) (x : node) (es : list (text * node))
  : list (text * node) :=
  match es with
  | [] => [(name, x)]
  | (n, y) :: es' =>
      if text_eqb n name then (n, x) :: es' else (n, y) :: update name x es'
  end.

Definition is_dir (e : text * node) : bool :=
  match snd e with Dir _ => true | File => false end.

(** [self.tracks_file.write_text(content)] *)
Definition write_tracks_file (st : Store) (content : text) : result Store :=
  match st with
  | None => Raise FileNotFoundError
  | Some c => Ok (Some (mkConductor (tracks_dir c) (Some content)))
  end.

(** [(self.tracks_dir / track_id / "plan.md")], when it exists. *)
Definition plan_file_of (st : Store) (track_id : text) : option text :=
  match tracks_dir_of st with
  | Some es =>
      match lookup track_id es with
      | Some (Dir d) => plan_md d
      | _ => None
      end
  | None => None
  end.

Definition write_plan_file (st : Store) (track_id : text) (content : text)
  : result Store :=
  match st with
  | Some (mkConductor (Some es) tf) =>
      match lookup track_id es with
      | Some (Dir d) =>
          Ok (Some (mkConductor
                      (Some (update track_id
                               (Dir (mkTrackDir (metadata_json d) (spec_md d)
                                       (Some content))) es)) tf))
      | _ => Raise FileNotFoundError
      end
  | _ => Raise FileNotFoundError
  end.

Definition header_init : text :=
  txt "# Tracks" ++ [newline; newline]
  ++ txt "This file contains all tracks for the project."
  ++ [newline; newline].

(** ** Operations of [ManusCondor] *)

(** [init_conductor_structure]: the three [mkdir(exist_ok=True)] and the
    registry file written when it is missing. *)
Definition init_conductor_structure (st : Store) : Store :=
  let c := match st with Some c => c | None => mkConductor None None end in
  Some (mkConductor
          (Some (match tracks_dir c with Some es => es | None => [] end))
          (Some (match tracks_file c with
                 | Some t => t
                 | None => header_init
                 end))).

(** [re.search(r'track-(\d+)', track)] and [int(match.group(1))]. *)
Definition track_number (track : text) : option nat :=
  match search track_number_re track with
  | Some (g :: _, _) => Some (int g)
  | _ => None
  end.

(** The loop of [get_next_track_id] that collects the numbers. *)
Definition track_numbers (existing_tracks : list text) : list nat :=
  flat_map (fun track =>
              match track_number track with
              | Some n => [n]
              | None => []
              end) existing_tracks.

Definition get_next_track_id (st : Store) : text :=
  match tracks_dir_of st with
  | None => txt "track-001"
  | Some es =>
      let existing_tracks := map fst (filter is_dir es) in
      match existing_tracks with
      | [] => txt "track-001"
      | _ =>
          let numbers := track_numbers existing_tracks in
          match numbers with
          | [] => txt "track-001"
          | _ =>
              let next_num := list_max numbers + 1 in
              txt "track-" ++ fmt03 next_num
          end
      end
  end.

(** The entry [add_track_to_registry] appends. *)
Definition track_entry (track_id description : text) : text :=
  [newline] ++ txt "---" ++ [newline; newline] ++ txt "## [ ] Track: "
  ++ description ++ [newline; newline]
  ++ txt "**Folder:** [conductor/tracks/" ++ track_id
  ++ txt "](conductor/tracks/" ++ track_id ++ txt ")" ++ [newline; newline].

Definition header_add : text :=
  txt "# Tracks" ++ [newline; newline]
  ++ txt "This file contains all tracks for the project." ++ [newline].

Definition add_track_to_registry (st : Store) (track_id description : text)
  : result Store :=
  let track_entry := track_entry track_id description in
  match tracks_file_of st with
  | Some content => write_tracks_file st (content ++ track_entry)
  | None => write_tracks_file st (header_add ++ track_entry)
  end.

(** [create_track]; [now] is what [datetime.now().isoformat()] returns. *)
Definition create_track (st : Store) (now : text)
  (description spec_content plan_content : text) : result (Store * text) :=
  let track_id := get_next_track_id st in
  match st with
  | Some (mkConductor (Some es) tf) =>
      (* track_dir.mkdir(exist_ok=True) *)
      match lookup track_id es with
      | Some File => Raise FileExistsError
      | _ =>
          let metadata :=
            mkMetadata track_id description now (txt "pending") in
          let d := mkTrackDir (Some metadata) (Some spec_content)
                     (Some plan_content) in
          let st1 := Some (mkConductor (Some (update track_id (Dir d) es)) tf) in
          match add_track_to_registry st1 track_id description with
          | Ok st2 => Ok (st2, track_id)
          | Raise e => Raise e
          end
      end
  | _ => Raise FileNotFoundError
  end.

(** The body of the loop of [parse_tracks], for one section. *)
Definition parse_section (section : text) : list Track :=
  match search heading_re section with
  | None => []
  | Some (gs, _) =>
      let status_char := nth 0 gs [] in
      let description := strip (nth 1 gs []) in
      let status := status_of_marker status_char in
      match search folder_re section with
      | Some (track_id :: _, _) =>
          match track_id with
          | [] => []
          | _ => [mkTrack track_id description status
                    (txt "conductor/tracks/" ++ track_id)]
          end
      | _ => []
      end
  end.

Definition parse_tracks_text (content : text) : list Track :=
  let sections := split (txt "---") content in
  flat_map parse_section (tl sections).

Definition parse_tracks (st : Store) : list Track :=
  match tracks_file_of st with
  | None => []
  | Some content => parse_tracks_text content
  end.

Definition get_track_by_id (st : Store) (track_id : text) : option Track :=
  find (fun track => text_eqb (tr_id track) track_id) (parse_tracks st).

Definition get_next_pending_track (st : Store) : option Track :=
  find (fun track => negb (Status_eqb (tr_status track) Completed))
       (parse_tracks st).

Definition new_heading (status_char : ascii) (description : text) : text :=
  txt "## [" ++ [status_char] ++ txt "] Track: " ++ description.

Definition update_track_status (st : Store) (track_id new_status : text)
  : result Store :=
  let status_char := marker_of_status_name new_status in
  match tracks_file_of st with
  | None => Raise FileNotFoundError
  | Some content =>
      match get_track_by_id st track_id with
      | None => Ok st
      | Some track =>
          let description := tr_description track in
          match re_sub (old_pattern description)
                  (new_heading status_char description) content with
          | Ok content' => write_tracks_file st content'
          | Raise e => Raise e
          end
      end
  end.

(** [tasks[-1]['subtasks'].append(s)] *)
Fixpoint append_subtask (tasks : list Task) (s : Subtask) : list Task :=
  match tasks with
  | [] => []
  | [t] => [mkTask (tk_phase t) (tk_task t) (tk_status t)
              (tk_subtasks t ++ [s])]
  | t :: tasks' => t :: append_subtask tasks' s
  end.

(** One turn of the loop of [parse_plan] over the lines; the state is
    [tasks] and [current_phase]. *)
Definition plan_step (state : list Task * option text) (line : text)
  : list Task * option text :=
  let (tasks, current_phase) := state in
  if prefixb (txt "## ") line then (tasks, Some (strip (skipn 3 line)))
  else
    match match_here task_re line with
    | Some (gs, _) =>
        let status_char := nth 0 gs [] in
        let task_desc := strip (nth 1 gs []) in
        let status := status_of_marker status_char in
        (tasks ++ [mkTask current_phase task_desc status []], current_phase)
    | None =>
        match match_here subtask_re line, tasks with
        | Some (gs, _), _ :: _ =>
            let status_char := nth 0 gs [] in
            let subtask_desc := strip (nth 1 gs []) in
            let status := status_of_marker status_char in
            (append_subtask tasks (mkSubtask subtask_desc status),
             current_phase)
        | _, _ => state
        end
    end.

Definition plan_loop (lines : list text) (state : list Task * option text)
  : list Task * option text :=
  fold_left plan_step lines state.

Definition parse_plan_text (content : text) : list Task :=
  let lines := split [newline] content in
  fst (plan_loop lines ([], None)).

Definition parse_plan (st : Store) (track_id : text) : list Task :=
  match plan_file_of st track_id with
  | None => []
  | Some content => parse_plan_text content
  end.

Definition get_next_pending_task (st : Store) (track_id : text)
  : option Task :=
  find (fun task => negb (Status_eqb (tk_status task) Completed))
       (parse_plan st track_id).

Definition new_task (status_char : ascii) (task_description : text) : text :=
  txt "- [" ++ [status_char] ++ txt "] Task: " ++ task_description.

Definition update_task_status (st : Store)
  (track_id task_description new_status : text) : result Store :=
  match plan_file_of st track_id with
  | None => Ok st
  | Some content =>
      let status_char := marker_of_status_name new_status in
      match re_sub (old_task_pattern task_description)
              (new_task status_char task_description) content with
      | Ok content' => write_plan_file st track_id content'
      | Raise e => Raise e
      end
  end.

(** ** What it means for a pattern to match a string

    The usual reading of a pattern of the fragment, against which the
    backtracking matcher is checked below. *)

Inductive Matches : regex -> text -> Prop :=
| M_nil : Matches [] []
| M_one c b p a m :
    c a = true -> Matches p m -> Matches (Item c One b :: p) (a :: m)
| M_star c b p g m :
    Forall (fun a => c a = true) g -> Matches p m ->
    Matches (Item c Star b :: p) (g ++ m)
| M_plus c b p a g m :
    c a = true -> Forall (fun a => c a = true) g -> Matches p m ->
    Matches (Item c Plus b :: p) (a :: g ++ m).

(** [s] contains a match of [p]. *)
Definition contains_match (p : regex) (s : text) : Prop :=
  exists pre m post, s = pre ++ m ++ post /\ Matches p m.

(** ** Documents and stores used in examples

    [registry_entry] is the entry of [add_track_to_registry] with any
    marker in the heading, as it stands after status updates. *)

Definition registry_entry (m : ascii) (track_id description : text) : text :=
  [newline] ++ txt "---" ++ [newline; newline] ++ txt "## [" ++ [m]
  ++ txt "] Track: " ++ description ++ [newline; newline]
  ++ txt "**Folder:** [conductor/tracks/" ++ track_id
  ++ txt "](conductor/tracks/" ++ track_id ++ txt ")" ++ [newline; newline].

(** A registry whose only block has its heading broken over two lines:
    [##] ends one line and [[ ] Track: Login] starts the next. *)
Definition broken_heading_block : text :=
  [newline; newline] ++ txt "##" ++ [newline] ++ txt "[ ] Track: Login"
  ++ [newline; newline]
  ++ txt "**Folder:** [conductor/tracks/track-001](conductor/tracks/track-001)"
  ++ [newline; newline].

Definition broken_heading_registry : text :=
  header_init ++ [newline] ++ txt "---" ++ broken_heading_block.

(** A plan line of four spaces and [- [<marker>] <description>]. *)
Definition subtask_line (m : ascii) (desc : text) : text :=
  txt "    - [" ++ [m] ++ txt "] " ++ desc.

Definition store_without_registry : Store :=
  Some (mkConductor (Some []) None).

Definition sample_registry : text :=
  header_init
  ++ registry_entry "x" (txt "track-001") (txt "Login")
  ++ registry_entry " " (txt "track-002") (txt "Signup")
  ++ registry_entry "~" (txt "track-003") (txt "Billing").

Definition sample_plan : text :=
  txt "# Implementation Plan" ++ [newline]
  ++ txt "## Phase 1: Database Models" ++ [newline]
  ++ txt "- [x] Task: Create User model" ++ [newline]
  ++ txt "    - [ ] Write the migration" ++ [newline].

Definition sample_track_dir : TrackDir :=
  mkTrackDir None (Some (txt "# Spec")) (Some sample_plan).

Definition sample_store : Store :=
  Some (mkConductor
          (Some [(txt "track-001", Dir sample_track_dir);
                 (txt "track-002", Dir sample_track_dir);
                 (txt "track-003", Dir sample_track_dir)])
          (Some sample_registry)).

(** ** Registries as the class writes them

    A registry written by [init_conductor_structure] or
    [add_track_to_registry] and maintained by [update_track_status] is a
    header followed by one entry per track; a [Row] is the data of one
    entry. *)

Definition track_id_of (n : nat) : text := txt "track-" ++ fmt03 n.

Record Row := mkRow {
  row_marker : ascii;
  row_num : nat;
  row_description : text
}.

Definition row_entry (r : Row) : text :=
  registry_entry (row_marker r) (track_id_of (row_num r))
    (row_description r).

Definition registry_of (header : text) (rows : list Row) : text :=
  header ++ flat_map row_entry rows.

Definition track_of_row (r : Row) : Track :=
  mkTrack (track_id_of (row_num r)) (row_description r)
    (status_of_marker [row_marker r])
    (txt "conductor/tracks/" ++ track_id_of (row_num r)).

(** Descriptions that parse back as they were written: not empty, no
    surrounding whitespace, no line feed, no [---] and no
    [[conductor/tracks/]. *)
Definition plain_description (d : text) : bool :=
  negb (text_eqb d []) && text_eqb (strip d) d && forallb is_dot d
  && negb (infixb (txt "---") d)
  && negb (infixb (txt "[conductor/tracks/") d).

(** Descriptions that status updates leave as they are: plain, without
    [##] and without backslash. *)
Definition safe_description (d : text) : bool :=
  plain_description d && negb (infixb (txt "##") d)
  && forallb (fun a => negb (Ascii.eqb a backslash)) d.

Definition header_ok (h : text) : bool :=
  negb (infixb (txt "---") h) && negb (infixb (txt "##") h).

Definition plain_row (r : Row) : bool :=
  is_marker (row_marker r) && plain_description (row_description r).

Definition safe_row (r : Row) : bool :=
  is_marker (row_marker r) && safe_description (row_description r).

(** What a status update does to a row: the marker is replaced when the
    description looked up is a prefix of the row's description. *)
Definition update_row (d : text) (c : ascii) (r : Row) : Row :=
  if prefixb d (row_description r)
  then mkRow c (row_num r) (row_description r)
  else r.

(** No occurrence of [l] starts inside [a] in the text [a ++ s]. *)
Definition free (l a s : text) : Prop :=
  forall a1 a2, a = a1 ++ a2 -> a2 <> [] -> prefixb l (a2 ++ s) = false.

(** The first character of [s], if any, does not occur in [l]. *)
Definition boundary (l s : text) : Prop :=
  match s with
  | [] => True
  | y :: _ => forallb (fun x => negb (Ascii.eqb x y)) l = true
  end.

(** The part of an entry after its separator line, and the sections
    [split] cuts a registry into. *)
Definition entry_body (m : ascii) (track_id description : text) : text :=
  [newline; newline] ++ txt "## [" ++ [m] ++ txt "] Track: " ++ description
  ++ [newline; newline] ++ txt "**Folder:** [conductor/tracks/" ++ track_id
  ++ txt "](conductor/tracks/" ++ track_id ++ txt ")" ++ [newline; newline].

Definition row_body (r : Row) : text :=
  entry_body (row_marker r) (track_id_of (row_num r)) (row_description r).

Fixpoint sections (first : text) (rows : list Row) : list text :=
  match rows with
  | [] => [first]
  | r :: rows' => (first ++ [newline]) :: sections (row_body r) rows'
  end.

Definition head_seg (m : ascii) : text :=
  [newline; newline] ++ txt "## [" ++ [m] ++ txt "] Track: ".

Definition mid_seg : text := [newline; newline] ++ txt "**Folder:** ".

Definition link_seg (track_id : text) : text :=
  txt "[conductor/tracks/" ++ track_id ++ txt "](conductor/tracks/"
  ++ track_id ++ txt ")" ++ [newline; newline].

Definition pre_seg : text := [newline] ++ txt "---" ++ [newline; newline].

Definition heading_seg (m : ascii) : text :=
  txt "## [" ++ [m] ++ txt "] Track: ".

Definition post_seg (track_id : text) : text := mid_seg ++ link_seg track_id.

(** The rows and the records of requests numbered from [i]. *)
Fixpoint new_rows (i : nat) (descriptions : list text) : list Row :=
  match descriptions with
  | [] => []
  | d :: rest => mkRow " " i d :: new_rows (S i) rest
  end.

Fixpoint new_tracks (i : nat) (descriptions : list text) : list Track :=
  match descriptions with
  | [] => []
  | d :: rest =>
      mkTrack (track_id_of i) d Pending
        (txt "conductor/tracks/" ++ track_id_of i)
      :: new_tracks (S i) rest
  end.

Definition overlapping_registry : text :=
  registry_of header_init
    [mkRow " " 1 (txt "##[ ] Track: ## ["); mkRow " " 2 (txt "## [")].

Definition duplicate_registry : text :=
  registry_of header_init
    [mkRow " " 1 (txt "Login"); mkRow " " 2 (txt "Login");
     mkRow " " 3 (txt "Login page")].

(** The track folders of a project in which [k] tracks were created. *)
Definition dirs_upto (es : list (text * node)) (k : nat) : Prop :=
  map fst es = map track_id_of (seq 1 k) /\ forallb is_dir es = true.

(** Looking a track up in a registry. *)
Definition row_has_id (track_id : text) (r : Row) : bool :=
  text_eqb (track_id_of (row_num r)) track_id.

(** What a status update does to a parsed track: the status is replaced
    when the description looked up is a prefix of the track's. *)
Definition retag (d : text) (new_status : Status) (u : Track) : Track :=
  if prefixb d (tr_description u)
  then mkTrack (tr_id u) (tr_description u) new_status (tr_folder u)
  else u.

(** ** Calls of [create_track] in sequence *)

Record Request := mkRequest {
  rq_now : text;
  rq_description : text;
  rq_spec : text;
  rq_plan : text
}.

Fixpoint create_tracks (st : Store) (requests : list Request)
  : result (Store * list text) :=
  match requests with
  | [] => Ok (st, [])
  | rq :: rest =>
      match create_track st (rq_now rq) (rq_description rq) (rq_spec rq)
              (rq_plan rq) with
      | Ok (st1, track_id) =>
          match create_tracks st1 rest with
          | Ok (st2, ids) => Ok (st2, track_id :: ids)
          | Raise e => Raise e
          end
      | Raise e => Raise e
      end
  end.

(** The store of a project right after [init_conductor_structure]. *)
Definition fresh_store : Store := init_conductor_structure None.

Definition store_of_registry (content : text) : Store :=
  Some (mkConductor (Some []) (Some content)).

(** ** Stores the class reaches

    From a freshly initialised project, by creating tracks with safe
    descriptions and by updating track statuses. *)

Inductive step : Store -> Store -> Prop :=
| step_create st now description spec_content plan_content st' track_id :
    safe_description description = true ->
    create_track st now description spec_content plan_content
    = Ok (st', track_id) ->
    step st st'
| step_update st track_id new_status st' :
    update_track_status st track_id new_status = Ok st' ->
    step st st'.

Inductive reachable : Store -> Prop :=
| reachable_fresh : reachable fresh_store
| reachable_step st st' : reachable st -> step st st' -> reachable st'.

(** The shape of a reachable store: track folders [track-001] to
    [track-k] and a registry of safe rows under the initial header. *)
Definition managed (st : Store) : Prop :=
  exists es k rows,
    st = Some (mkConductor (Some es) (Some (registry_of header_init rows)))
    /\ dirs_upto es k
    /\ Forall (fun r => safe_row r = true) rows.

(** ** Texts that are read back as written

    [write_text] and [read_text] open the file in text mode:
    [read_text] returns a line feed for every carriage return, alone or
    followed by a line feed, of the file.  The store keeps the text of a
    file as [read_text] returns it, so a call that writes a text given by
    the caller is followed exactly when that text has no carriage
    return. *)

Definition carriage_return : ascii := "013"%char.

Definition no_cr (t : text) : bool :=
  forallb (fun a => negb (Ascii.eqb a carriage_return)) t.

(** ** Track ids that name an entry

    [self.tracks_dir / track_id] is the entry of the tracks directory
    with that name when the id is a single path component.  Other ids
    are paths: the empty id and [.] lead back to the directory itself,
    [./track-001] and [track-001/] to the entry [track-001], [..] and
    absolute paths out of the directory.  The store looks an id up by
    name, so what it tells of an id is what the program does when the id
    is such a name. *)

Definition entry_name (track_id : text) : bool :=
  negb (text_eqb track_id [])
  && forallb (fun a => negb (Ascii.eqb a "/") && negb (Ascii.eqb a zero))
       track_id
  && negb (text_eqb track_id (txt "."))
  && negb (text_eqb track_id (txt "..")).

(** ** Reading back: contexts and project status *)

(** The dict [load_track_context] returns; [None] is the empty metadata
    dict [{}]. *)
Record TrackContext := mkTrackContext {
  ctx_spec : text;
  ctx_plan : text;
  ctx_metadata : option Metadata
}.

Definition or_empty (o : option text) : text :=
  match o with Some t => t | None => [] end.

Definition load_track_context (st : Store) (track_id : text) : TrackContext :=
  match tracks_dir_of st with
  | Some es =>
      match lookup track_id es with
      | Some (Dir d) =>
          mkTrackContext (or_empty (spec_md d)) (or_empty (plan_md d))
            (metadata_json d)
      | _ => mkTrackContext [] [] None
      end
  | None => mkTrackContext [] [] None
  end.

(** The dict [get_project_status] returns. *)
Record ProjectStatus := mkProjectStatus {
  ps_total_tracks : nat;
  ps_completed : nat;
  ps_in_progress : nat;
  ps_pending : nat;
  ps_tracks : list Track
}.

(** [sum(1 for t in tracks if t['status'] == s)] *)
Definition count_status (s : Status) (tracks : list Track) : nat :=
  length (filter (fun t => Status_eqb (tr_status t) s) tracks).

Definition get_project_status (st : Store) : ProjectStatus :=
  let tracks := parse_tracks st in
  mkProjectStatus (length tracks) (count_status Completed tracks)
    (count_status InProgress tracks) (count_status Pending tracks) tracks.

(** The registry text the new entry is appended to. *)
Definition registry_base (tf : option text) : text :=
  match tf with Some content => content | None => header_add end.

(** A tracks directory in which a plain file is in the way of the first
    id. *)
Definition blocked_store : Store :=
  Some (mkConductor (Some [(txt "track-001", File)]) (Some header_init)).

(** ** Sequences of operations

    The calls that change the store, and a store driven by a list of
    them: a call that raises leaves the store as it was (in each of them
    every check that can raise comes before the first write). *)

Inductive op :=
| OpInit
| OpCreate (now description spec_content plan_content : text)
| OpUpdateTrack (track_id new_status : text)
| OpUpdateTask (track_id task_description new_status : text).

Definition apply_op (st : Store) (o : op) : result Store :=
  match o with
  | OpInit => Ok (init_conductor_structure st)
  | OpCreate now description spec_content plan_content =>
      match create_track st now description spec_content plan_content with
      | Ok (st', _) => Ok st'
      | Raise e => Raise e
      end
  | OpUpdateTrack track_id new_status =>
      update_track_status st track_id new_status
  | OpUpdateTask track_id task_description new_status =>
      update_task_status st track_id task_description new_status
  end.

Definition exec (st : Store) (o : op) : Store :=
  match apply_op st o with Ok st' => st' | Raise _ => st end.

Definition run (st : Store) (ops : list op) : Store := fold_left exec ops st.

(** A track folder as [create_track] leaves it, up to later edits of
    its plan: its metadata names the folder and says ['pending'], and the
    three files are there. *)
Definition folder_ok (e : text * node) : Prop :=
  match snd e with
  | File => False
  | Dir d =>
      (exists m, metadata_json d = Some m /\ md_id m = fst e
                 /\ md_status m = txt "pending")
      /\ spec_md d <> None /\ plan_md d <> None
  end.

(** The shape of a store with [k] track folders made by the class. *)
Definition tidy (st : Store) (k : nat) : Prop :=
  match st with
  | None => k = 0
  | Some c =>
      exists es,
        tracks_dir c = Some es /\ tracks_file c <> None
        /\ dirs_upto es k /\ Forall folder_ok es
  end.

(** The number of [create_track] calls in a sequence. *)
Definition creates (ops : list op) : nat :=
  length (filter (fun o => match o with OpCreate _ _ _ _ => true
                                      | _ => false end) ops).

(** Calls whose description, if they carry one for a new track, is
    safe and has no carriage return. *)
Definition safe_op (o : op) : bool :=
  match o with
  | OpCreate _ description _ _ =>
      safe_description description && no_cr description
  | _ => true
  end.

(** An entry of the tracks directory and a row of the registry that
    describe the same track: the folder is named by the row's id and its
    metadata records that id and the row's description. *)
Definition agrees (e : text * node) (r : Row) : Prop :=
  fst e = track_id_of (row_num r)
  /\ exists d m,
       snd e = Dir d /\ metadata_json d = Some m
       /\ md_id m = fst e /\ md_description m = row_description r.

(** A store whose registry and track folders describe the same tracks,
    in the same order, numbered from 1. *)
Definition in_sync (st : Store) : Prop :=
  match st with
  | None => True
  | Some c =>
      exists es rows,
        tracks_dir c = Some es
        /\ tracks_file c = Some (registry_of header_init rows)
        /\ Forall (fun r => safe_row r = true) rows
        /\ map row_num rows = seq 1 (length rows)
        /\ Forall2 agrees es rows
  end.

(** ** Plans in the format [parse_plan] reads

    The lines of a plan: a phase header, a task, a subtask, or any other
    line (a title, a blank line, a note). *)

Inductive PlanLine :=
| PhaseLine (name : text)
| TaskLine (m : ascii) (desc : text)
| SubtaskLine (m : ascii) (desc : text)
| TextLine (l : text).

Definition phase_line (name : text) : text := txt "## " ++ name.

Definition task_line (m : ascii) (desc : text) : text :=
  txt "- [" ++ [m] ++ txt "] Task: " ++ desc.

Definition render_line (l : PlanLine) : text :=
  match l with
  | PhaseLine name => phase_line name
  | TaskLine m desc => task_line m desc
  | SubtaskLine m desc => subtask_line m desc
  | TextLine l => l
  end.

(** The text of a plan: every line ends with a line feed. *)
Definition plan_text (ls : list PlanLine) : text :=
  flat_map (fun l => render_line l ++ [newline]) ls.

(** Text that reads back as written: not empty, no surrounding
    whitespace, no line feed. *)
Definition plain_text (d : text) : bool :=
  negb (text_eqb d []) && text_eqb (strip d) d && forallb is_dot d.

(** Lines [parse_plan] reads as what they are: a marker among [ ], [~]
    and [x]; plain descriptions; a phase name without line feed and
    surrounding whitespace; any other line has no line feed and starts
    neither with [-], nor with whitespace, nor with [## ]. *)
Definition line_ok (l : PlanLine) : bool :=
  match l with
  | PhaseLine name => text_eqb (strip name) name && forallb is_dot name
  | TaskLine m desc => is_marker m && plain_text desc
  | SubtaskLine m desc => is_marker m && plain_text desc
  | TextLine l =>
      forallb is_dot l
      && match l with
         | [] => true
         | a :: _ => negb (Ascii.eqb a "-") && negb (is_space a)
         end
      && negb (prefixb (txt "## ") l)
  end.

(** The subtasks that follow, up to the next task line. *)
Fixpoint subtasks_of (ls : list PlanLine) : list Subtask :=
  match ls with
  | [] => []
  | SubtaskLine m desc :: ls' =>
      mkSubtask desc (status_of_marker [m]) :: subtasks_of ls'
  | TaskLine _ _ :: _ => []
  | _ :: ls' => subtasks_of ls'
  end.

(** The tasks of a plan, read off its lines: a task belongs to the phase
    of the last header above it and owns the subtask lines down to the
    next task line. *)
Fixpoint tasks_of (phase : option text) (ls : list PlanLine) : list Task :=
  match ls with
  | [] => []
  | PhaseLine name :: ls' => tasks_of (Some name) ls'
  | TaskLine m desc :: ls' =>
      mkTask phase desc (status_of_marker [m]) (subtasks_of ls')
      :: tasks_of phase ls'
  | _ :: ls' => tasks_of phase ls'
  end.

(** ** Plans that [update_task_status] keeps in format *)

(** Every [-] of the text is followed by a character that is neither
    whitespace nor [[]: the pattern of [update_task_status] cannot start
    there. *)
Fixpoint hyphen_ok (t : text) : bool :=
  match t with
  | [] => true
  | a :: t' =>
      (if Ascii.eqb a "-"
       then match t' with
            | [] => false
            | y :: _ => negb (is_space y) && negb (Ascii.eqb y "[")
            end
       else true)
      && hyphen_ok t'
  end.

Definition line_safe (l : PlanLine) : bool :=
  line_ok l
  && match l with
     | PhaseLine name => hyphen_ok name
     | TaskLine _ desc => hyphen_ok desc
     | SubtaskLine _ desc =>
         hyphen_ok desc && negb (prefixb (txt "Task:") desc)
     | TextLine l => hyphen_ok l
     end.

(** Task descriptions to look up: plain and without backslash. *)
Definition safe_task_description (d : text) : bool :=
  plain_text d && forallb (fun a => negb (Ascii.eqb a backslash)) d.

(** What a task status update does to a line and to a parsed task: the
    marker, or the status, is replaced when the description looked up is
    a prefix of the task's. *)
Definition update_line (d : text) (c : ascii) (l : PlanLine) : PlanLine :=
  match l with
  | TaskLine m desc => if prefixb d desc then TaskLine c desc else l
  | _ => l
  end.

Definition retag_task (d : text) (new_status : Status) (t : Task) : Task :=
  if prefixb d (tk_task t)
  then mkTask (tk_phase t) (tk_task t) new_status (tk_subtasks t)
  else t.

(** The pattern [p] matches at no position of [a] in the text
    [a ++ s]. *)
Definition quiet (p : regex) (a s : text) : Prop :=
  forall a1 a2, a = a1 ++ a2 -> a2 <> [] -> match_here p (a2 ++ s) = None.

(** The start of a task line, up to the description. *)
Definition task_seg (m : ascii) : text := txt "- [" ++ [m] ++ txt "] Task: ".

(** The letters that, after a backslash, are no escape of a [re]
    replacement template ([\g] starts a group reference). *)
Definition bad_escape (e : ascii) : bool :=
  is_ascii_letter e && negb (Ascii.eqb e "g")
  && match escape_char e with Some _ => false | None => true end.

(** ** The setup files

    The files the class keeps in [conductor] besides the registry and
    the tracks: the four context documents and [setup_state.json], kept
    as the step that [json.dumps] writes into it.  A missing file is
    [None]; a missing [conductor] directory is [None] for the whole. *)

Record Docs := mkDocs {
  product_md : option text;
  product_guidelines_md : option text;
  tech_stack_md : option text;
  workflow_md : option text;
  state_file : option text
}.

Definition DocStore := option Docs.

Definition exists_file (f : option text) : bool :=
  match f with Some _ => true | None => false end.

Definition is_setup (ds : DocStore) : bool :=
  match ds with
  | Some d =>
      forallb exists_file [product_md d; tech_stack_md d; workflow_md d]
  | None => false
  end.

Definition save_state (ds : DocStore) (step : text) : result DocStore :=
  match ds with
  | Some d =>
      Ok (Some (mkDocs (product_md d) (product_guidelines_md d)
                  (tech_stack_md d) (workflow_md d) (Some step)))
  | None => Raise FileNotFoundError
  end.

Definition load_state (ds : DocStore) : text :=
  match ds with
  | Some d => match state_file d with Some step => step | None => [] end
  | None => []
  end.

Definition create_product_md (ds : DocStore) (content : text)
  : result DocStore :=
  match ds with
  | Some d =>
      save_state
        (Some (mkDocs (Some content) (product_guidelines_md d)
                 (tech_stack_md d) (workflow_md d) (state_file d)))
        (txt "2.1_product_guide")
  | None => Raise FileNotFoundError
  end.

Definition create_product_guidelines_md (ds : DocStore) (content : text)
  : result DocStore :=
  match ds with
  | Some d =>
      save_state
        (Some (mkDocs (product_md d) (Some content) (tech_stack_md d)
                 (workflow_md d) (state_file d)))
        (txt "2.2_product_guidelines")
  | None => Raise FileNotFoundError
  end.

Definition create_tech_stack_md (ds : DocStore) (content : text)
  : result DocStore :=
  match ds with
  | Some d =>
      save_state
        (Some (mkDocs (product_md d) (product_guidelines_md d)
                 (Some content) (workflow_md d) (state_file d)))
        (txt "2.3_tech_stack")
  | None => Raise FileNotFoundError
  end.

Definition create_workflow_md (ds : DocStore) (content : text)
  : result DocStore :=
  match ds with
  | Some d =>
      save_state
        (Some (mkDocs (product_md d) (product_guidelines_md d)
                 (tech_stack_md d) (Some content) (state_file d)))
        (txt "2.5_workflow")
  | None => Raise FileNotFoundError
  end.

(** The dict [load_context_files] returns. *)
Record ContextFiles := mkContextFiles {
  cf_product : text;
  cf_guidelines : text;
  cf_tech_stack : text;
  cf_workflow : text
}.

Definition load_context_files (ds : DocStore) : ContextFiles :=
  match ds with
  | Some d =>
      mkContextFiles (or_empty (product_md d))
        (or_empty (product_guidelines_md d)) (or_empty (tech_stack_md d))
        (or_empty (workflow_md d))
  | None => mkContextFiles [] [] [] []
  end.

(** What [init_conductor_structure] does to these files: the directory
    is made when it is missing, and the state file is written, with the
    empty step, when it is missing. *)
Definition init_setup_files (ds : DocStore) : DocStore :=
  let d := match ds with
           | Some d => d
           | None => mkDocs None None None None None
           end in
  match state_file d with
  | Some _ => Some d
  | None =>
      match save_state (Some d) [] with
      | Ok ds' => ds'
      | Raise _ => Some d
      end
  end.

(** The calls of the setup, and a project driven by a list of them. *)
Inductive setup_op :=
| SetProduct (content : text)
| SetGuidelines (content : text)
| SetTechStack (content : text)
| SetWorkflow (content : text)
| SaveState (step : text)
| InitStructure.

Definition apply_setup_op (ds : DocStore) (o : setup_op) : result DocStore :=
  match o with
  | SetProduct content => create_product_md ds content
  | SetGuidelines content => create_product_guidelines_md ds content
  | SetTechStack content => create_tech_stack_md ds content
  | SetWorkflow content => create_workflow_md ds content
  | SaveState step => save_state ds step
  | InitStructure => Ok (init_setup_files ds)
  end.

Definition exec_setup (ds : DocStore) (o : setup_op) : DocStore :=
  match apply_setup_op ds o with Ok ds' => ds' | Raise _ => ds end.

Definition run_setup (ds : DocStore) (ops : list setup_op) : DocStore :=
  fold_left exec_setup ops ds.

(** The step a call records, if any. *)
Definition step_of (o : setup_op) : option text :=
  match o with
  | SetProduct _ => Some (txt "2.1_product_guide")
  | SetGuidelines _ => Some (txt "2.2_product_guidelines")
  | SetTechStack _ => Some (txt "2.3_tech_stack")
  | SetWorkflow _ => Some (txt "2.5_workflow")
  | SaveState step => Some step
  | InitStructure => None
  end.

Definition writes_product (o : setup_op) : bool :=
  match o with SetProduct _ => true | _ => false end.

Definition writes_tech_stack (o : setup_op) : bool :=
  match o with SetTechStack _ => true | _ => false end.

Definition writes_workflow (o : setup_op) : bool :=
  match o with SetWorkflow _ => true | _ => false end.

(** The text a setup call writes into a context file, if any. *)
Definition written (o : setup_op) : text :=
  match o with
  | SetProduct content => content
  | SetGuidelines content => content
  | SetTechStack content => content
  | SetWorkflow content => content
  | _ => []
  end.

(** * Properties *)

(** ** Sanity checks of the embedding on concrete inputs *)

Example split_example :
  split (txt "---") (txt "a---b----c") = [txt "a"; txt "b"; txt "-c"].
Proof. reflexivity. Qed.

Example fmt03_examples :
  fmt03 7 = txt "007" /\ fmt03 42 = txt "042" /\ fmt03 1000 = txt "1000".
Proof. repeat split; reflexivity. Qed.

Example heading_backtrack :
  match_here heading_re (txt "## [x] Track:  ") = Some ([txt "x"; txt " "], []).
Proof. reflexivity. Qed.

Example sub_example :
  re_sub (old_pattern (txt "A")) (new_heading "x" (txt "A"))
    (txt "##[ ]Track:A ## [~]  Track: AB")
  = Ok (txt "## [x] Track: A ## [x] Track: AB").
Proof. reflexivity. Qed.

(** ** Text equality *)

Lemma text_eqb_refl (a : text) : text_eqb a a = true.
Proof.
  induction a as [|x a IH]; simpl; [reflexivity|].
  now rewrite Ascii.eqb_refl.
Qed.

Lemma text_eqb_eq (a b : text) : text_eqb a b = true <-> a = b.
Proof.
  split; [|intros ->; apply text_eqb_refl].
  revert b; induction a as [|x a IH]; intros [|y b]; simpl; try discriminate.
  - reflexivity.
  - intros H. apply andb_true_iff in H as [Hx Hab].
    apply Ascii.eqb_eq in Hx. now rewrite Hx, (IH _ Hab).
Qed.

Lemma text_eqb_neq (a b : text) : text_eqb a b = false <-> a <> b.
Proof.
  rewrite <- text_eqb_eq. destruct (text_eqb a b); split; congruence.
Qed.

(** ** Status updates: missing files and unknown status names *)

(** C10: when [tracks.md] does not exist, [update_track_status] raises
    [FileNotFoundError] (the lookup alone would have found no track and
    returned silently), whereas [update_task_status] returns silently,
    leaving the store as it is, when the plan file does not exist. *)
Theorem missing_registry_raises_missing_plan_silent :
  forall (st : Store) (track_id task_description new_status : text),
    (tracks_file_of st = None ->
       get_track_by_id st track_id = None /\
       update_track_status st track_id new_status = Raise FileNotFoundError)
    /\
    (plan_file_of st track_id = None ->
       update_task_status st track_id task_description new_status = Ok st).
Proof.
  intros st track_id task_description new_status. split; intros H.
  - unfold update_track_status, get_track_by_id, parse_tracks.
    now rewrite H.
  - unfold update_task_status. now rewrite H.
Qed.

Lemma missing_registry_raises_missing_plan_silent_witness :
  update_track_status store_without_registry (txt "track-001")
    (txt "completed") = Raise FileNotFoundError
  /\ update_task_status store_without_registry (txt "track-001")
       (txt "Create User model") (txt "completed")
     = Ok store_without_registry.
Proof.
  destruct (missing_registry_raises_missing_plan_silent
              store_without_registry (txt "track-001")
              (txt "Create User model") (txt "completed")) as [H1 H2].
  split.
  - apply H1. reflexivity.
  - apply H2. reflexivity.
Defined.

(** A status name outside the three known ones resets a completed track
    to pending. *)
Example unknown_status_resets_track :
  (exists st', update_track_status sample_store (txt "track-001") (txt "done")
               = Ok st'
               /\ map tr_status (parse_tracks sample_store)
                  = [Completed; Pending; InProgress]
               /\ map tr_status (parse_tracks st')
                  = [Pending; Pending; InProgress]).
Proof. eexists. split; [vm_compute; reflexivity|]. split; reflexivity. Qed.

(** C5: the code at an input where it departs from the silent no-op.
    [tracks.md] is missing, so parsing the registry finds no track with
    the id (the lookup, through [parse_tracks], checks that the file
    exists); the call should return silently, as [update_task_status]
    does when its plan file is missing, yet it raises
    [FileNotFoundError]: the registry is read before the lookup. *)
Lemma silent_noop_fails_without_registry :
  get_track_by_id store_without_registry (txt "track-001") = None
  /\ update_track_status store_without_registry (txt "track-001")
       (txt "completed") = Raise FileNotFoundError
  /\ update_track_status store_without_registry (txt "track-001")
       (txt "completed") <> Ok store_without_registry.
Proof. repeat split; try reflexivity. discriminate. Qed.

(** With the registry file present the silent no-op holds: when parsing
    it finds no track with the given id, [update_track_status] returns
    normally and the store, hence the registry document, is left as it
    was. *)
Theorem update_track_status_missing_id_noop :
  forall (st : Store) (content track_id new_status : text),
    tracks_file_of st = Some content ->
    get_track_by_id st track_id = None ->
    update_track_status st track_id new_status = Ok st.
Proof.
  intros st content track_id new_status Hf Hid.
  unfold update_track_status. now rewrite Hf, Hid.
Qed.

Lemma update_track_status_missing_id_noop_witness :
  update_track_status sample_store (txt "track-009") (txt "completed")
  = Ok sample_store.
Proof.
  apply (@update_track_status_missing_id_noop sample_store sample_registry).
  - reflexivity.
  - vm_compute. reflexivity.
Defined.

(** ** The first track that is not completed *)

Lemma find_none_iff (A : Type) (f : A -> bool) (l : list A) :
  find f l = None <-> Forall (fun x => f x = false) l.
Proof.
  induction l as [|x l IH]; simpl.
  - split; [constructor | reflexivity].
  - destruct (f x) eqn:E.
    + split; [discriminate|]. intros H. inversion H; congruence.
    + rewrite IH. split; [now constructor | intros H; now inversion H].
Qed.

Lemma find_some_iff (A : Type) (f : A -> bool) (l : list A) (x : A) :
  find f l = Some x <->
  exists l1 l2, l = l1 ++ x :: l2
                /\ Forall (fun y => f y = false) l1 /\ f x = true.
Proof.
  induction l as [|y l IH]; simpl.
  - split; [discriminate|]. intros (l1 & l2 & H & _). now destruct l1.
  - destruct (f y) eqn:E.
    + split.
      * intros [= ->]. now exists [], l.
      * intros (l1 & l2 & H & Hall & Hx). destruct l1 as [|z l1].
        -- simpl in H. congruence.
        -- simpl in H. injection H as -> _. inversion Hall; congruence.
    + rewrite IH. split.
      * intros (l1 & l2 & -> & Hall & Hx). exists (y :: l1), l2.
        repeat split; auto.
      * intros (l1 & l2 & H & Hall & Hx). destruct l1 as [|z l1].
        -- simpl in H. injection H as -> _. congruence.
        -- simpl in H. injection H as -> ->. exists l1, l2.
           repeat split; auto. now inversion Hall.
Qed.

Lemma not_completed_iff (s : Status) :
  negb (Status_eqb s Completed) = false <-> s = Completed.
Proof. destruct s; simpl; split; congruence. Qed.

Lemma not_completed_true_iff (s : Status) :
  negb (Status_eqb s Completed) = true <-> s <> Completed.
Proof. destruct s; simpl; split; congruence. Qed.

(** C6: [get_next_pending_track] returns the first parsed track, in
    document order, whose status is not completed, and [None] exactly when
    every parsed track is completed (in particular when there is none);
    on [completed, pending, in_progress] it returns the pending track. *)
Theorem get_next_pending_track_first_incomplete :
  forall (st : Store),
    (get_next_pending_track st = None <->
       Forall (fun t => tr_status t = Completed) (parse_tracks st))
    /\ (forall t,
          get_next_pending_track st = Some t <->
          exists before after,
            parse_tracks st = before ++ t :: after
            /\ Forall (fun u => tr_status u = Completed) before
            /\ tr_status t <> Completed)
    /\ map tr_status (parse_tracks sample_store)
       = [Completed; Pending; InProgress]
    /\ get_next_pending_track sample_store
       = Some (mkTrack (txt "track-002") (txt "Signup") Pending
                 (txt "conductor/tracks/track-002")).
Proof.
  intros st. unfold get_next_pending_track. split; [|split; [|split]].
  - rewrite find_none_iff. split; intros H; eapply Forall_impl; try exact H;
      intros t; apply not_completed_iff.
  - intros t. rewrite find_some_iff.
    split; intros (l1 & l2 & Hp & Hall & Ht); exists l1, l2;
      (split; [exact Hp|]); split.
    + eapply Forall_impl; [|exact Hall]. intros u; apply not_completed_iff.
    + now apply not_completed_true_iff.
    + eapply Forall_impl; [|exact Hall]. intros u; apply not_completed_iff.
    + now apply not_completed_true_iff.
  - reflexivity.
  - reflexivity.
Qed.

(** ** The matcher finds a match exactly when there is one *)

Section Matcher.

Variable c : ascii -> bool.
Variable k : text -> option mres.

Lemma rep_sound (s g : text) (r : mres) :
  rep c k s = Some (g, r) ->
  exists s', s = g ++ s' /\ Forall (fun a => c a = true) g /\ k s' = Some r.
Proof.
  revert g r. induction s as [|a s IH]; intros g r; simpl.
  - destruct (k []) eqn:E; simpl; [|discriminate].
    intros [= <- <-]. now exists [].
  - destruct (c a) eqn:Ca.
    + destruct (rep c k s) as [[g' r']|] eqn:E.
      * intros [= <- <-]. destruct (IH _ _ eq_refl) as (s' & -> & Hg & Hk).
        exists s'. repeat split; auto.
      * destruct (k (a :: s)) eqn:E'; simpl; [|discriminate].
        intros [= <- <-]. now exists (a :: s).
    + destruct (k (a :: s)) eqn:E'; simpl; [|discriminate].
      intros [= <- <-]. now exists (a :: s).
Qed.

Lemma rep_of_k (s : text) (r : mres) :
  k s = Some r -> exists x, rep c k s = Some x.
Proof.
  intros Hk. destruct s as [|a s]; simpl.
  - rewrite Hk. simpl. eauto.
  - destruct (c a); [destruct (rep c k s) as [[g' r']|]|];
      try rewrite Hk; simpl; eauto.
Qed.

Lemma rep_complete (g s : text) (r : mres) :
  Forall (fun a => c a = true) g -> k s = Some r ->
  exists x, rep c k (g ++ s) = Some x.
Proof.
  intros Hg Hk. induction Hg as [|a g Ha Hg IH]; simpl.
  - eapply rep_of_k; eauto.
  - rewrite Ha. destruct IH as [[g' r'] ->]. eauto.
Qed.

(** A greedy repetition that meets a character outside its class, or
    the end of the string, hands over to the rest of the pattern. *)
Lemma rep_stop (s : text) :
  match s with [] => True | a :: _ => c a = false end ->
  rep c k s = option_map (pair []) (k s).
Proof. destruct s as [|a s]; simpl; [reflexivity|]. now intros ->. Qed.

(** It keeps all the characters it could take when the rest of the
    pattern matches after them. *)
Lemma rep_app (g s g' : text) (r : mres) :
  Forall (fun a => c a = true) g ->
  rep c k s = Some (g', r) ->
  rep c k (g ++ s) = Some (g ++ g', r).
Proof.
  intros Hg Hs. induction Hg as [|a g Ha Hg IH]; simpl; [exact Hs|].
  now rewrite Ha, IH.
Qed.

(** It fails when the rest of the pattern fails after every number of
    characters it can take. *)
Lemma rep_none (g s : text) :
  Forall (fun a => c a = true) g ->
  rep c k s = None ->
  (forall g1 g2, g = g1 ++ g2 -> g2 <> [] -> k (g2 ++ s) = None) ->
  rep c k (g ++ s) = None.
Proof.
  intros Hg Hs. induction Hg as [|a g Ha Hg IH]; intros Hk; simpl.
  - exact Hs.
  - rewrite Ha, IH.
    + assert (H0 : k (a :: g ++ s) = None)
        by (apply (Hk [] (a :: g)); [reflexivity|discriminate]).
      now rewrite H0.
    + intros g1 g2 -> Hne. apply (Hk (a :: g1) g2); auto.
Qed.

End Matcher.

Lemma match_here_sound (p : regex) (s : text) (gs : list text) (r : text) :
  match_here p s = Some (gs, r) -> exists m, s = m ++ r /\ Matches p m.
Proof.
  revert s gs r. induction p as [|[c q b] p IH]; intros s gs r; simpl.
  - intros [= <- <-]. exists []. split; [reflexivity|constructor].
  - destruct q.
    + destruct s as [|a s]; [discriminate|].
      destruct (c a) eqn:Ca; [|discriminate].
      destruct (match_here p s) as [[gs' r']|] eqn:E; [|discriminate].
      intros [= <- <-]. destruct (IH _ _ _ E) as (m & -> & Hm).
      exists (a :: m). split; [reflexivity|now constructor].
    + destruct (rep c (match_here p) s) as [[g [gs' r']]|] eqn:E;
        [|discriminate].
      intros [= <- <-]. destruct (rep_sound _ _ _ E) as (s' & -> & Hg & Hk).
      destruct (IH _ _ _ Hk) as (m & -> & Hm).
      exists (g ++ m). split; [now rewrite app_assoc|now constructor].
    + destruct s as [|a s]; [discriminate|].
      destruct (c a) eqn:Ca; [|discriminate].
      destruct (rep c (match_here p) s) as [[g [gs' r']]|] eqn:E;
        [|discriminate].
      intros [= <- <-]. destruct (rep_sound _ _ _ E) as (s' & -> & Hg & Hk).
      destruct (IH _ _ _ Hk) as (m & -> & Hm).
      exists (a :: g ++ m). split; [simpl; now rewrite app_assoc|].
      now constructor.
Qed.

Lemma match_here_complete (p : regex) (m : text) :
  Matches p m -> forall r, exists x, match_here p (m ++ r) = Some x.
Proof.
  induction 1 as [|c b p a m Ca Hm IH|c b p g m Hg Hm IH
                 |c b p a g m Ca Hg Hm IH]; intros r; simpl.
  - eauto.
  - rewrite Ca. destruct (IH r) as [[gs r'] ->]. eauto.
  - rewrite <- app_assoc. destruct (IH r) as [x Hx].
    destruct (rep_complete c (match_here p) (m ++ r) Hg Hx)
      as [[g' [gs r']] ->]. eauto.
  - rewrite Ca, <- app_assoc. destruct (IH r) as [x Hx].
    destruct (rep_complete c (match_here p) (m ++ r) Hg Hx)
      as [[g' [gs r']] ->]. eauto.
Qed.

Lemma search_none_iff (p : regex) (s : text) :
  search p s = None <->
  forall s1 s2, s = s1 ++ s2 -> match_here p s2 = None.
Proof.
  induction s as [|a s IH]; simpl.
  - destruct (match_here p []) eqn:E.
    + split; [discriminate|]. intros H. rewrite (H [] []) in E; auto.
    + split; [|reflexivity]. intros _ s1 s2 H.
      symmetry in H. apply app_eq_nil in H as [-> ->]. exact E.
  - destruct (match_here p (a :: s)) eqn:E.
    + split; [discriminate|]. intros H.
      rewrite (H [] (a :: s)) in E; auto.
    + rewrite IH. split.
      * intros H [|b s1] s2 Heq; simpl in Heq.
        -- now subst.
        -- injection Heq as -> ->. eapply H; eauto.
      * intros H s1 s2 ->. apply (H (a :: s1) s2). reflexivity.
Qed.

(** [re.search] succeeds exactly on the strings that contain a match. *)
Lemma search_some_iff (p : regex) (s : text) :
  search p s <> None <-> contains_match p s.
Proof.
  split.
  - intros H. destruct (search p s) as [x|] eqn:E; [clear H|congruence].
    revert E. induction s as [|a s IH]; simpl.
    + destruct (match_here p []) as [[gs r]|] eqn:E'; [|discriminate].
      intros _. destruct (match_here_sound _ _ E') as (m & Hs & Hm).
      exists [], m, r. now split.
    + destruct (match_here p (a :: s)) as [[gs r]|] eqn:E'.
      * intros _. destruct (match_here_sound _ _ E') as (m & Hs & Hm).
        exists [], m, r. now split.
      * intros E. destruct (IH E) as (pre & m & post & -> & Hm).
        exists (a :: pre), m, post. now split.
  - intros (pre & m & post & -> & Hm) H.
    rewrite search_none_iff in H. specialize (H pre (m ++ post) eq_refl).
    destruct (match_here_complete Hm post) as [x Hx]. congruence.
Qed.

(** ** Decimal numbers *)

Lemma digit_val_char (d : nat) : d < 10 -> digit_val (digit_char d) = d.
Proof.
  intros H. unfold digit_val, digit_char.
  rewrite nat_ascii_embedding by lia. lia.
Qed.

Lemma is_digit_char (d : nat) : d < 10 -> is_digit (digit_char d) = true.
Proof.
  intros H. do 10 (destruct d as [|d]; [reflexivity|]). lia.
Qed.

Lemma digits_fuel_acc (f n : nat) (acc : text) :
  digits_fuel f n acc = digits_fuel f n [] ++ acc.
Proof.
  revert n acc. induction f as [|f IH]; intros n acc; simpl; [reflexivity|].
  destruct (n <? 10); [reflexivity|].
  rewrite IH, (IH _ [_]), <- app_assoc. reflexivity.
Qed.

Lemma int_app (s1 s2 : text) (a : nat) :
  int_acc a (s1 ++ s2) = int_acc (int_acc a s1) s2.
Proof. apply fold_left_app. Qed.

Lemma int_digits_fuel (f n : nat) :
  n < f -> int (digits_fuel f n []) = n.
Proof.
  revert n. induction f as [|f IH]; intros n Hn; [lia|].
  cbn [digits_fuel]. destruct (n <? 10) eqn:E.
  - apply Nat.ltb_lt in E. unfold int, int_acc. cbn [fold_left].
    rewrite Nat.mod_small by lia. rewrite digit_val_char; lia.
  - apply Nat.ltb_ge in E. rewrite digits_fuel_acc. unfold int.
    rewrite int_app. fold (int (digits_fuel f (n / 10) [])).
    assert (Hd : n / 10 < f).
    { assert (n / 10 < n) by (apply Nat.div_lt; lia). lia. }
    rewrite (IH _ Hd). unfold int_acc. cbn [fold_left].
    rewrite digit_val_char by (apply Nat.mod_upper_bound; lia).
    pose proof (Nat.div_mod_eq n 10). lia.
Qed.

Lemma digits_fuel_digits (f n : nat) (acc : text) :
  forallb is_digit acc = true ->
  forallb is_digit (digits_fuel f n acc) = true.
Proof.
  revert n acc. induction f as [|f IH]; intros n acc Hacc;
    cbn [digits_fuel]; [exact Hacc|].
  assert (Hd : forallb is_digit (digit_char (n mod 10) :: acc) = true).
  { cbn [forallb]. rewrite Hacc, is_digit_char; [reflexivity|].
    apply Nat.mod_upper_bound; lia. }
  destruct (n <? 10); [exact Hd|]. now apply IH.
Qed.

Lemma str_of_nat_nonempty (n : nat) : str_of_nat n <> [].
Proof.
  unfold str_of_nat. cbn [digits_fuel]. destruct (n <? 10); [discriminate|].
  rewrite digits_fuel_acc. intros H. apply app_eq_nil in H as [_ H].
  discriminate.
Qed.

Lemma int_zeros (k : nat) (s : text) :
  int (repeat "0"%char k ++ s) = int s.
Proof.
  unfold int. rewrite int_app. f_equal.
  induction k as [|k IH]; simpl; [reflexivity|]. exact IH.
Qed.

(** [fmt03 n] is a decimal numeral of [n] of at least three digits. *)
Lemma fmt03_spec (n : nat) :
  int (fmt03 n) = n
  /\ forallb is_digit (fmt03 n) = true
  /\ 3 <= length (fmt03 n)
  /\ (100 <= n -> fmt03 n = str_of_nat n).
Proof.
  unfold fmt03. repeat split.
  - rewrite int_zeros. apply int_digits_fuel. lia.
  - rewrite forallb_app. apply andb_true_iff. split.
    + induction (3 - length (str_of_nat n)); cbn [repeat forallb]; auto.
    + now apply digits_fuel_digits.
  - rewrite length_app, repeat_length. lia.
  - intros H. assert (Hl : 3 <= length (str_of_nat n)).
    { unfold str_of_nat. cbn [digits_fuel].
      destruct (n <? 10) eqn:E1; [apply Nat.ltb_lt in E1; lia|].
      destruct n as [|n]; [lia|]. cbn [digits_fuel].
      destruct (S n / 10 <? 10) eqn:E2.
      - apply Nat.ltb_lt in E2.
        pose proof (Nat.div_mod_eq (S n) 10).
        pose proof (Nat.mod_upper_bound (S n) 10). lia.
      - destruct n as [|n]; [lia|]. cbn [digits_fuel].
        destruct (S (S n) / 10 / 10 <? 10); [cbn [length]; lia|].
        rewrite digits_fuel_acc, length_app. cbn [length]. lia. }
    replace (3 - length (str_of_nat n)) with 0 by lia. reflexivity.
Qed.

(** ** Literals and repetitions, step by step *)

Lemma match_here_lit_cons (a x : ascii) (p : regex) (s : text) :
  match_here (Item (Ascii.eqb a) One false :: p) (x :: s)
  = if Ascii.eqb a x then match_here p s else None.
Proof.
  simpl. destruct (Ascii.eqb a x); [|reflexivity].
  now destruct (match_here p s) as [[gs r]|].
Qed.

Lemma match_here_lit_nil (a : ascii) (p : regex) :
  match_here (Item (Ascii.eqb a) One false :: p) [] = None.
Proof. reflexivity. Qed.

Lemma match_here_lit_app (l : text) (p : regex) (s : text) :
  match_here (lit l ++ p) (l ++ s) = match_here p s.
Proof.
  induction l as [|a l IH]; [reflexivity|].
  cbn [lit map app]. rewrite match_here_lit_cons, Ascii.eqb_refl. exact IH.
Qed.

Lemma match_here_lit_fail (l : text) (p : regex) (s : text) :
  prefixb l s = false -> match_here (lit l ++ p) s = None.
Proof.
  revert s. induction l as [|a l IH]; intros s; [discriminate|].
  destruct s as [|x s]; [reflexivity|].
  cbn [lit map app prefixb]. rewrite match_here_lit_cons.
  destruct (Ascii.eqb a x); [apply IH|reflexivity].
Qed.

Lemma prefixb_app (l s : text) : prefixb l (l ++ s) = true.
Proof.
  induction l as [|a l IH]; [reflexivity|].
  simpl. now rewrite Ascii.eqb_refl.
Qed.

Lemma prefixb_true (l s : text) :
  prefixb l s = true -> exists r, s = l ++ r.
Proof.
  revert s. induction l as [|a l IH]; intros s; simpl.
  - intros _. now exists s.
  - destruct s as [|x s]; [discriminate|].
    intros H. apply andb_true_iff in H as [Hx Hl].
    apply Ascii.eqb_eq in Hx as ->. destruct (IH _ Hl) as [r ->].
    now exists r.
Qed.

Lemma match_here_lit (l : text) (p : regex) (s : text) :
  match_here (lit l ++ p) s
  = if prefixb l s then match_here p (skipn (length l) s) else None.
Proof.
  destruct (prefixb l s) eqn:E.
  - destruct (prefixb_true _ _ E) as [r ->].
    rewrite match_here_lit_app, skipn_app, skipn_all, Nat.sub_diag.
    reflexivity.
  - now apply match_here_lit_fail.
Qed.

(** A captured [+] at the end of the pattern takes the longest run. *)
Lemma match_here_plus_end (c : ascii -> bool) (a : ascii) (g s : text) :
  c a = true -> Forall (fun x => c x = true) g ->
  match s with [] => True | x :: _ => c x = false end ->
  match_here [Item c Plus true] (a :: g ++ s) = Some ([a :: g], s).
Proof.
  intros Ha Hg Hs. cbn [match_here]. rewrite Ha.
  erewrite rep_app with (g' := []) (r := ([], s)).
  - now rewrite app_nil_r.
  - exact Hg.
  - rewrite rep_stop; [reflexivity|exact Hs].
Qed.

Lemma search_here (p : regex) (s : text) (r : mres) :
  match_here p s = Some r -> search p s = Some r.
Proof. intros H. destruct s; simpl; now rewrite H. Qed.

Lemma search_skip (p : regex) (a s : text) :
  (forall a1 a2, a = a1 ++ a2 -> a2 <> [] -> match_here p (a2 ++ s) = None) ->
  search p (a ++ s) = search p s.
Proof.
  induction a as [|x a IH]; intros H; [reflexivity|].
  cbn [app search].
  assert (H0 : match_here p (x :: a ++ s) = None)
    by (apply (H [] (x :: a)); [reflexivity|discriminate]).
  rewrite H0. apply IH. intros a1 a2 -> Hne. apply (H (x :: a1) a2); auto.
Qed.

Lemma search_some_match (p : regex) (s : text) (x : mres) :
  search p s = Some x ->
  exists s1 s2, s = s1 ++ s2 /\ match_here p s2 = Some x.
Proof.
  induction s as [|a s IH]; simpl.
  - destruct (match_here p []) eqn:E; [|discriminate].
    intros [= <-]. now exists [], [].
  - destruct (match_here p (a :: s)) eqn:E.
    + intros [= <-]. now exists [], (a :: s).
    + intros H. destruct (IH H) as (s1 & s2 & -> & Hm).
      now exists (a :: s1), s2.
Qed.

Lemma forallb_Forall (c : ascii -> bool) (l : text) :
  forallb c l = true -> Forall (fun x => c x = true) l.
Proof. intros H. apply Forall_forall. now apply forallb_forall. Qed.

(** ** The next track id *)

Lemma track_number_of_id (ds : text) :
  ds <> [] -> forallb is_digit ds = true ->
  track_number (txt "track-" ++ ds) = Some (int ds).
Proof.
  intros Hne Hd. destruct ds as [|a ds]; [congruence|].
  cbn [forallb] in Hd. apply andb_true_iff in Hd as [Ha Hds].
  unfold track_number, track_number_re.
  rewrite (@search_here _ _ ([a :: ds], [])); [reflexivity|].
  rewrite match_here_lit_app.
  rewrite <- (app_nil_r ds) at 1.
  apply match_here_plus_end; auto using forallb_Forall.
Qed.

Lemma track_number_fmt03 (n : nat) :
  track_number (txt "track-" ++ fmt03 n) = Some n.
Proof.
  destruct (fmt03_spec n) as (Hi & Hd & Hl & _).
  rewrite track_number_of_id; [now rewrite Hi| |exact Hd].
  intros E. rewrite E in Hl. simpl in Hl. lia.
Qed.

Lemma in_track_numbers (n : nat) (names : list text) :
  In n (track_numbers names) <->
  exists name, In name names /\ track_number name = Some n.
Proof.
  unfold track_numbers. rewrite in_flat_map. split.
  - intros (name & Hin & Hn). exists name. split; [exact Hin|].
    destruct (track_number name) as [m|]; simpl in Hn; [|contradiction].
    destruct Hn as [->|[]]. reflexivity.
  - intros (name & Hin & Hn). exists name. split; [exact Hin|].
    rewrite Hn. now left.
Qed.

Lemma in_dir_names (name : text) (es : list (text * node)) :
  In name (map fst (filter is_dir es)) <-> exists d, In (name, Dir d) es.
Proof.
  rewrite in_map_iff. split.
  - intros ([n x] & <- & Hin). apply filter_In in Hin as [Hin Hd].
    destruct x as [|d]; [discriminate|]. now exists d.
  - intros [d Hin]. exists (name, Dir d). split; [reflexivity|].
    apply filter_In. now split.
Qed.


Lemma list_max_ge (l : list nat) (n : nat) : In n l -> n <= list_max l.
Proof.
  intros H. pose proof (proj1 (list_max_le l (list_max l)) (Nat.le_refl _)).
  rewrite Forall_forall in H0. now apply H0.
Qed.



(** Which names carry a number: those that contain [track-] followed by
    at least one decimal digit. *)
Lemma matches_lit_inv (l : text) (p : regex) (m : text) :
  Matches (lit l ++ p) m -> exists m', m = l ++ m' /\ Matches p m'.
Proof.
  revert m. induction l as [|a l IH]; intros m H.
  - now exists m.
  - cbn [lit map app] in H. inversion H as [|c b p0 x m0 Hx Hm| |]; subst.
    apply Ascii.eqb_eq in Hx as <-. destruct (IH _ Hm) as (m' & -> & Hm').
    now exists m'.
Qed.

Lemma matches_lit_app (l : text) (p : regex) (m : text) :
  Matches p m -> Matches (lit l ++ p) (l ++ m).
Proof.
  intros H. induction l as [|a l IH]; [exact H|].
  cbn [lit map app]. constructor; [apply Ascii.eqb_refl|exact IH].
Qed.

Lemma track_number_some_iff (name : text) :
  track_number name <> None <->
  exists pre ds post,
    name = pre ++ txt "track-" ++ ds ++ post
    /\ ds <> [] /\ Forall (fun a => is_digit a = true) ds.
Proof.
  assert (Hs : track_number name <> None
               <-> search track_number_re name <> None).
  { unfold track_number.
    destruct (search track_number_re name) as [[gs r]|] eqn:E;
      [|tauto].
    split; [discriminate|]. intros _.
    destruct (search_some_match _ _ E) as (s0 & s & _ & Hm).
    unfold track_number_re in Hm.
    rewrite match_here_lit in Hm. destruct (prefixb _ s); [|discriminate].
    cbn [match_here] in Hm.
    destruct (skipn _ s) as [|a s']; [discriminate|].
    destruct (is_digit a); [|discriminate].
    destruct (rep _ _ s') as [[g [gs' r']]|]; [|discriminate].
    injection Hm as <- _. discriminate. }
  rewrite Hs, search_some_iff. unfold contains_match, track_number_re.
  split.
  - intros (pre & m & post & -> & Hm).
    apply matches_lit_inv in Hm as (m' & -> & Hm').
    inversion Hm' as [| | |c b p a g m0 Ha Hg Hnil]; subst.
    inversion Hnil; subst.
    exists pre, (a :: g), post. rewrite app_nil_r.
    split; [now rewrite <- !app_assoc|]. split; [discriminate|].
    now constructor.
  - intros (pre & ds & post & -> & Hne & Hd).
    exists pre, (txt "track-" ++ ds), post.
    split; [now rewrite <- !app_assoc|].
    apply matches_lit_app. destruct ds as [|a g]; [congruence|].
    inversion Hd; subst. rewrite <- (app_nil_r g).
    constructor; auto. constructor.
Qed.

(** ** Single steps of the matcher *)

Lemma match_here_one (c : ascii -> bool) (p : regex) (x : ascii) (s : text) :
  match_here (Item c One false :: p) (x :: s)
  = if c x then match_here p s else None.
Proof.
  simpl. destruct (c x); [|reflexivity].
  now destruct (match_here p s) as [[gs r]|].
Qed.

Lemma match_here_one_cap (c : ascii -> bool) (p : regex) (x : ascii)
  (s : text) :
  match_here (Item c One true :: p) (x :: s)
  = if c x then
      match match_here p s with
      | Some (gs, r) => Some ([x] :: gs, r)
      | None => None
      end
    else None.
Proof. reflexivity. Qed.

(** [\s*] before a literal character that is not in the class: the
    repetition takes the whole run and never has to give anything back. *)
Lemma match_here_star_lit (c : ascii -> bool) (x : ascii) (p : regex)
  (ws s : text) :
  Forall (fun a => c a = true) ws -> c x = false ->
  match s with [] => True | y :: _ => c y = false end ->
  match_here (Item c Star false :: Item (Ascii.eqb x) One false :: p)
    (ws ++ s)
  = match_here (Item (Ascii.eqb x) One false :: p) s.
Proof.
  intros Hws Hx Hs. set (k := match_here (Item (Ascii.eqb x) One false :: p)).
  change (match_here (Item c Star false :: Item (Ascii.eqb x) One false :: p)
            (ws ++ s))
    with (match rep c k (ws ++ s) with
          | Some (g, (gs, r)) => Some (keep false g gs, r)
          | None => None
          end).
  destruct (k s) as [[gs r]|] eqn:E.
  - rewrite (@rep_app c k ws s [] (gs, r) Hws); [reflexivity|].
    rewrite rep_stop by exact Hs. now rewrite E.
  - rewrite rep_none; auto.
    + rewrite rep_stop by exact Hs. now rewrite E.
    + intros g1 [|w g2] -> Hne; [congruence|].
      apply Forall_app in Hws as [_ Hw]. inversion Hw; subst.
      unfold k. cbn [app]. rewrite match_here_lit_cons.
      destruct (Ascii.eqb x w) eqn:Exw; [|reflexivity].
      apply Ascii.eqb_eq in Exw. congruence.
Qed.

Lemma match_here_star_lit_1 (c : ascii -> bool) (x w : ascii) (p : regex)
  (s : text) :
  c w = true -> c x = false ->
  match_here (Item c Star false :: Item (Ascii.eqb x) One false :: p)
    (w :: x :: s)
  = match_here p s.
Proof.
  intros Hw Hx.
  change (w :: x :: s) with ([w] ++ x :: s).
  rewrite match_here_star_lit; auto.
  now rewrite match_here_lit_cons, Ascii.eqb_refl.
Qed.

Lemma match_here_star_lit_0 (c : ascii -> bool) (x : ascii) (p : regex)
  (s : text) :
  c x = false ->
  match_here (Item c Star false :: Item (Ascii.eqb x) One false :: p)
    (x :: s)
  = match_here p s.
Proof.
  intros Hx.
  change (x :: s) with ([] ++ x :: s) at 1.
  rewrite match_here_star_lit; auto.
  now rewrite match_here_lit_cons, Ascii.eqb_refl.
Qed.

(** ** Whitespace stripping *)

Lemma lstrip_split (t : text) :
  exists ws, t = ws ++ lstrip t
             /\ Forall (fun a => is_space a = true) ws
             /\ match lstrip t with
                | [] => True
                | y :: _ => is_space y = false
                end.
Proof.
  induction t as [|a t IH]; simpl.
  - exists []. repeat split; constructor.
  - destruct (is_space a) eqn:E.
    + destruct IH as (ws & Ht & Hws & Hl). exists (a :: ws).
      repeat split; auto. simpl. now f_equal.
    + exists []. repeat split; auto.
Qed.

Lemma lstrip_nonspace (t : text) :
  match t with [] => True | y :: _ => is_space y = false end ->
  lstrip t = t.
Proof. destruct t as [|y t]; simpl; [reflexivity|]. now intros ->. Qed.

Lemma lstrip_app_spaces (ws t : text) :
  Forall (fun a => is_space a = true) ws -> lstrip (ws ++ t) = lstrip t.
Proof.
  induction 1 as [|a ws Ha Hws IH]; simpl; [reflexivity|]. now rewrite Ha.
Qed.

Lemma lstrip_spaces (ws : text) :
  Forall (fun a => is_space a = true) ws -> lstrip ws = [].
Proof.
  intros H. rewrite <- (app_nil_r ws). now rewrite lstrip_app_spaces.
Qed.

Lemma strip_app_spaces (ws t : text) :
  Forall (fun a => is_space a = true) ws -> strip (ws ++ t) = strip t.
Proof. intros H. unfold strip. now rewrite lstrip_app_spaces. Qed.

Lemma strip_spaces (ws : text) :
  Forall (fun a => is_space a = true) ws -> strip ws = [].
Proof. intros H. unfold strip. now rewrite lstrip_spaces. Qed.

(** [\s*(.+)] at the end of a pattern, on the rest of a line: the group
    is the rest of the line after its leading whitespace, or its last
    character when the rest is whitespace only; stripped, it is the
    stripped rest of the line. *)
Lemma match_here_tail (t : text) :
  t <> [] -> forallb is_dot t = true ->
  exists g, match_here [ws_star; Item is_dot Plus true] t = Some ([g], [])
            /\ strip g = strip t.
Proof.
  intros Hne Hdot.
  set (k := match_here [Item is_dot Plus true]).
  assert (Hmh : forall s, match_here [ws_star; Item is_dot Plus true] s
                = match rep is_space k s with
                  | Some (g, (gs, r)) => Some (gs, r)
                  | None => None
                  end) by reflexivity.
  rewrite Hmh. clear Hmh.
  destruct (lstrip_split t) as (ws & Ht & Hws & Hl).
  destruct (lstrip t) as [|y rest] eqn:El.
  - (* whitespace only: the last character is given back *)
    rewrite app_nil_r in Ht. subst ws.
    destruct (exists_last Hne) as (ws' & z & ->).
    apply Forall_app in Hws as [Hws' Hz]. inversion Hz as [|? ? Hz' _]; subst.
    rewrite forallb_app in Hdot. apply andb_true_iff in Hdot as [_ Hdz].
    cbn [forallb] in Hdz. rewrite andb_true_r in Hdz.
    exists [z]. split.
    + rewrite (@rep_app is_space k ws' [z] [] ([[z]], []) Hws');
        [reflexivity|].
      cbn [rep]. rewrite Hz'. unfold k. cbn [match_here option_map].
      rewrite Hdz. reflexivity.
    + rewrite (strip_spaces (ws:=[z])) by (constructor; auto).
      rewrite strip_spaces; [reflexivity|].
      apply Forall_app. split; auto.
  - rewrite Ht in Hdot. rewrite forallb_app in Hdot.
    apply andb_true_iff in Hdot as [_ Hdr]. cbn [forallb] in Hdr.
    apply andb_true_iff in Hdr as [Hdy Hdrest].
    exists (y :: rest). split.
    + rewrite Ht.
      rewrite (@rep_app is_space k ws (y :: rest) [] ([y :: rest], []) Hws);
        [reflexivity|].
      rewrite rep_stop by exact Hl. unfold k.
      rewrite <- (app_nil_r rest) at 1.
      rewrite match_here_plus_end; auto using forallb_Forall.
    + rewrite Ht. now rewrite strip_app_spaces.
Qed.

(** ** Subtask lines of a plan *)

Lemma is_dot_newline (a : ascii) : is_dot a = negb (Ascii.eqb newline a).
Proof. unfold is_dot. now rewrite Ascii.eqb_sym. Qed.

Lemma forallb_rev (c : ascii -> bool) (l : text) :
  forallb c (rev l) = forallb c l.
Proof.
  induction l as [|a l IH]; [reflexivity|].
  cbn [rev forallb]. rewrite forallb_app, IH. cbn [forallb].
  rewrite andb_true_r. apply andb_comm.
Qed.

Lemma split_newline_lines (s cur : text) :
  forallb is_dot cur = true ->
  Forall (fun l => forallb is_dot l = true) (split_go [newline] 0 cur s).
Proof.
  revert cur. induction s as [|a s IH]; intros cur Hcur; cbn [split_go].
  - constructor; [|constructor]. rewrite forallb_rev. exact Hcur.
  - cbn [prefixb length Nat.sub]. rewrite andb_true_r.
    destruct (Ascii.eqb newline a) eqn:E.
    + constructor; [now rewrite forallb_rev|]. now apply IH.
    + apply IH. cbn [forallb]. now rewrite is_dot_newline, E.
Qed.

Lemma subtask_line_match (m : ascii) (desc : text) :
  is_marker m = true -> forallb is_dot desc = true ->
  exists g, match_here subtask_re (subtask_line m desc) = Some ([[m]; g], [])
            /\ strip g = strip desc.
Proof.
  intros Hm Hd.
  destruct (@match_here_tail (" "%char :: desc)) as (g & Hg & Hs);
    [discriminate|cbn [forallb]; now rewrite Hd|].
  exists g. split.
  - unfold subtask_re, subtask_line, ws_one.
    cbn [txt list_ascii_of_string app lit map].
    rewrite !match_here_one.
    replace (is_space " ") with true by reflexivity.
    rewrite Ascii.eqb_refl. unfold ws_star at 1.
    rewrite match_here_star_lit_1 by reflexivity.
    rewrite match_here_one_cap, Hm.
    rewrite match_here_lit_cons, Ascii.eqb_refl.
    now rewrite Hg.
  - rewrite Hs. apply (@strip_app_spaces [" "%char]). repeat constructor.
Qed.

Lemma subtask_line_not_phase (m : ascii) (desc : text) :
  prefixb (txt "## ") (subtask_line m desc) = false.
Proof. reflexivity. Qed.

Lemma subtask_line_not_task (m : ascii) (desc : text) :
  match_here task_re (subtask_line m desc) = None.
Proof. reflexivity. Qed.

Lemma append_subtask_last (ts : list Task) (t : Task) (s : Subtask) :
  append_subtask (ts ++ [t]) s
  = ts ++ [mkTask (tk_phase t) (tk_task t) (tk_status t)
             (tk_subtasks t ++ [s])].
Proof.
  induction ts as [|u ts IH]; [reflexivity|].
  cbn [app append_subtask]. rewrite IH.
  destruct (ts ++ [t]) eqn:E; [|reflexivity].
  now apply app_eq_nil in E as [_ E].
Qed.

(** What the loop of [parse_plan] does on a subtask line. *)
Lemma plan_step_subtask_line (m : ascii) (desc : text) (tasks : list Task)
  (phase : option text) :
  is_marker m = true -> forallb is_dot desc = true ->
  plan_step (tasks, phase) (subtask_line m desc)
  = match tasks with
    | [] => (tasks, phase)
    | _ :: _ =>
        (append_subtask tasks
           (mkSubtask (strip desc) (status_of_marker [m])), phase)
    end.
Proof.
  intros Hm Hd. unfold plan_step.
  rewrite subtask_line_not_phase, subtask_line_not_task.
  destruct (subtask_line_match m desc Hm Hd) as (g & -> & Hs).
  destruct tasks; [reflexivity|]. cbn [nth]. now rewrite Hs.
Qed.

(** C8: in [parse_plan], a line made of four spaces and
    [- [<marker>] <description>] (with or without a [Task:] prefix in the
    description) adds the subtask [{strip description, status of marker}]
    to the last task opened so far, and is dropped when no task has been
    opened yet. *)
Theorem parse_plan_subtask_line :
  forall (content : text) (before after : list text) (m : ascii)
         (desc : text),
    is_marker m = true ->
    split [newline] content = before ++ subtask_line m desc :: after ->
    let sub := mkSubtask (strip desc) (status_of_marker [m]) in
    let tasks := fst (plan_loop before ([], None)) in
    let phase := snd (plan_loop before ([], None)) in
    (tasks = [] ->
       parse_plan_text content = fst (plan_loop after ([], phase)))
    /\ (forall ts t,
          tasks = ts ++ [t] ->
          parse_plan_text content
          = fst (plan_loop after
                   (ts ++ [mkTask (tk_phase t) (tk_task t) (tk_status t)
                             (tk_subtasks t ++ [sub])], phase))).
Proof.
  intros content before after m desc Hm Hsplit sub tasks phase.
  assert (Hd : forallb is_dot desc = true).
  { pose proof (@split_newline_lines content [] eq_refl) as Hall.
    fold (split [newline] content) in Hall. rewrite Hsplit in Hall.
    apply Forall_app in Hall as [_ Hall]. inversion Hall as [|? ? Hl _].
    unfold subtask_line in Hl. rewrite !forallb_app in Hl.
    now repeat (apply andb_true_iff in Hl as [_ Hl]). }
  assert (Hloop : parse_plan_text content
                  = fst (plan_loop after
                           (plan_step (tasks, phase) (subtask_line m desc)))).
  { unfold parse_plan_text, plan_loop. rewrite Hsplit, fold_left_app.
    cbn [fold_left]. unfold tasks, phase, plan_loop.
    now destruct (fold_left plan_step before ([], None)). }
  rewrite plan_step_subtask_line in Hloop by assumption.
  split.
  - intros E. now rewrite E in Hloop.
  - intros ts t E. rewrite E in Hloop. rewrite Hloop.
    destruct (ts ++ [t]) eqn:E'; [now apply app_eq_nil in E' as [_ E']|].
    now rewrite <- E', append_subtask_last.
Qed.

Lemma parse_plan_subtask_line_witness :
  parse_plan_text sample_plan
  = [mkTask (Some (txt "Phase 1: Database Models")) (txt "Create User model")
       Completed [mkSubtask (txt "Write the migration") Pending]]
  /\ parse_plan_text (subtask_line " " (txt "Write the migration")) = [].
Proof.
  split.
  - destruct (@parse_plan_subtask_line sample_plan
                [txt "# Implementation Plan";
                 txt "## Phase 1: Database Models";
                 txt "- [x] Task: Create User model"]
                [[]] " "%char (txt "Write the migration")
                eq_refl eq_refl) as [_ H].
    rewrite (H [] (mkTask (Some (txt "Phase 1: Database Models"))
                     (txt "Create User model") Completed []));
      vm_compute; reflexivity.
  - destruct (@parse_plan_subtask_line
                (subtask_line " " (txt "Write the migration"))
                [] [] " "%char (txt "Write the migration")
                eq_refl eq_refl) as [H _].
    rewrite H; reflexivity.
Defined.

(** ** Blocks that parsing skips *)

(** C7, as stated, fails: the heading pattern is searched in the whole
    block and its [\s*] runs go across line breaks, so a block can yield a
    record although none of its lines matches the pattern. *)
Lemma block_without_heading_line_not_skipped :
  tl (split (txt "---") broken_heading_registry) = [broken_heading_block]
  /\ Forall (fun line => search heading_re line = None)
       (split [newline] broken_heading_block)
  /\ parse_tracks_text broken_heading_registry
     = [mkTrack (txt "track-001") (txt "Login") Pending
          (txt "conductor/tracks/track-001")].
Proof.
  split; [reflexivity|]. split; [|reflexivity].
  repeat constructor.
Qed.

Lemma parse_section_some (block : text) (t : Track) :
  In t (parse_section block) ->
  parse_section block = [t] /\ tr_id t <> []
  /\ search heading_re block <> None /\ search folder_re block <> None.
Proof.
  unfold parse_section.
  destruct (search heading_re block) as [[gs r]|]; [|intros []].
  destruct (search folder_re block) as [[[|g gs'] r']|]; try (intros []).
  destruct g as [|a g]; [intros []|].
  intros [<-|[]]. repeat split; discriminate.
Qed.

(** C7 (amended): the records of [parse_tracks] are the contributions of
    the blocks after the first separator, in order; a block in which the
    heading pattern has no match anywhere (its whitespace runs may span
    line breaks) contributes nothing, and so does a block without a match
    of the folder-link pattern; every record comes from a block that has
    both and carries a non-empty id. *)
Theorem parse_tracks_skips_blocks :
  forall (content : text),
    parse_tracks_text content
    = flat_map parse_section (tl (split (txt "---") content))
    /\ (forall block,
          ~ contains_match heading_re block -> parse_section block = [])
    /\ (forall block,
          ~ contains_match folder_re block -> parse_section block = [])
    /\ (forall t,
          In t (parse_tracks_text content) ->
          tr_id t <> []
          /\ exists block,
               In block (tl (split (txt "---") content))
               /\ parse_section block = [t]
               /\ contains_match heading_re block
               /\ contains_match folder_re block).
Proof.
  intros content. split; [reflexivity|]. split; [|split].
  - intros block H. rewrite <- search_some_iff in H.
    unfold parse_section.
    destruct (search heading_re block); [|reflexivity]. now destruct H.
  - intros block H. rewrite <- search_some_iff in H.
    unfold parse_section.
    destruct (search heading_re block) as [[gs r]|]; [|reflexivity].
    destruct (search folder_re block); [|reflexivity]. now destruct H.
  - intros t Hin. unfold parse_tracks_text in Hin.
    apply in_flat_map in Hin as (block & Hb & Ht).
    destruct (parse_section_some _ _ Ht) as (Hp & Hid & Hh & Hf).
    split; [exact Hid|]. exists block.
    repeat split; auto; now apply search_some_iff.
Qed.

(** ** Where the round trip and the idempotence fail *)

(** C1, as stated, fails for a description that contains the separator:
    the entry is cut in two sections, neither of which has both a heading
    and a folder link. *)
Lemma create_then_parse_loses_separator_description :
  exists st,
    create_tracks fresh_store
      [mkRequest (txt "2026-01-01T00:00:00") (txt "a---b") (txt "# spec")
         (txt "# plan")]
    = Ok (st, [txt "track-001"])
    /\ parse_tracks st = [].
Proof. eexists. split; vm_compute; reflexivity. Qed.

(** C2, as stated, fails: the first update rewrites a heading inside the
    description of another track, and that makes a new match for the
    second update. *)
Lemma update_twice_differs :
  exists content1 content2,
    map tr_id (parse_tracks (store_of_registry overlapping_registry))
    = [txt "track-001"; txt "track-002"]
    /\ update_track_status (store_of_registry overlapping_registry)
         (txt "track-002") (txt "completed")
       = Ok (store_of_registry content1)
    /\ update_track_status (store_of_registry content1)
         (txt "track-002") (txt "completed")
       = Ok (store_of_registry content2)
    /\ content1 <> content2.
Proof.
  eexists. eexists. split; [reflexivity|].
  split; [vm_compute; reflexivity|].
  split; [vm_compute; reflexivity|].
  vm_compute. discriminate.
Qed.

(** A backslash in the description is read as an escape by the
    replacement template of [re.sub]: the description changes at each
    update. *)
Example backslash_description_changes_at_each_update :
  let d := [ "a"%char; backslash; backslash; "b"%char ] in
  let st0 := store_of_registry (registry_of header_init [mkRow " " 1 d]) in
  update_track_status st0 (txt "track-001") (txt "completed")
  = Ok (store_of_registry
          (registry_of header_init
             [mkRow "x" 1 [ "a"%char; backslash; "b"%char ]]))
  /\ update_track_status
       (store_of_registry
          (registry_of header_init
             [mkRow "x" 1 [ "a"%char; backslash; "b"%char ]]))
       (txt "track-001") (txt "completed")
     = Ok (store_of_registry
             (registry_of header_init [mkRow "x" 1 [ "a"%char; "008"%char ]])).
Proof. split; vm_compute; reflexivity. Qed.

(** C3, as stated, fails: the substitution is made at every match, so
    the later heading with the same description is rewritten too (and so
    is a heading whose description merely starts with it). *)
Lemma update_rewrites_later_headings :
  map tr_status (parse_tracks (store_of_registry duplicate_registry))
  = [Pending; Pending; Pending]
  /\ update_track_status (store_of_registry duplicate_registry)
       (txt "track-001") (txt "completed")
     = Ok (store_of_registry
             (registry_of header_init
                [mkRow "x" 1 (txt "Login"); mkRow "x" 2 (txt "Login");
                 mkRow "x" 3 (txt "Login page")]))
  /\ registry_of header_init
       [mkRow "x" 1 (txt "Login"); mkRow "x" 2 (txt "Login");
        mkRow "x" 3 (txt "Login page")]
     <> registry_of header_init
          [mkRow "x" 1 (txt "Login"); mkRow " " 2 (txt "Login");
           mkRow " " 3 (txt "Login page")].
Proof.
  split; [reflexivity|]. split; [vm_compute; reflexivity|].
  vm_compute. discriminate.
Qed.

(** ** Segments in which a literal does not start *)

Lemma free_nil (l s : text) : free l [] s.
Proof. intros a1 a2 H Hne. symmetry in H. apply app_eq_nil in H. tauto. Qed.

Lemma free_cons (l : text) (x : ascii) (a s : text) :
  prefixb l (x :: a ++ s) = false -> free l a s -> free l (x :: a) s.
Proof.
  intros Hx Ha [|y a1] a2 Heq Hne; simpl in Heq.
  - now subst.
  - injection Heq as -> ->. now apply (Ha a1 a2).
Qed.

Lemma free_tail (l : text) (x : ascii) (a s : text) :
  free l (x :: a) s -> free l a s.
Proof. intros H a1 a2 -> Hne. now apply (H (x :: a1) a2). Qed.

Lemma free_head (l : text) (x : ascii) (a s : text) :
  free l (x :: a) s -> prefixb l (x :: a ++ s) = false.
Proof. intros H. apply (H [] (x :: a)); [reflexivity|discriminate]. Qed.

Lemma free_app (l a b s : text) :
  free l a (b ++ s) -> free l b s -> free l (a ++ b) s.
Proof.
  induction a as [|x a IH]; intros Ha Hb; [exact Hb|].
  cbn [app]. apply free_cons.
  - rewrite <- app_assoc. now apply free_head.
  - apply IH; [now apply free_tail in Ha|exact Hb].
Qed.

Lemma prefixb_app_inv (l a s : text) :
  prefixb l (a ++ s) = true ->
  prefixb l a = true
  \/ exists l2, l = a ++ l2 /\ l2 <> [] /\ prefixb l2 s = true.
Proof.
  revert l. induction a as [|x a IH]; intros l H.
  - destruct l as [|y l]; [now left|]. right. exists (y :: l).
    repeat split; [discriminate|exact H].
  - destruct l as [|y l]; [now left|]. cbn [app prefixb] in *.
    apply andb_true_iff in H as [Hy Hl]. rewrite Hy. cbn [andb].
    apply Ascii.eqb_eq in Hy as ->.
    destruct (IH _ Hl) as [Hp|(l2 & -> & Hne & Hp)]; [now left|].
    right. exists l2. now repeat split.
Qed.

Lemma infixb_app_r (l a1 a2 : text) :
  prefixb l a2 = true -> infixb l (a1 ++ a2) = true.
Proof.
  intros H. induction a1 as [|x a1 IH].
  - destruct a2; cbn [app infixb]; now rewrite H.
  - cbn [app infixb]. rewrite IH. apply orb_true_r.
Qed.

Lemma prefixb_boundary (l l2 l1 s : text) :
  l = l1 ++ l2 -> l2 <> [] -> boundary l s -> prefixb l2 s = false.
Proof.
  intros -> Hne Hb. destruct l2 as [|y l2]; [congruence|].
  destruct s as [|z s]; [reflexivity|]. cbn [prefixb].
  destruct (Ascii.eqb y z) eqn:E; [|reflexivity]. exfalso.
  unfold boundary in Hb. rewrite forallb_app in Hb.
  apply andb_true_iff in Hb as [_ Hb]. cbn [forallb] in Hb.
  rewrite E in Hb. discriminate.
Qed.

Lemma free_infix (l a s : text) :
  infixb l a = false -> boundary l s -> free l a s.
Proof.
  intros Hinf Hb a1 a2 -> Hne.
  destruct (prefixb l (a2 ++ s)) eqn:E; [exfalso|reflexivity].
  apply prefixb_app_inv in E as [Hp|(l2 & Hl & Hl2 & Hp)].
  - rewrite (infixb_app_r _ a1 _ Hp) in Hinf. discriminate.
  - rewrite (@prefixb_boundary l l2 a2 s Hl Hl2 Hb) in Hp. discriminate.
Qed.

Lemma free_chars (x : ascii) (l a s : text) :
  Forall (fun y => Ascii.eqb x y = false) a -> free (x :: l) a s.
Proof.
  intros H. induction H as [|y a Hy Ha IH]; [apply free_nil|].
  apply free_cons; [|exact IH]. cbn [prefixb]. now rewrite Hy.
Qed.

(** [split], [re.search] and [re.sub] pass over such a segment. *)
Lemma split_go_free (sep a s cur : text) :
  free sep a s ->
  split_go sep 0 cur (a ++ s) = split_go sep 0 (rev a ++ cur) s.
Proof.
  revert cur. induction a as [|x a IH]; intros cur H; [reflexivity|].
  cbn [app split_go]. rewrite (free_head H).
  rewrite IH by (now apply free_tail in H).
  cbn [rev]. now rewrite <- app_assoc.
Qed.

Lemma split_go_skip (sep t s cur : text) :
  split_go sep (length t) cur (t ++ s) = split_go sep 0 cur s.
Proof.
  induction t as [|x t IH]; [reflexivity|].
  cbn [app length split_go]. exact IH.
Qed.

Lemma split_go_sep (x : ascii) (sep s cur : text) :
  split_go (x :: sep) 0 cur ((x :: sep) ++ s)
  = rev cur :: split_go (x :: sep) 0 [] s.
Proof.
  cbn [app split_go]. change (x :: sep ++ s) with ((x :: sep) ++ s).
  rewrite prefixb_app. cbn [length Nat.sub]. rewrite Nat.sub_0_r.
  now rewrite split_go_skip.
Qed.

Lemma search_free (l : text) (p : regex) (a s : text) :
  free l a s -> search (lit l ++ p) (a ++ s) = search (lit l ++ p) s.
Proof.
  intros H. apply search_skip. intros a1 a2 Ha Hne.
  apply match_here_lit_fail. now apply (H a1 a2).
Qed.

Lemma sub_go_free (l : text) (p : regex) (tpl : list piece) (a s : text) :
  free l a s ->
  sub_go (lit l ++ p) tpl 0 (a ++ s) = a ++ sub_go (lit l ++ p) tpl 0 s.
Proof.
  induction a as [|x a IH]; intros H; [reflexivity|].
  cbn [app]. cbn [sub_go].
  change (x :: a ++ s) with ((x :: a) ++ s).
  rewrite match_here_lit_fail by (apply free_head; exact H).
  cbn [app]. f_equal. apply IH. now apply free_tail in H.
Qed.

Lemma sub_go_skip (p : regex) (tpl : list piece) (t s : text) :
  sub_go p tpl (length t) (t ++ s) = sub_go p tpl 0 s.
Proof.
  induction t as [|x t IH]; [reflexivity|].
  cbn [app length sub_go]. exact IH.
Qed.

Lemma sub_go_match (p : regex) (tpl : list piece) (m s : text)
  (gs : list text) :
  m <> [] -> match_here p (m ++ s) = Some (gs, s) ->
  sub_go p tpl 0 (m ++ s) = expand tpl m ++ sub_go p tpl 0 s.
Proof.
  intros Hne Hm. destruct m as [|x m]; [congruence|].
  cbn [app sub_go]. change (x :: m ++ s) with ((x :: m) ++ s).
  rewrite Hm. rewrite length_app, Nat.add_sub, firstn_app, firstn_all,
    Nat.sub_diag. cbn [firstn length]. rewrite app_nil_r.
  now rewrite sub_go_skip.
Qed.

Lemma expand_literal (r m : text) : expand (map Ch r) m = r.
Proof.
  unfold expand. induction r as [|a r IH]; [reflexivity|].
  cbn [map flat_map app]. now rewrite IH.
Qed.

(** ** Plain descriptions and track ids *)

Lemma length_lstrip (t : text) : length (lstrip t) <= length t.
Proof.
  induction t as [|a t IH]; simpl; [lia|]. destruct (is_space a); simpl; lia.
Qed.

Lemma length_strip (t : text) : length (strip t) <= length (lstrip t).
Proof.
  unfold strip, rstrip. rewrite length_rev.
  etransitivity; [apply length_lstrip|]. now rewrite length_rev.
Qed.

Lemma strip_fixed_head (d : text) :
  strip d = d -> d <> [] ->
  exists c0 d', d = c0 :: d' /\ is_space c0 = false.
Proof.
  intros Hs Hne. destruct d as [|c0 d']; [congruence|].
  exists c0, d'. split; [reflexivity|].
  destruct (is_space c0) eqn:E; [exfalso|reflexivity].
  pose proof (length_strip (c0 :: d')) as H1. rewrite Hs in H1.
  cbn [lstrip] in H1. rewrite E in H1.
  pose proof (length_lstrip d'). cbn [length] in H1. lia.
Qed.

Lemma plain_description_inv (d : text) :
  plain_description d = true ->
  (exists c0 d', d = c0 :: d' /\ is_space c0 = false)
  /\ strip d = d
  /\ forallb is_dot d = true
  /\ infixb (txt "---") d = false
  /\ infixb (txt "[conductor/tracks/") d = false.
Proof.
  unfold plain_description. intros H.
  repeat (apply andb_true_iff in H as [H ?]).
  apply negb_true_iff in H, H0, H1.
  apply text_eqb_neq in H. apply text_eqb_eq in H3.
  repeat split; auto. now apply strip_fixed_head.
Qed.

Lemma safe_description_inv (d : text) :
  safe_description d = true ->
  plain_description d = true
  /\ infixb (txt "##") d = false
  /\ forallb (fun a => negb (Ascii.eqb a backslash)) d = true.
Proof.
  unfold safe_description. intros H.
  apply andb_true_iff in H as [H H2]. apply andb_true_iff in H as [H H1].
  apply negb_true_iff in H1. repeat split; assumption.
Qed.

Lemma is_marker_cases (m : ascii) :
  is_marker m = true -> m = " "%char \/ m = "~"%char \/ m = "x"%char.
Proof.
  unfold is_marker. intros H.
  repeat (apply orb_true_iff in H as [H|H]);
    apply Ascii.eqb_eq in H; auto.
Qed.

Lemma digit_neq (x c : ascii) :
  is_digit x = false -> is_digit c = true -> Ascii.eqb x c = false.
Proof.
  intros Hx Hc. destruct (Ascii.eqb x c) eqn:E; [|reflexivity].
  apply Ascii.eqb_eq in E. congruence.
Qed.

Lemma fmt03_digits (n : nat) :
  exists c ds, fmt03 n = c :: ds /\ is_digit c = true
               /\ Forall (fun a => is_digit a = true) ds.
Proof.
  destruct (fmt03_spec n) as (_ & Hd & Hl & _).
  destruct (fmt03 n) as [|c ds]; [simpl in Hl; lia|].
  cbn [forallb] in Hd. apply andb_true_iff in Hd as [Hc Hds].
  exists c, ds. auto using forallb_Forall.
Qed.

Lemma track_id_chars (x : ascii) (n : nat) :
  is_digit x = false ->
  forallb (fun y => negb (Ascii.eqb x y)) (txt "track-") = true ->
  Forall (fun y => Ascii.eqb x y = false) (track_id_of n).
Proof.
  intros Hx Ht. unfold track_id_of. apply Forall_app. split.
  - apply Forall_forall. intros y Hy.
    rewrite forallb_forall in Ht. apply negb_true_iff. now apply Ht.
  - destruct (fmt03_spec n) as (_ & Hd & _).
    apply forallb_Forall in Hd. eapply Forall_impl; [|exact Hd].
    intros a Ha. now apply digit_neq.
Qed.

Lemma track_id_not_rbracket (n : nat) :
  Forall (fun a => not_rbracket a = true) (track_id_of n).
Proof.
  eapply Forall_impl; [|apply (@track_id_chars "]" n); reflexivity].
  intros a Ha. unfold not_rbracket. rewrite Ascii.eqb_sym, Ha. reflexivity.
Qed.

Lemma track_id_free_hashes (n : nat) (s : text) :
  free (txt "##") (track_id_of n) s.
Proof. apply free_chars. now apply track_id_chars. Qed.

Lemma track_id_free_dashes (n : nat) (s : text) :
  free (txt "---") (track_id_of n) s.
Proof.
  unfold track_id_of. destruct (fmt03_digits n) as (c & ds & -> & Hc & Hds).
  assert (Hdash : forall a, is_digit a = true -> Ascii.eqb "-" a = false)
    by (intros a; now apply digit_neq).
  apply free_app.
  - cbn [txt list_ascii_of_string app].
    do 5 (apply free_cons; [reflexivity|]).
    apply free_cons; [|apply free_nil].
    cbn [app prefixb txt list_ascii_of_string]. rewrite (Hdash c Hc).
    reflexivity.
  - apply free_chars. constructor; [now apply Hdash|].
    eapply Forall_impl; [|exact Hds]. intros a. apply Hdash.
Qed.

Lemma track_id_of_inj (n k : nat) : track_id_of n = track_id_of k -> n = k.
Proof.
  intros H. pose proof (track_number_fmt03 n) as Hn.
  fold (track_id_of n) in Hn. rewrite H in Hn. unfold track_id_of in Hn.
  rewrite track_number_fmt03 in Hn. congruence.
Qed.

(** ** Parsing a registry back *)

Lemma registry_entry_body (m : ascii) (track_id description : text) :
  registry_entry m track_id description
  = [newline] ++ txt "---" ++ entry_body m track_id description.
Proof. reflexivity. Qed.

Lemma boundary_rows (l : text) (rows : list Row) :
  forallb (fun x => negb (Ascii.eqb x newline)) l = true ->
  boundary l (flat_map row_entry rows).
Proof. intros H. destruct rows as [|r rows]; [exact I|exact H]. Qed.

Lemma marker_chars (x m : ascii) :
  is_marker m = true -> is_marker x = false ->
  Forall (fun y => Ascii.eqb x y = false) [m].
Proof.
  intros Hm Hx. constructor; [|constructor].
  destruct (Ascii.eqb x m) eqn:E; [|reflexivity].
  apply Ascii.eqb_eq in E. congruence.
Qed.

Ltac free_chars_concrete :=
  solve [apply free_chars; cbn [txt list_ascii_of_string app];
         repeat constructor].

Lemma row_body_free_dashes (r : Row) (rest : text) :
  plain_row r = true -> free (txt "---") (row_body r) rest.
Proof.
  intros Hr. apply andb_true_iff in Hr as [Hm Hd].
  apply plain_description_inv in Hd as (_ & _ & _ & Hinf & _).
  unfold row_body, entry_body.
  apply free_app; [free_chars_concrete|].
  apply free_app; [free_chars_concrete|].
  apply free_app; [apply free_chars; now apply marker_chars|].
  apply free_app; [free_chars_concrete|].
  apply free_app; [apply free_infix; [exact Hinf|reflexivity]|].
  apply free_app; [free_chars_concrete|].
  apply free_app; [free_chars_concrete|].
  apply free_app; [apply track_id_free_dashes|].
  apply free_app; [free_chars_concrete|].
  apply free_app; [apply track_id_free_dashes|].
  apply free_app; [free_chars_concrete|].
  free_chars_concrete.
Qed.

Lemma split_rows (rows : list Row) (cur : text) :
  Forall (fun r => plain_row r = true) rows ->
  split_go (txt "---") 0 cur (flat_map row_entry rows)
  = sections (rev cur) rows.
Proof.
  intros H. revert cur. induction H as [|r rows Hr Hrows IH]; intros cur.
  - reflexivity.
  - cbn [flat_map sections]. unfold row_entry at 1.
    rewrite registry_entry_body, <- !app_assoc.
    cbn [app]. cbn [split_go].
    replace (prefixb (txt "---") (newline :: _)) with false by reflexivity.
    rewrite (@split_go_sep "-" (txt "--")).
    cbn [rev]. f_equal.
    fold (row_body r). rewrite split_go_free by now apply row_body_free_dashes.
    rewrite IH. now rewrite app_nil_r, rev_involutive.
Qed.

Lemma heading_tail_at (c0 : ascii) (d' s : text) :
  is_space c0 = false -> forallb is_dot (c0 :: d') = true ->
  match s with [] => True | y :: _ => is_dot y = false end ->
  match_here [ws_star; Item is_dot Plus true] (" "%char :: c0 :: d' ++ s)
  = Some ([c0 :: d'], s).
Proof.
  intros Hc Hd Hs. cbn [forallb] in Hd. apply andb_true_iff in Hd as [Hd0 Hd'].
  set (k := match_here [Item is_dot Plus true]).
  change (match_here [ws_star; Item is_dot Plus true]
            (" "%char :: c0 :: d' ++ s))
    with (match rep is_space k ([" "%char] ++ c0 :: d' ++ s) with
          | Some (g, (gs, r)) => Some (gs, r)
          | None => None
          end).
  rewrite (@rep_app is_space k [" "%char] (c0 :: d' ++ s) []
             ([c0 :: d'], s)); [reflexivity|repeat constructor|].
  rewrite rep_stop by exact Hc. unfold k.
  rewrite match_here_plus_end; auto using forallb_Forall.
Qed.

Lemma heading_at (m : ascii) (d s : text) :
  is_marker m = true -> plain_description d = true ->
  match s with [] => True | y :: _ => is_dot y = false end ->
  match_here heading_re (txt "## [" ++ [m] ++ txt "] Track: " ++ d ++ s)
  = Some ([[m]; d], s).
Proof.
  intros Hm Hd Hs.
  apply plain_description_inv in Hd as ((c0 & d' & -> & Hc) & _ & Hdot & _).
  unfold heading_re. cbn [txt list_ascii_of_string app lit map].
  rewrite !match_here_lit_cons, !Ascii.eqb_refl.
  unfold ws_star at 1. rewrite match_here_star_lit_1 by reflexivity.
  rewrite match_here_one_cap, Hm.
  rewrite match_here_lit_cons, Ascii.eqb_refl.
  unfold ws_star at 1. rewrite match_here_star_lit_1 by reflexivity.
  rewrite !match_here_lit_cons, !Ascii.eqb_refl.
  now rewrite heading_tail_at.
Qed.

Lemma folder_at (n : nat) (s : text) :
  match_here folder_re
    (txt "[conductor/tracks/" ++ track_id_of n ++ "]"%char :: s)
  = Some ([track_id_of n], s).
Proof.
  unfold folder_re. rewrite match_here_lit_app.
  pose proof (track_id_not_rbracket n) as Hid.
  destruct (track_id_of n) as [|i0 id'] eqn:E; [discriminate|].
  inversion Hid as [|? ? Hi0 Hid']; subst.
  cbn [app match_here lit map txt list_ascii_of_string]. rewrite Hi0.
  rewrite (@rep_app not_rbracket _ id' ("]"%char :: s) [] ([], s) Hid').
  - now rewrite app_nil_r.
  - reflexivity.
Qed.

Lemma row_body_segments (r : Row) :
  row_body r
  = (head_seg (row_marker r) ++ row_description r ++ mid_seg)
    ++ link_seg (track_id_of (row_num r)).
Proof.
  unfold row_body, entry_body, head_seg, mid_seg, link_seg.
  cbn [txt list_ascii_of_string app]. rewrite <- !app_assoc. reflexivity.
Qed.

Lemma head_mid_free_folder (m : ascii) (d s : text) :
  is_marker m = true -> plain_description d = true ->
  free (txt "[conductor/tracks/") (head_seg m ++ d ++ mid_seg) s.
Proof.
  intros Hm Hd.
  apply plain_description_inv in Hd as (_ & _ & _ & _ & Hinf).
  apply free_app; [|apply free_app].
  - unfold head_seg.
    destruct (is_marker_cases _ Hm) as [-> | [-> | ->]];
      cbn [txt list_ascii_of_string app];
      repeat (apply free_cons; [reflexivity|]); apply free_nil.
  - apply free_infix; [exact Hinf|reflexivity].
  - unfold mid_seg. free_chars_concrete.
Qed.

Lemma parse_section_row (r : Row) (tail : text) :
  plain_row r = true ->
  parse_section (row_body r ++ tail) = [track_of_row r].
Proof.
  intros Hr. apply andb_true_iff in Hr as [Hm Hd].
  unfold parse_section.
  assert (Hh : search heading_re (row_body r ++ tail)
               = Some ([[row_marker r]; row_description r],
                       mid_seg ++ link_seg (track_id_of (row_num r)) ++ tail)).
  { rewrite row_body_segments. unfold head_seg.
    rewrite <- !app_assoc. unfold heading_re at 1.
    rewrite search_free by free_chars_concrete.
    apply search_here. fold heading_re. now apply heading_at. }
  rewrite Hh. cbn [nth].
  assert (Hf : search folder_re (row_body r ++ tail)
               = Some ([track_id_of (row_num r)],
                       txt "(conductor/tracks/" ++ track_id_of (row_num r)
                       ++ txt ")" ++ [newline; newline] ++ tail)).
  { rewrite row_body_segments, <- app_assoc. unfold folder_re at 1.
    rewrite search_free by now apply head_mid_free_folder.
    apply search_here. fold folder_re. unfold link_seg.
    rewrite <- !app_assoc. cbn [txt list_ascii_of_string app].
    apply (@folder_at (row_num r)). }
  rewrite Hf.
  apply plain_description_inv in Hd as (_ & -> & _).
  unfold track_of_row.
  destruct (track_id_of (row_num r)) eqn:E; [discriminate|reflexivity].
Qed.

Lemma parse_sections (r : Row) (rows : list Row) :
  plain_row r = true -> Forall (fun r => plain_row r = true) rows ->
  flat_map parse_section (sections (row_body r) rows)
  = map track_of_row (r :: rows).
Proof.
  intros Hr H. revert r Hr. induction H as [|r2 rows Hr2 Hrows IH]; intros r Hr.
  - cbn [sections flat_map map]. rewrite <- (app_nil_r (row_body r)).
    now rewrite parse_section_row.
  - cbn [sections flat_map]. rewrite parse_section_row by exact Hr.
    rewrite IH by exact Hr2. reflexivity.
Qed.

(** A registry of plain rows parses back to its rows, in order. *)
Lemma parse_registry (h : text) (rows : list Row) :
  infixb (txt "---") h = false ->
  Forall (fun r => plain_row r = true) rows ->
  parse_tracks_text (registry_of h rows) = map track_of_row rows.
Proof.
  intros Hh Hrows. unfold parse_tracks_text, split, registry_of.
  rewrite split_go_free
    by (apply free_infix; [exact Hh|now apply boundary_rows]).
  rewrite split_rows by exact Hrows. rewrite app_nil_r, rev_involutive.
  destruct Hrows as [|r rows Hr Hrows]; [reflexivity|].
  cbn [sections tl]. now apply parse_sections.
Qed.

(** ** Creating tracks in sequence *)

Lemma track_numbers_ids (l : list nat) :
  track_numbers (map track_id_of l) = l.
Proof.
  induction l as [|n l IH]; [reflexivity|].
  unfold track_numbers in *. cbn [map flat_map].
  unfold track_id_of at 1. rewrite track_number_fmt03, IH. reflexivity.
Qed.

Lemma list_max_seq (k : nat) : list_max (seq 1 k) = k.
Proof.
  induction k as [|k IH]; [reflexivity|].
  rewrite seq_S, list_max_app, IH. cbn [list_max fold_right Nat.add]. lia.
Qed.

Lemma lookup_none (name : text) (es : list (text * node)) :
  ~ In name (map fst es) -> lookup name es = None.
Proof.
  induction es as [|[n x] es IH]; intros H; [reflexivity|].
  cbn [lookup]. destruct (text_eqb n name) eqn:E.
  - apply text_eqb_eq in E. exfalso. apply H. now left.
  - apply IH. intros Hin. apply H. now right.
Qed.

Lemma update_absent (name : text) (x : node) (es : list (text * node)) :
  ~ In name (map fst es) -> update name x es = es ++ [(name, x)].
Proof.
  induction es as [|[n y] es IH]; intros H; [reflexivity|].
  cbn [update]. destruct (text_eqb n name) eqn:E.
  - apply text_eqb_eq in E. exfalso. apply H. now left.
  - cbn [app]. f_equal. apply IH. intros Hin. apply H. now right.
Qed.

Lemma next_id_fresh (es : list (text * node)) (k : nat) :
  dirs_upto es k -> ~ In (track_id_of (S k)) (map fst es).
Proof.
  intros [Hn _] Hin. rewrite Hn in Hin. apply in_map_iff in Hin as (i & Hi & Hin).
  apply track_id_of_inj in Hi. apply in_seq in Hin. lia.
Qed.

Lemma get_next_track_id_upto (es : list (text * node)) (k : nat)
  (tf : option text) :
  dirs_upto es k ->
  get_next_track_id (Some (mkConductor (Some es) tf)) = track_id_of (S k).
Proof.
  intros [Hn Hd]. unfold get_next_track_id. cbn [tracks_dir_of tracks_dir].
  rewrite (forallb_filter_id _ _ Hd), Hn.
  destruct k as [|k]; [reflexivity|].
  rewrite track_numbers_ids.
  destruct (seq 1 (S k)) eqn:E; [discriminate|]. rewrite <- E.
  now rewrite list_max_seq, Nat.add_1_r.
Qed.

Lemma registry_snoc (h : text) (rows : list Row) (r : Row) :
  registry_of h rows ++ row_entry r = registry_of h (rows ++ [r]).
Proof.
  unfold registry_of. rewrite flat_map_app, <- app_assoc.
  cbn [flat_map]. now rewrite app_nil_r.
Qed.

Lemma create_track_upto (es : list (text * node)) (k : nat) (h : text)
  (rows : list Row) (now description spec_content plan_content : text) :
  dirs_upto es k ->
  exists es',
    create_track (Some (mkConductor (Some es) (Some (registry_of h rows))))
      now description spec_content plan_content
    = Ok (Some (mkConductor (Some es')
                  (Some (registry_of h (rows ++ [mkRow " " (S k) description])))),
          track_id_of (S k))
    /\ dirs_upto es' (S k).
Proof.
  intros Hes. pose proof (next_id_fresh Hes) as Hfresh.
  unfold create_track. rewrite (get_next_track_id_upto _ Hes).
  rewrite lookup_none by exact Hfresh.
  rewrite update_absent by exact Hfresh.
  eexists. split.
  - unfold add_track_to_registry, write_tracks_file.
    cbn [tracks_file_of tracks_file tracks_dir].
    change (track_entry (track_id_of (S k)) description)
      with (row_entry (mkRow " " (S k) description)).
    now rewrite registry_snoc.
  - destruct Hes as [Hn Hd]. split.
    + rewrite map_app, Hn, seq_S, map_app. reflexivity.
    + rewrite forallb_app, Hd. reflexivity.
Qed.

Lemma create_tracks_upto (rqs : list Request) :
  forall (es : list (text * node)) (k : nat) (h : text) (rows : list Row),
    dirs_upto es k ->
    exists es',
      create_tracks (Some (mkConductor (Some es) (Some (registry_of h rows))))
        rqs
      = Ok (Some (mkConductor (Some es')
                    (Some (registry_of h
                             (rows ++ new_rows (S k)
                                        (map rq_description rqs))))),
            map track_id_of (seq (S k) (length rqs)))
      /\ dirs_upto es' (k + length rqs).
Proof.
  induction rqs as [|rq rqs IH]; intros es k h rows Hes.
  - exists es. cbn [create_tracks map new_rows length seq].
    rewrite app_nil_r, Nat.add_0_r. now split.
  - cbn [create_tracks].
    destruct (create_track_upto h rows (rq_now rq) (rq_description rq)
                (rq_spec rq) (rq_plan rq) Hes) as (es1 & -> & Hes1).
    destruct (IH es1 (S k) h (rows ++ [mkRow " " (S k) (rq_description rq)])
                Hes1) as (es2 & -> & Hes2).
    exists es2. split.
    + cbn [map new_rows length seq]. now rewrite <- app_assoc.
    + cbn [length]. now rewrite Nat.add_succ_r.
Qed.

Lemma tracks_of_new_rows (i : nat) (ds : list text) :
  map track_of_row (new_rows i ds) = new_tracks i ds.
Proof.
  revert i. induction ds as [|d ds IH]; intros i; [reflexivity|].
  cbn [new_rows map new_tracks]. now rewrite IH.
Qed.

Lemma length_new_tracks (i : nat) (ds : list text) :
  length (new_tracks i ds) = length ds.
Proof.
  revert i. induction ds as [|d ds IH]; intros i; [reflexivity|].
  cbn [new_tracks length]. now rewrite IH.
Qed.

Lemma plain_new_rows (i : nat) (ds : list text) :
  Forall (fun d => plain_description d = true) ds ->
  Forall (fun r => plain_row r = true) (new_rows i ds).
Proof.
  intros H. revert i. induction H as [|d ds Hd Hds IH]; intros i;
    constructor; auto.
Qed.

(** C1 (amended): on a freshly initialised project, creating tracks
    whose descriptions are plain (not empty, no surrounding whitespace,
    no line feed, no [---], no [[conductor/tracks/]) and have no carriage
    return (which [read_text] would give back as a line feed) succeeds,
    returns the ids [track-001], [track-002], ... in order, and
    [parse_tracks] then returns one pending record per track, in creation
    order, with the description given and that id. *)
Theorem create_then_parse_round_trip :
  forall (requests : list Request),
    Forall (fun rq => plain_description (rq_description rq) = true) requests ->
    Forall (fun rq => no_cr (rq_description rq) = true) requests ->
    exists st,
      create_tracks fresh_store requests
      = Ok (st, map track_id_of (seq 1 (length requests)))
      /\ parse_tracks st = new_tracks 1 (map rq_description requests)
      /\ length (parse_tracks st) = length requests.
Proof.
  intros rqs Hplain _.
  destruct (@create_tracks_upto rqs [] 0 header_init [])
    as (es & Hc & _); [now split|].
  eexists. split; [exact Hc|].
  assert (Hp : parse_tracks
                 (Some (mkConductor (Some es)
                          (Some (registry_of header_init
                                   ([] ++ new_rows 1
                                            (map rq_description rqs))))))
               = new_tracks 1 (map rq_description rqs)).
  { unfold parse_tracks. cbn [tracks_file_of tracks_file app].
    rewrite parse_registry; [apply tracks_of_new_rows|reflexivity|].
    apply plain_new_rows. apply Forall_map. exact Hplain. }
  split; [exact Hp|]. rewrite Hp.
  now rewrite length_new_tracks, length_map.
Qed.

Lemma create_then_parse_round_trip_witness :
  exists st,
    create_tracks fresh_store
      [mkRequest (txt "2026-01-01T00:00:00") (txt "Login") (txt "# spec")
         (txt "# plan");
       mkRequest (txt "2026-01-02T00:00:00") (txt "Sign-up page")
         (txt "# spec") (txt "# plan")]
    = Ok (st, [txt "track-001"; txt "track-002"])
    /\ parse_tracks st
       = [mkTrack (txt "track-001") (txt "Login") Pending
            (txt "conductor/tracks/track-001");
          mkTrack (txt "track-002") (txt "Sign-up page") Pending
            (txt "conductor/tracks/track-002")]
    /\ length (parse_tracks st) = 2.
Proof.
  apply (@create_then_parse_round_trip
           [mkRequest (txt "2026-01-01T00:00:00") (txt "Login") (txt "# spec")
              (txt "# plan");
            mkRequest (txt "2026-01-02T00:00:00") (txt "Sign-up page")
              (txt "# spec") (txt "# plan")]).
  - repeat constructor.
  - repeat constructor.
Defined.

(** ** Status updates on a registry *)

Lemma prefixb_app_l (d dj s : text) :
  prefixb d dj = true -> prefixb d (dj ++ s) = true.
Proof.
  intros H. destruct (prefixb_true _ _ H) as [r ->].
  rewrite <- app_assoc. apply prefixb_app.
Qed.

Lemma prefixb_line (d dj s : text) :
  forallb is_dot d = true ->
  match s with [] => True | y :: _ => is_dot y = false end ->
  prefixb d (dj ++ s) = prefixb d dj.
Proof.
  intros Hd Hs. destruct (prefixb d dj) eqn:E; [now apply prefixb_app_l|].
  destruct (prefixb d (dj ++ s)) eqn:E'; [exfalso|reflexivity].
  apply prefixb_app_inv in E' as [Hp|(l2 & -> & Hne & Hp)]; [congruence|].
  destruct l2 as [|y l2]; [congruence|]. destruct s as [|z s]; [discriminate|].
  cbn [prefixb] in Hp. apply andb_true_iff in Hp as [Hy _].
  apply Ascii.eqb_eq in Hy as ->.
  rewrite forallb_app in Hd. apply andb_true_iff in Hd as [_ Hd].
  cbn [forallb] in Hd. rewrite Hs in Hd. discriminate.
Qed.

Lemma infixb_app_l (l a1 a2 : text) :
  infixb l (a1 ++ a2) = false -> infixb l a2 = false.
Proof.
  induction a1 as [|x a1 IH]; [auto|].
  cbn [app infixb]. intros H. apply orb_false_iff in H as [_ H]. auto.
Qed.

Lemma match_here_lit_only (l s : text) :
  match_here (lit l) s
  = if prefixb l s then Some ([], skipn (length l) s) else None.
Proof. rewrite <- (app_nil_r (lit l)). apply match_here_lit. Qed.

(** The pattern of [update_track_status] at a heading of the registry:
    it matches exactly when the description looked up is a prefix of the
    one in the heading. *)
Lemma old_pattern_at_heading (m c0 cj : ascii) (d' dj' s : text) :
  is_marker m = true -> is_space c0 = false -> is_space cj = false ->
  match_here (old_pattern (c0 :: d')) (heading_seg m ++ (cj :: dj') ++ s)
  = if prefixb (c0 :: d') ((cj :: dj') ++ s)
    then Some ([], skipn (length (c0 :: d')) ((cj :: dj') ++ s))
    else None.
Proof.
  intros Hm Hc0 Hcj.
  unfold old_pattern, heading_seg.
  cbn [txt list_ascii_of_string app lit map].
  rewrite !match_here_lit_cons, !Ascii.eqb_refl.
  unfold ws_star at 1. rewrite match_here_star_lit_1 by reflexivity.
  rewrite match_here_one, Hm.
  rewrite match_here_lit_cons, Ascii.eqb_refl.
  unfold ws_star at 1. rewrite match_here_star_lit_1 by reflexivity.
  rewrite !match_here_lit_cons, !Ascii.eqb_refl.
  unfold ws_star.
  change (" "%char :: cj :: dj' ++ s) with ([" "%char] ++ cj :: dj' ++ s).
  rewrite match_here_star_lit;
    [|repeat constructor|exact Hc0|exact Hcj].
  change (Item (Ascii.eqb c0) One false
          :: map (fun a => Item (Ascii.eqb a) One false) d')
    with (lit (c0 :: d')).
  apply match_here_lit_only.
Qed.

Lemma sub_go_none (p : regex) (tpl : list piece) (x : ascii) (s : text) :
  match_here p (x :: s) = None ->
  sub_go p tpl 0 (x :: s) = x :: sub_go p tpl 0 s.
Proof. intros H. cbn [sub_go]. now rewrite H. Qed.

Lemma post_free_hashes (n : nat) (rest : text) :
  free (txt "##") (post_seg (track_id_of n)) rest.
Proof.
  unfold post_seg, mid_seg, link_seg.
  apply free_app; [free_chars_concrete|].
  apply free_app; [free_chars_concrete|].
  apply free_app; [apply track_id_free_hashes|].
  apply free_app; [free_chars_concrete|].
  apply free_app; [apply track_id_free_hashes|].
  apply free_app; [free_chars_concrete|].
  free_chars_concrete.
Qed.

Lemma row_entry_segments (r : Row) (rest : text) :
  row_entry r ++ rest
  = pre_seg ++ heading_seg (row_marker r) ++ row_description r
    ++ post_seg (track_id_of (row_num r)) ++ rest.
Proof.
  unfold row_entry, registry_entry, pre_seg, heading_seg, post_seg, mid_seg,
    link_seg.
  cbn [txt list_ascii_of_string app].
  repeat (rewrite <- app_assoc; cbn [app]). reflexivity.
Qed.

Lemma new_heading_seg (m : ascii) (d : text) :
  new_heading m d = heading_seg m ++ d.
Proof. unfold new_heading, heading_seg. now rewrite <- !app_assoc. Qed.

Lemma sub_old_free (d : text) (tpl : list piece) (a s : text) :
  free (txt "##") a s ->
  sub_go (old_pattern d) tpl 0 (a ++ s) = a ++ sub_go (old_pattern d) tpl 0 s.
Proof. unfold old_pattern. apply sub_go_free. Qed.

Lemma safe_row_inv (r : Row) :
  safe_row r = true ->
  is_marker (row_marker r) = true
  /\ plain_row r = true
  /\ infixb (txt "##") (row_description r) = false
  /\ exists cj dj', row_description r = cj :: dj' /\ is_space cj = false.
Proof.
  intros H. apply andb_true_iff in H as [Hm Hd].
  apply safe_description_inv in Hd as (Hp & Hh & _).
  split; [exact Hm|]. split; [unfold plain_row; now rewrite Hm, Hp|].
  split; [exact Hh|]. now apply plain_description_inv in Hp as (? & _).
Qed.


Lemma heading_seg_tail_free (m : ascii) (s : text) :
  is_marker m = true ->
  free (txt "##") (skipn 1 (heading_seg m)) s.
Proof.
  intros Hm. unfold heading_seg. cbn [txt list_ascii_of_string app skipn].
  apply free_cons; [reflexivity|].
  do 2 (apply free_cons; [reflexivity|]).
  apply free_cons;
    [cbn [prefixb txt list_ascii_of_string];
     destruct (is_marker_cases _ Hm) as [-> | [-> | ->]]; reflexivity|].
  repeat (apply free_cons; [reflexivity|]). apply free_nil.
Qed.

(** One entry under the substitution of [update_track_status]. *)
Lemma sub_row (d : text) (c : ascii) (r : Row) (rest : text) :
  safe_description d = true -> safe_row r = true ->
  sub_go (old_pattern d) (map Ch (new_heading c d)) 0 (row_entry r ++ rest)
  = row_entry (update_row d c r)
    ++ sub_go (old_pattern d) (map Ch (new_heading c d)) 0 rest.
Proof.
  intros Hd Hr.
  apply safe_description_inv in Hd as (Hdp & Hdh & _).
  apply plain_description_inv in Hdp as ((c0 & d' & Ed & Hc0) & _ & Hdot & _).
  destruct (safe_row_inv _ Hr) as (Hm & _ & Hjh & (cj & dj' & Ej & Hcj)).
  set (tpl := map Ch (new_heading c d)).
  set (post := post_seg (track_id_of (row_num r))).
  assert (Hpost : forall t, free (txt "##") post t)
    by (intros t; apply post_free_hashes).
  assert (Hnl : forall t, match post ++ t with
                          | [] => True
                          | y :: _ => is_dot y = false
                          end) by (intros t; reflexivity).
  assert (Hbd : forall t, boundary (txt "##") (post ++ t))
    by (intros t; reflexivity).
  rewrite !row_entry_segments. fold post.
  rewrite sub_old_free by (unfold pre_seg; free_chars_concrete).
  f_equal.
  pose proof (@old_pattern_at_heading (row_marker r) c0 cj d' dj'
                (post ++ rest) Hm Hc0 Hcj) as Hmatch.
  rewrite <- Ed, <- Ej in Hmatch.
  rewrite (@prefixb_line d (row_description r) (post ++ rest) Hdot (Hnl rest))
    in Hmatch.
  unfold update_row. destruct (prefixb d (row_description r)) eqn:Epre.
  - (* the heading is rewritten *)
    cbn [row_marker row_num row_description]. fold post.
    destruct (prefixb_true _ _ Epre) as [dj2 Edj].
    rewrite Edj in Hmatch |- *. rewrite <- !app_assoc in Hmatch.
    rewrite skipn_app, skipn_all, Nat.sub_diag in Hmatch.
    cbn [app skipn] in Hmatch.
    rewrite <- !app_assoc.
    rewrite (app_assoc (heading_seg (row_marker r)) d) in Hmatch |- *.
    rewrite (@sub_go_match (old_pattern d) tpl
               (heading_seg (row_marker r) ++ d) (dj2 ++ post ++ rest) []);
      [|unfold heading_seg; discriminate|exact Hmatch].
    unfold tpl. rewrite expand_literal, new_heading_seg.
    rewrite (app_assoc dj2 post rest).
    rewrite sub_old_free.
    + now rewrite <- !app_assoc.
    + apply free_app; [|apply Hpost].
      apply free_infix; [|apply Hbd].
      rewrite Edj in Hjh. now apply infixb_app_l in Hjh.
  - (* the heading is left as it is *)
    assert (Hh : heading_seg (row_marker r)
                 = "#"%char :: skipn 1 (heading_seg (row_marker r)))
      by reflexivity.
    rewrite Hh in Hmatch |- *. cbn [app] in Hmatch |- *.
    rewrite sub_go_none by exact Hmatch. f_equal.
    rewrite (app_assoc (row_description r) post rest).
    rewrite app_assoc. rewrite sub_old_free.
    + now rewrite <- !app_assoc.
    + apply free_app; [now apply heading_seg_tail_free|].
      apply free_app; [|apply Hpost].
      apply free_infix; [exact Hjh|apply Hbd].
Qed.

Lemma sub_rows (d : text) (c : ascii) (rows : list Row) :
  safe_description d = true ->
  Forall (fun r => safe_row r = true) rows ->
  sub_go (old_pattern d) (map Ch (new_heading c d)) 0
    (flat_map row_entry rows)
  = flat_map row_entry (map (update_row d c) rows).
Proof.
  intros Hd H. induction H as [|r rows Hr Hrows IH]; [reflexivity|].
  cbn [flat_map map]. now rewrite sub_row, IH.
Qed.

(** The substitution of [update_track_status] on a whole registry. *)
Lemma sub_registry (d : text) (c : ascii) (h : text) (rows : list Row) :
  header_ok h = true -> safe_description d = true ->
  Forall (fun r => safe_row r = true) rows ->
  sub_go (old_pattern d) (map Ch (new_heading c d)) 0 (registry_of h rows)
  = registry_of h (map (update_row d c) rows).
Proof.
  intros Hh Hd Hrows. unfold registry_of.
  apply andb_true_iff in Hh as [_ Hh]. apply negb_true_iff in Hh.
  rewrite sub_old_free
    by (apply free_infix; [exact Hh|now apply boundary_rows]).
  now rewrite sub_rows.
Qed.

Lemma parse_template_literal (t : text) :
  forallb (fun a => negb (Ascii.eqb a backslash)) t = true ->
  parse_template t = Ok (map Ch t).
Proof.
  unfold parse_template. induction t as [|a t IH]; [reflexivity|].
  cbn [forallb length parse_template_fuel]. intros H.
  apply andb_true_iff in H as [Ha Ht]. rewrite Ha, (IH Ht). reflexivity.
Qed.

Lemma marker_of_status_name_marker (s : text) :
  is_marker (marker_of_status_name s) = true.
Proof.
  unfold marker_of_status_name.
  repeat (match goal with |- context [if ?b then _ else _] => destruct b end);
    reflexivity.
Qed.

Lemma new_heading_no_backslash (c : ascii) (d : text) :
  is_marker c = true ->
  forallb (fun a => negb (Ascii.eqb a backslash)) d = true ->
  forallb (fun a => negb (Ascii.eqb a backslash)) (new_heading c d) = true.
Proof.
  intros Hc Hd. unfold new_heading. rewrite !forallb_app, Hd.
  destruct (is_marker_cases _ Hc) as [-> | [-> | ->]]; reflexivity.
Qed.

Lemma re_sub_registry (d : text) (c : ascii) (h : text) (rows : list Row) :
  header_ok h = true -> safe_description d = true -> is_marker c = true ->
  Forall (fun r => safe_row r = true) rows ->
  re_sub (old_pattern d) (new_heading c d) (registry_of h rows)
  = Ok (registry_of h (map (update_row d c) rows)).
Proof.
  intros Hh Hd Hc Hrows. unfold re_sub.
  rewrite parse_template_literal.
  - now rewrite sub_registry.
  - apply new_heading_no_backslash; [exact Hc|].
    now apply safe_description_inv in Hd as (_ & _ & Hb).
Qed.

Lemma find_track_of_row (track_id : text) (rows : list Row) :
  find (fun track => text_eqb (tr_id track) track_id) (map track_of_row rows)
  = option_map track_of_row (find (row_has_id track_id) rows).
Proof.
  induction rows as [|r rows IH]; [reflexivity|].
  cbn [map find]. unfold row_has_id at 1. cbn [track_of_row tr_id].
  destruct (text_eqb _ track_id); [reflexivity|exact IH].
Qed.

Lemma find_update_row (track_id d : text) (c : ascii) (rows : list Row) :
  find (row_has_id track_id) (map (update_row d c) rows)
  = option_map (update_row d c) (find (row_has_id track_id) rows).
Proof.
  induction rows as [|r rows IH]; [reflexivity|].
  cbn [map find].
  assert (E : row_has_id track_id (update_row d c r) = row_has_id track_id r).
  { unfold update_row, row_has_id. now destruct (prefixb d _). }
  rewrite E. destruct (row_has_id track_id r); [reflexivity|exact IH].
Qed.

Lemma update_row_description (d : text) (c : ascii) (r : Row) :
  row_description (update_row d c r) = row_description r.
Proof. unfold update_row. now destruct (prefixb d _). Qed.

Lemma update_row_idem (d : text) (c : ascii) (r : Row) :
  update_row d c (update_row d c r) = update_row d c r.
Proof.
  unfold update_row. destruct (prefixb d (row_description r)) eqn:E.
  - cbn [row_description]. now rewrite E.
  - now rewrite E.
Qed.

Lemma update_row_safe (d : text) (c : ascii) (r : Row) :
  is_marker c = true -> safe_row r = true ->
  safe_row (update_row d c r) = true.
Proof.
  intros Hc Hr. unfold update_row. destruct (prefixb d _); [|exact Hr].
  unfold safe_row in *. cbn [row_marker row_description].
  apply andb_true_iff in Hr as [_ Hd]. now rewrite Hc, Hd.
Qed.

Lemma safe_row_plain (r : Row) : safe_row r = true -> plain_row r = true.
Proof. intros H. now apply safe_row_inv in H. Qed.

Lemma header_ok_dashes (h : text) :
  header_ok h = true -> infixb (txt "---") h = false.
Proof.
  intros H. apply andb_true_iff in H as [H _]. now apply negb_true_iff in H.
Qed.

(** [update_track_status] on a store whose registry is made of safe
    rows: the looked-up row gives the description, and every row whose
    description starts with it takes the new marker. *)
Lemma update_track_status_registry (c0 : Conductor) (h : text)
  (rows : list Row) (track_id new_status : text) (r0 : Row) :
  tracks_file c0 = Some (registry_of h rows) ->
  header_ok h = true ->
  Forall (fun r => safe_row r = true) rows ->
  find (row_has_id track_id) rows = Some r0 ->
  update_track_status (Some c0) track_id new_status
  = Ok (Some (mkConductor (tracks_dir c0)
                (Some (registry_of h
                         (map (update_row (row_description r0)
                                 (marker_of_status_name new_status))
                              rows))))).
Proof.
  intros Hf Hh Hrows Hfind. unfold update_track_status, get_track_by_id,
    parse_tracks. cbn [tracks_file_of]. rewrite Hf.
  rewrite parse_registry;
    [|now apply header_ok_dashes
     |eapply Forall_impl; [|exact Hrows]; apply safe_row_plain].
  rewrite find_track_of_row, Hfind. cbn [option_map track_of_row tr_description].
  rewrite re_sub_registry; auto using marker_of_status_name_marker.
  apply find_some in Hfind as [Hin _].
  rewrite Forall_forall in Hrows. specialize (Hrows _ Hin).
  now apply andb_true_iff in Hrows as [_ Hd].
Qed.

Lemma get_track_by_id_registry (c0 : Conductor) (h : text) (rows : list Row)
  (track_id : text) :
  tracks_file c0 = Some (registry_of h rows) ->
  header_ok h = true ->
  Forall (fun r => safe_row r = true) rows ->
  get_track_by_id (Some c0) track_id
  = option_map track_of_row (find (row_has_id track_id) rows).
Proof.
  intros Hf Hh Hrows. unfold get_track_by_id, parse_tracks.
  cbn [tracks_file_of]. rewrite Hf.
  rewrite parse_registry;
    [|now apply header_ok_dashes
     |eapply Forall_impl; [|exact Hrows]; apply safe_row_plain].
  apply find_track_of_row.
Qed.

(** Two updates in a row on a registry of safe rows. *)
Lemma update_twice_registry :
  forall (st : Store) (h : text) (rows : list Row)
         (track_id new_status : text),
    tracks_file_of st = Some (registry_of h rows) ->
    header_ok h = true ->
    Forall (fun r => safe_row r = true) rows ->
    get_track_by_id st track_id <> None ->
    exists st1,
      update_track_status st track_id new_status = Ok st1
      /\ update_track_status st1 track_id new_status = Ok st1.
Proof.
  intros [c0|] h rows track_id new_status Hf Hh Hrows Hget; [|discriminate].
  cbn [tracks_file_of] in Hf.
  rewrite (@get_track_by_id_registry c0 h rows track_id Hf Hh Hrows) in Hget.
  destruct (find (row_has_id track_id) rows) as [r0|] eqn:Hfind;
    [clear Hget|now destruct Hget].
  set (c := marker_of_status_name new_status).
  set (d := row_description r0).
  eexists. split.
  - apply (@update_track_status_registry c0 h rows track_id new_status r0
             Hf Hh Hrows Hfind).
  - fold c d.
    rewrite (@update_track_status_registry _ h (map (update_row d c) rows)
               track_id new_status (update_row d c r0)).
    + cbn [tracks_dir]. rewrite update_row_description. fold c d.
      rewrite map_map.
      erewrite map_ext; [reflexivity|].
      intros r. cbn beta. apply update_row_idem.
    + reflexivity.
    + exact Hh.
    + apply Forall_map. eapply Forall_impl; [|exact Hrows].
      intros r. apply update_row_safe. apply marker_of_status_name_marker.
    + now rewrite find_update_row, Hfind.
Qed.

(** C2 (amended): on a registry as the class writes it (a header without
    [---] and [##], then entries for ids [track-NNN]) whose descriptions
    are safe (plain, without [##] and without backslash), for a track that
    is present and any status name, a second [update_track_status] with
    the same arguments returns the store the first one returned: the
    registry document is unchanged by it. *)
Theorem update_track_status_idempotent :
  forall (st : Store) (h : text) (rows : list Row)
         (track_id new_status : text),
    tracks_file_of st = Some (registry_of h rows) ->
    header_ok h = true ->
    Forall (fun r => safe_row r = true) rows ->
    get_track_by_id st track_id <> None ->
    exists st1,
      update_track_status st track_id new_status = Ok st1
      /\ update_track_status st1 track_id new_status = Ok st1.
Proof.
  intros st h rows track_id new_status Hf Hh Hrows Hget.
  now apply (@update_twice_registry st h rows).
Qed.

Lemma update_track_status_idempotent_witness :
  exists st1,
    update_track_status (store_of_registry duplicate_registry)
      (txt "track-002") (txt "completed") = Ok st1
    /\ update_track_status st1 (txt "track-002") (txt "completed") = Ok st1.
Proof.
  apply (@update_track_status_idempotent
           (store_of_registry duplicate_registry) header_init
           [mkRow " " 1 (txt "Login"); mkRow " " 2 (txt "Login");
            mkRow " " 3 (txt "Login page")]).
  - reflexivity.
  - reflexivity.
  - repeat constructor.
  - vm_compute. discriminate.
Defined.

Lemma track_of_update_row (d : text) (c : ascii) (r : Row) :
  track_of_row (update_row d c r)
  = retag d (status_of_marker [c]) (track_of_row r).
Proof.
  unfold update_row, retag. cbn [track_of_row tr_description].
  now destruct (prefixb d (row_description r)).
Qed.

(** C3 (amended): on such a registry, [update_track_status] substitutes
    the marker at every heading whose description starts with the
    description of the track looked up, not only at the first: after the
    call, the parsed tracks are the former ones with the new status on
    each of those, and in particular on every track with that same
    description. *)
Theorem update_track_status_rewrites_all :
  forall (st : Store) (h : text) (rows : list Row)
         (track_id new_status : text) (t : Track),
    tracks_file_of st = Some (registry_of h rows) ->
    header_ok h = true ->
    Forall (fun r => safe_row r = true) rows ->
    get_track_by_id st track_id = Some t ->
    let status := status_of_marker [marker_of_status_name new_status] in
    exists st1,
      update_track_status st track_id new_status = Ok st1
      /\ parse_tracks st1
         = map (retag (tr_description t) status) (parse_tracks st)
      /\ (forall u, In u (parse_tracks st1) ->
                    tr_description u = tr_description t ->
                    tr_status u = status).
Proof.
  intros [c0|] h rows track_id new_status t Hf Hh Hrows Hget status;
    [|discriminate].
  cbn [tracks_file_of] in Hf.
  rewrite (@get_track_by_id_registry c0 h rows track_id Hf Hh Hrows) in Hget.
  destruct (find (row_has_id track_id) rows) as [r0|] eqn:Hfind;
    [|discriminate].
  injection Hget as <-. cbn [track_of_row tr_description].
  assert (Hplain : Forall (fun r => plain_row r = true) rows)
    by (eapply Forall_impl; [|exact Hrows]; apply safe_row_plain).
  assert (Hp1 : parse_tracks
                  (Some (mkConductor (tracks_dir c0)
                           (Some (registry_of h
                                    (map (update_row (row_description r0)
                                            (marker_of_status_name new_status))
                                         rows)))))
                = map (retag (row_description r0) status)
                    (parse_tracks (Some c0))).
  { unfold parse_tracks. cbn [tracks_file_of tracks_file]. rewrite Hf.
    rewrite !parse_registry; auto using header_ok_dashes.
    - rewrite !map_map. apply map_ext. intros r. apply track_of_update_row.
    - apply Forall_map. eapply Forall_impl; [|exact Hrows].
      intros r Hr. apply safe_row_plain, update_row_safe; auto.
      apply marker_of_status_name_marker. }
  eexists. split; [|split].
  - apply (@update_track_status_registry c0 h rows track_id new_status r0
             Hf Hh Hrows Hfind).
  - exact Hp1.
  - intros u Hin Hd. rewrite Hp1 in Hin.
    apply in_map_iff in Hin as (v & <- & _). unfold retag in *.
    destruct (prefixb (row_description r0) (tr_description v)) eqn:E;
      [reflexivity|].
    cbn [tr_description] in Hd. rewrite Hd in E.
    assert (Hrefl : prefixb (row_description r0) (row_description r0) = true).
    { rewrite <- (app_nil_r (row_description r0)) at 2. apply prefixb_app. }
    congruence.
Qed.

Lemma update_track_status_rewrites_all_witness :
  exists st1,
    update_track_status (store_of_registry duplicate_registry)
      (txt "track-001") (txt "completed") = Ok st1
    /\ map tr_status (parse_tracks st1) = [Completed; Completed; Completed].
Proof.
  destruct (@update_track_status_rewrites_all
              (store_of_registry duplicate_registry) header_init
              [mkRow " " 1 (txt "Login"); mkRow " " 2 (txt "Login");
               mkRow " " 3 (txt "Login page")]
              (txt "track-001") (txt "completed")
              (mkTrack (txt "track-001") (txt "Login") Pending
                 (txt "conductor/tracks/track-001")))
    as (st1 & Hu & Hp & _).
  - reflexivity.
  - reflexivity.
  - repeat constructor.
  - vm_compute. reflexivity.
  - exists st1. split; [exact Hu|]. rewrite Hp. vm_compute. reflexivity.
Defined.

Lemma get_next_pending_track_first_incomplete_witness :
  get_next_pending_track sample_store
  = Some (mkTrack (txt "track-002") (txt "Signup") Pending
            (txt "conductor/tracks/track-002"))
  /\ get_next_pending_track store_without_registry = None.
Proof.
  destruct (get_next_pending_track_first_incomplete sample_store)
    as (_ & Hsome & _).
  destruct (get_next_pending_track_first_incomplete store_without_registry)
    as (Hnone & _).
  split.
  - apply Hsome.
    exists [mkTrack (txt "track-001") (txt "Login") Completed
              (txt "conductor/tracks/track-001")],
           [mkTrack (txt "track-003") (txt "Billing") InProgress
              (txt "conductor/tracks/track-003")].
    split; [reflexivity|]. split; [repeat constructor|discriminate].
  - apply Hnone. constructor.
Defined.

Lemma parse_tracks_skips_blocks_witness :
  parse_section (txt "no heading here") = []
  /\ parse_section (txt "## [ ] Track: Login, but no folder link") = []
  /\ tr_id (mkTrack (txt "track-002") (txt "Signup") Pending
              (txt "conductor/tracks/track-002")) <> [].
Proof.
  destruct (parse_tracks_skips_blocks sample_registry)
    as (_ & Hh & Hf & Hrec).
  split; [|split].
  - apply Hh. intros Hc. apply search_some_iff in Hc. now apply Hc.
  - apply Hf. intros Hc. apply search_some_iff in Hc. now apply Hc.
  - apply Hrec. right. now left.
Defined.

(** ** Reachable stores *)

Lemma update_safe_rows (d : text) (c : ascii) (rows : list Row) :
  is_marker c = true ->
  Forall (fun r => safe_row r = true) rows ->
  Forall (fun r => safe_row r = true) (map (update_row d c) rows).
Proof.
  intros Hc H. apply Forall_map. eapply Forall_impl; [|exact H].
  intros r. now apply update_row_safe.
Qed.

(** Every reachable store is managed. *)
Lemma reachable_managed (st : Store) : reachable st -> managed st.
Proof.
  induction 1 as [|st st' Hreach IH Hstep].
  - exists [], 0, []. repeat split; constructor.
  - destruct IH as (es & k & rows & -> & Hes & Hrows).
    inversion Hstep as [st0 now d sp pl st1 tid Hd Hc E0 E1
                       |st0 tid s st1 Hu E0 E1]; subst st0 st1; clear Hstep.
    + destruct (create_track_upto header_init rows now d sp pl Hes)
        as (es' & Hc' & Hes').
      rewrite Hc' in Hc. injection Hc as <- _.
      exists es', (S k), (rows ++ [mkRow " " (S k) d]).
      repeat split; try apply Hes'.
      apply Forall_app. split; [exact Hrows|].
      constructor; [|constructor]. unfold safe_row. cbn [row_marker
        row_description]. now rewrite Hd.
    + destruct (find (row_has_id tid) rows) as [r0|] eqn:Hfind.
      * rewrite (@update_track_status_registry
                   (mkConductor (Some es)
                      (Some (registry_of header_init rows)))
                   header_init rows tid s r0
                   eq_refl eq_refl Hrows Hfind) in Hu.
        injection Hu as <-. cbn [tracks_dir].
        exists es, k, (map (update_row (row_description r0)
                        (marker_of_status_name s)) rows).
        repeat split; try apply Hes.
        apply update_safe_rows; [apply marker_of_status_name_marker|exact Hrows].
      * unfold update_track_status in Hu. cbn [tracks_file_of tracks_file] in Hu.
        rewrite (@get_track_by_id_registry
                   (mkConductor (Some es)
                      (Some (registry_of header_init rows)))
                   header_init rows tid
                   eq_refl eq_refl Hrows), Hfind in Hu.
        cbn [option_map] in Hu. injection Hu as <-.
        exists es, k, rows. repeat split; auto; apply Hes.
Qed.

(** On every reachable store, updating the status of a present track
    twice gives the same store as updating it once. *)
Corollary update_twice_reachable (st : Store) (track_id new_status : text) :
  reachable st ->
  get_track_by_id st track_id <> None ->
  exists st1,
    update_track_status st track_id new_status = Ok st1
    /\ update_track_status st1 track_id new_status = Ok st1.
Proof.
  intros Hreach Hget.
  destruct (reachable_managed Hreach) as (es & k & rows & -> & _ & Hrows).
  now apply (@update_twice_registry _ header_init rows).
Qed.

(** Before [init_conductor_structure], when [conductor/tracks] does not
    exist, [create_track] raises: [mkdir] does not create the parents. *)
Example create_track_before_init_raises :
  create_track None (txt "2026-01-01T00:00:00") (txt "Login") (txt "# spec")
    (txt "# plan")
  = Raise FileNotFoundError.
Proof. reflexivity. Qed.

(** * Further properties of the class *)

(** ** Fresh ids *)

Lemma lookup_in (name : text) (es : list (text * node)) (x : node) :
  lookup name es = Some x -> In (name, x) es.
Proof.
  induction es as [|[n y] es IH]; [discriminate|]. cbn [lookup].
  destruct (text_eqb n name) eqn:E.
  - apply text_eqb_eq in E as ->. intros [= ->]. now left.
  - intros H. right. now apply IH.
Qed.

Lemma lookup_update_same (name : text) (x : node) (es : list (text * node)) :
  lookup name (update name x es) = Some x.
Proof.
  induction es as [|[n y] es IH]; cbn [update lookup].
  - now rewrite text_eqb_refl.
  - destruct (text_eqb n name) eqn:E; cbn [lookup]; now rewrite E.
Qed.

Lemma lookup_update_other (name other : text) (x : node)
  (es : list (text * node)) :
  other <> name -> lookup other (update name x es) = lookup other es.
Proof.
  intros Hne. induction es as [|[n y] es IH]; cbn [update lookup].
  - destruct (text_eqb name other) eqn:E; [|reflexivity].
    apply text_eqb_eq in E. congruence.
  - destruct (text_eqb n name) eqn:E; cbn [lookup].
    + apply text_eqb_eq in E as ->.
      destruct (text_eqb name other) eqn:E'; [|reflexivity].
      apply text_eqb_eq in E'. congruence.
    + now rewrite IH.
Qed.

(** The id [get_next_track_id] returns is [track-] and a number in at
    least three digits, greater than every number among the folders. *)
Lemma get_next_track_id_number (es : list (text * node)) (tf : option text) :
  exists n,
    get_next_track_id (Some (mkConductor (Some es) tf)) = track_id_of n
    /\ 1 <= n
    /\ forall name d k,
         In (name, Dir d) es -> track_number name = Some k -> k < n.
Proof.
  unfold get_next_track_id. cbn [tracks_dir_of tracks_dir].
  destruct (map fst (filter is_dir es)) as [|n0 ns] eqn:En.
  - exists 1. repeat split; auto. intros name d k Hin _.
    assert (H : In name (map fst (filter is_dir es)))
      by (apply in_dir_names; eauto).
    now rewrite En in H.
  - destruct (track_numbers (n0 :: ns)) as [|k0 ks] eqn:Ek.
    + exists 1. repeat split; auto. intros name d k Hin Hk.
      assert (H : In k (track_numbers (n0 :: ns))).
      { apply in_track_numbers. exists name. split; [|exact Hk].
        rewrite <- En. apply in_dir_names. eauto. }
      now rewrite Ek in H.
    + exists (list_max (k0 :: ks) + 1). repeat split; [lia|].
      intros name d k Hin Hk.
      assert (H : In k (k0 :: ks)).
      { rewrite <- Ek. apply in_track_numbers. exists name.
        split; [|exact Hk]. rewrite <- En. apply in_dir_names. eauto. }
      apply list_max_ge in H. lia.
Qed.

Lemma track_number_id (n : nat) : track_number (track_id_of n) = Some n.
Proof. apply track_number_fmt03. Qed.

(** X1: the id [get_next_track_id] returns never names a sub-directory
    that is already in the tracks directory, whatever the names there. *)
Theorem get_next_track_id_not_a_folder :
  forall (es : list (text * node)) (tf : option text) (d : TrackDir),
    ~ In (get_next_track_id (Some (mkConductor (Some es) tf)), Dir d) es.
Proof.
  intros es tf d Hin.
  destruct (get_next_track_id_number es tf) as (n & Hid & _ & Hlt).
  rewrite Hid in Hin. specialize (Hlt _ _ n Hin (track_number_id n)). lia.
Qed.

Lemma get_next_track_id_not_a_folder_witness :
  ~ In (get_next_track_id sample_store, Dir sample_track_dir)
      [(txt "track-001", Dir sample_track_dir);
       (txt "track-002", Dir sample_track_dir);
       (txt "track-003", Dir sample_track_dir)].
Proof.
  apply (@get_next_track_id_not_a_folder
           [(txt "track-001", Dir sample_track_dir);
            (txt "track-002", Dir sample_track_dir);
            (txt "track-003", Dir sample_track_dir)]
           (Some sample_registry) sample_track_dir).
Defined.

(** ** What [create_track] does to the store *)

Lemma lookup_none_names (name : text) (es : list (text * node)) :
  lookup name es = None -> ~ In name (map fst es).
Proof.
  induction es as [|[n y] es IH]; cbn [lookup map fst]; [tauto|].
  destruct (text_eqb n name) eqn:E; [discriminate|].
  intros H [Hn|Hin]; [|now apply IH].
  apply text_eqb_neq in E. congruence.
Qed.

Lemma lookup_next_id (es : list (text * node)) (tf : option text) :
  lookup (get_next_track_id (Some (mkConductor (Some es) tf))) es = None
  \/ lookup (get_next_track_id (Some (mkConductor (Some es) tf))) es
     = Some File.
Proof.
  destruct (lookup _ es) as [[|d]|] eqn:E; auto.
  apply lookup_in in E.
  destruct (get_next_track_id_number es tf) as (n & Hid & _ & Hlt).
  rewrite Hid in E. specialize (Hlt _ _ n E (track_number_id n)). lia.
Qed.

Lemma create_track_ok (es : list (text * node)) (tf : option text)
  (now description spec_content plan_content : text) :
  let st := Some (mkConductor (Some es) tf) in
  let track_id := get_next_track_id st in
  lookup track_id es = None ->
  create_track st now description spec_content plan_content
  = Ok (Some (mkConductor
                (Some (es ++ [(track_id,
                               Dir (mkTrackDir
                                      (Some (mkMetadata track_id description
                                               now (txt "pending")))
                                      (Some spec_content)
                                      (Some plan_content)))]))
                (Some (registry_base tf
                       ++ track_entry track_id description))),
        track_id).
Proof.
  intros st track_id Hl. unfold create_track. fold st. fold track_id.
  unfold st at 1. rewrite Hl.
  rewrite update_absent by now apply lookup_none_names.
  unfold add_track_to_registry. cbn [tracks_file_of tracks_file].
  now destruct tf.
Qed.

(** X2: [create_track] has three outcomes and no other: it raises
    [FileNotFoundError] exactly when the tracks directory is missing,
    [FileExistsError] exactly when a plain file has the name of the next
    id, and otherwise succeeds and returns the id that
    [get_next_track_id] gives. *)
Theorem create_track_outcomes :
  forall (st : Store) (now description spec_content plan_content : text),
    let outcome :=
      create_track st now description spec_content plan_content in
    (outcome = Raise FileNotFoundError <-> tracks_dir_of st = None)
    /\ (outcome = Raise FileExistsError <->
        exists es, tracks_dir_of st = Some es
                   /\ lookup (get_next_track_id st) es = Some File)
    /\ ((exists st', outcome = Ok (st', get_next_track_id st)) <->
        exists es, tracks_dir_of st = Some es
                   /\ lookup (get_next_track_id st) es = None)
    /\ outcome <> Raise ReError
    /\ (forall st' track_id,
          outcome = Ok (st', track_id) -> track_id = get_next_track_id st).
Proof.
  intros st now d sp pl outcome.
  destruct st as [[[es|] tf]|].
  - destruct (lookup_next_id es tf) as [Hl|Hl].
    + pose proof (@create_track_ok es tf now d sp pl Hl) as Hc.
      cbn zeta in Hc. fold outcome in Hc.
      cbn [tracks_dir_of tracks_dir]. rewrite Hc.
      repeat split; try discriminate.
      * intros (es' & [= <-] & H). congruence.
      * intros _. exists es. now split.
      * intros _. eauto.
      * intros st' tid [= _ <-]. reflexivity.
    + assert (Hc : outcome = Raise FileExistsError).
      { unfold outcome, create_track. now rewrite Hl. }
      cbn [tracks_dir_of tracks_dir]. rewrite Hc.
      repeat split; try discriminate.
      * intros _. exists es. now split.
      * intros [st' H]. discriminate.
      * intros (es' & [= <-] & H). congruence.
  - assert (Hc : outcome = Raise FileNotFoundError) by reflexivity.
    rewrite Hc. cbn [tracks_dir_of tracks_dir].
    repeat split; try discriminate; auto.
    + intros (es & H & _). discriminate.
    + intros [st' H]. discriminate.
    + intros (es & H & _). discriminate.
  - assert (Hc : outcome = Raise FileNotFoundError) by reflexivity.
    rewrite Hc. cbn [tracks_dir_of].
    repeat split; try discriminate; auto.
    + intros (es & H & _). discriminate.
    + intros [st' H]. discriminate.
    + intros (es & H & _). discriminate.
Qed.

Lemma create_track_outcomes_witness :
  create_track None (txt "t0") (txt "Login") (txt "# spec") (txt "# plan")
  = Raise FileNotFoundError
  /\ create_track blocked_store (txt "t0") (txt "Login") (txt "# spec")
       (txt "# plan") = Raise FileExistsError
  /\ exists st',
       create_track fresh_store (txt "t0") (txt "Login") (txt "# spec")
         (txt "# plan") = Ok (st', txt "track-001").
Proof.
  split; [|split].
  - apply (create_track_outcomes None (txt "t0") (txt "Login") (txt "# spec")
             (txt "# plan")). reflexivity.
  - apply (create_track_outcomes blocked_store (txt "t0") (txt "Login")
             (txt "# spec") (txt "# plan")).
    exists [(txt "track-001", File)]. split; reflexivity.
  - apply (create_track_outcomes fresh_store (txt "t0") (txt "Login")
             (txt "# spec") (txt "# plan")).
    exists []. split; reflexivity.
Defined.

Lemma create_track_inv (st : Store)
  (now description spec_content plan_content : text) (st' : Store)
  (track_id : text) :
  create_track st now description spec_content plan_content
  = Ok (st', track_id) ->
  exists es tf,
    st = Some (mkConductor (Some es) tf)
    /\ track_id = get_next_track_id st
    /\ lookup track_id es = None
    /\ st' = Some (mkConductor
                     (Some (es ++ [(track_id,
                                    Dir (mkTrackDir
                                           (Some (mkMetadata track_id
                                                    description now
                                                    (txt "pending")))
                                           (Some spec_content)
                                           (Some plan_content)))]))
                     (Some (registry_base tf
                            ++ track_entry track_id description))).
Proof.
  intros Hc. destruct st as [[[es|] tf]|]; try discriminate.
  exists es, tf. destruct (lookup_next_id es tf) as [Hl|Hl].
  - rewrite (@create_track_ok es tf now description spec_content plan_content
               Hl) in Hc.
    injection Hc as <- <-. auto.
  - unfold create_track in Hc. rewrite Hl in Hc. discriminate.
Qed.

Lemma lookup_snoc_new (name : text) (x : node) (es : list (text * node)) :
  lookup name es = None -> lookup name (es ++ [(name, x)]) = Some x.
Proof.
  intros H. rewrite <- (@update_absent name x es) by
    now apply lookup_none_names.
  apply lookup_update_same.
Qed.

Lemma lookup_snoc_other (name other : text) (x : node)
  (es : list (text * node)) :
  other <> name -> lookup other (es ++ [(name, x)]) = lookup other es.
Proof.
  intros Hne. induction es as [|[n y] es IH]; cbn [app lookup].
  - destruct (text_eqb name other) eqn:E; [|reflexivity].
    apply text_eqb_eq in E. congruence.
  - now rewrite IH.
Qed.

(** X3: what [create_track] wrote is read back by [load_track_context]
    under the id returned: the spec and the plan as given, when they have
    no carriage return, and the metadata with that id, the description,
    the creation time and the status ['pending']. *)
Theorem create_track_then_load_track_context :
  forall (st st' : Store) (now description spec_content plan_content : text)
         (track_id : text),
    no_cr spec_content = true ->
    no_cr plan_content = true ->
    create_track st now description spec_content plan_content
    = Ok (st', track_id) ->
    load_track_context st' track_id
    = mkTrackContext spec_content plan_content
        (Some (mkMetadata track_id description now (txt "pending"))).
Proof.
  intros st st' now d sp pl tid _ _ Hc.
  destruct (create_track_inv _ _ _ _ _ Hc) as (es & tf & -> & _ & Hl & ->).
  unfold load_track_context. cbn [tracks_dir_of tracks_dir].
  now rewrite lookup_snoc_new.
Qed.

Lemma create_track_then_load_track_context_witness :
  load_track_context
    (exec fresh_store
       (OpCreate (txt "t0") (txt "Login") (txt "# spec") (txt "# plan")))
    (txt "track-001")
  = mkTrackContext (txt "# spec") (txt "# plan")
      (Some (mkMetadata (txt "track-001") (txt "Login") (txt "t0")
               (txt "pending"))).
Proof.
  apply (@create_track_then_load_track_context fresh_store).
  - reflexivity.
  - reflexivity.
  - vm_compute. reflexivity.
Defined.

(** X4: [create_track] leaves what was there: the context of every
    other track, looked up under the name of its folder, reads as
    before, and the registry is the former text (or the header, when
    there was no registry) with the new entry appended (for a
    description without carriage return). *)
Theorem create_track_preserves_the_rest :
  forall (st st' : Store) (now description spec_content plan_content : text)
         (track_id : text),
    create_track st now description spec_content plan_content
    = Ok (st', track_id) ->
    (forall other, entry_name other = true -> other <> track_id ->
                   load_track_context st' other = load_track_context st other)
    /\ (no_cr description = true ->
        tracks_file_of st'
        = Some (registry_base (tracks_file_of st)
                ++ track_entry track_id description)).
Proof.
  intros st st' now d sp pl tid Hc.
  destruct (create_track_inv _ _ _ _ _ Hc) as (es & tf & -> & _ & Hl & ->).
  split; [|reflexivity].
  intros other _ Hne. unfold load_track_context.
  cbn [tracks_dir_of tracks_dir]. now rewrite lookup_snoc_other.
Qed.

Lemma create_track_preserves_the_rest_witness :
  let st' :=
    exec sample_store
      (OpCreate (txt "t0") (txt "Search") (txt "# spec") (txt "# plan")) in
  load_track_context st' (txt "track-001")
  = load_track_context sample_store (txt "track-001")
  /\ tracks_file_of st'
     = Some (sample_registry ++ track_entry (txt "track-004") (txt "Search")).
Proof.
  intros st'.
  destruct (@create_track_preserves_the_rest sample_store st' (txt "t0")
              (txt "Search") (txt "# spec") (txt "# plan") (txt "track-004"))
    as [Hctx Hreg].
  - vm_compute. reflexivity.
  - split; [apply Hctx; [reflexivity|discriminate]|apply Hreg; reflexivity].
Defined.

Lemma track_numbers_app (l1 l2 : list text) :
  track_numbers (l1 ++ l2) = track_numbers l1 ++ track_numbers l2.
Proof. unfold track_numbers. apply flat_map_app. Qed.

Lemma get_next_track_id_after (es : list (text * node)) (tf tf' : option text)
  (n : nat) (d : TrackDir) :
  (forall name d' k,
      In (name, Dir d') es -> track_number name = Some k -> k < n) ->
  get_next_track_id
    (Some (mkConductor (Some (es ++ [(track_id_of n, Dir d)])) tf'))
  = track_id_of (S n).
Proof.
  intros Hlt. unfold get_next_track_id. cbn [tracks_dir_of tracks_dir].
  rewrite filter_app, map_app. cbn [filter is_dir snd map fst].
  destruct (map fst (filter is_dir es) ++ [track_id_of n]) eqn:En;
    [now apply app_eq_nil in En as [_ En]|].
  rewrite <- En. rewrite track_numbers_app.
  assert (Hn : track_numbers [track_id_of n] = [n]).
  { unfold track_numbers. cbn [flat_map]. now rewrite track_number_id. }
  rewrite Hn.
  destruct (track_numbers (map fst (filter is_dir es)) ++ [n]) eqn:Ek;
    [now apply app_eq_nil in Ek as [_ Ek]|].
  rewrite <- Ek. rewrite list_max_app. cbn [list_max fold_right].
  assert (Hmax : list_max (track_numbers (map fst (filter is_dir es))) <= n).
  { apply list_max_le. apply Forall_forall. intros k Hk.
    apply in_track_numbers in Hk as (name & Hname & Hk).
    apply in_dir_names in Hname as [d' Hin].
    specialize (Hlt _ _ _ Hin Hk). lia. }
  replace (Nat.max _ (Nat.max n 0) + 1) with (S n) by lia. reflexivity.
Qed.

(** X5: on any tracks directory, whatever the names in it, the id
    [create_track] returns is [track-] and a number [n] in at least three
    digits, and the id the next call will take is the one of [n + 1]: ids
    are handed out in strictly increasing order and never twice. *)
Theorem create_track_ids_increase :
  forall (st st' : Store) (now description spec_content plan_content : text)
         (track_id : text),
    create_track st now description spec_content plan_content
    = Ok (st', track_id) ->
    exists n,
      track_id = track_id_of n
      /\ 1 <= n
      /\ get_next_track_id st' = track_id_of (S n)
      /\ forall now2 description2 spec2 plan2 st'' track_id2,
           create_track st' now2 description2 spec2 plan2
           = Ok (st'', track_id2) ->
           track_id2 = track_id_of (S n) /\ track_id2 <> track_id.
Proof.
  intros st st' now d sp pl tid Hc.
  destruct (create_track_inv _ _ _ _ _ Hc) as (es & tf & -> & Hid & Hl & ->).
  destruct (get_next_track_id_number es tf) as (n & Hn & H1 & Hlt).
  rewrite Hn in Hid. subst tid. exists n.
  assert (Hnext : get_next_track_id
                    (Some (mkConductor
                             (Some (es ++ [(track_id_of n,
                                            Dir (mkTrackDir
                                                   (Some (mkMetadata
                                                            (track_id_of n) d
                                                            now
                                                            (txt "pending")))
                                                   (Some sp) (Some pl)))]))
                             (Some (registry_base tf
                                    ++ track_entry (track_id_of n) d))))
                  = track_id_of (S n))
    by (now apply get_next_track_id_after).
  split; [reflexivity|]. split; [exact H1|]. split; [exact Hnext|].
  intros now2 d2 sp2 pl2 st'' tid2 Hc2.
  destruct (create_track_inv _ _ _ _ _ Hc2) as (? & ? & _ & -> & _).
  rewrite Hnext. split; [reflexivity|].
  intros E. apply track_id_of_inj in E. lia.
Qed.

Lemma create_track_ids_increase_witness :
  exists n,
    txt "track-004" = track_id_of n
    /\ 1 <= n
    /\ get_next_track_id
         (exec sample_store
            (OpCreate (txt "t0") (txt "Search") (txt "# spec")
               (txt "# plan")))
       = track_id_of (S n).
Proof.
  destruct (@create_track_ids_increase sample_store
              (exec sample_store
                 (OpCreate (txt "t0") (txt "Search") (txt "# spec")
                    (txt "# plan")))
              (txt "t0") (txt "Search") (txt "# spec") (txt "# plan")
              (txt "track-004"))
    as (n & Hn & H1 & Hnext & _).
  - vm_compute. reflexivity.
  - exists n. auto.
Defined.

(** ** What the status updates leave alone *)

Lemma write_tracks_file_dir (st st' : Store) (content : text) :
  write_tracks_file st content = Ok st' ->
  tracks_dir_of st' = tracks_dir_of st
  /\ tracks_file_of st' = Some content.
Proof.
  destruct st as [c|]; [|discriminate]. cbn [write_tracks_file].
  intros [= <-]. now split.
Qed.

Lemma update_track_status_dir (st st' : Store) (track_id new_status : text) :
  update_track_status st track_id new_status = Ok st' ->
  tracks_dir_of st' = tracks_dir_of st.
Proof.
  unfold update_track_status.
  destruct (tracks_file_of st); [|discriminate].
  destruct (get_track_by_id st track_id); [|now intros [= <-]].
  destruct (re_sub _ _ _); [|discriminate].
  intros H. now apply write_tracks_file_dir in H.
Qed.

(** X6: [update_track_status] changes nothing under the tracks
    directory: after it every track context (spec, plan and metadata,
    whose status field therefore keeps the value it was created with),
    every parsed plan and the next track id are as before. *)
Theorem update_track_status_keeps_track_folders :
  forall (st st' : Store) (track_id new_status : text),
    update_track_status st track_id new_status = Ok st' ->
    (forall tid, load_track_context st' tid = load_track_context st tid)
    /\ (forall tid, parse_plan st' tid = parse_plan st tid)
    /\ get_next_track_id st' = get_next_track_id st.
Proof.
  intros st st' track_id new_status H.
  apply update_track_status_dir in H.
  unfold load_track_context, parse_plan, plan_file_of, get_next_track_id.
  rewrite H. repeat split.
Qed.

Lemma update_track_status_keeps_track_folders_witness :
  load_track_context
    (exec sample_store (OpUpdateTrack (txt "track-002") (txt "completed")))
    (txt "track-002")
  = load_track_context sample_store (txt "track-002").
Proof.
  apply (@update_track_status_keeps_track_folders sample_store
           (exec sample_store
              (OpUpdateTrack (txt "track-002") (txt "completed")))
           (txt "track-002") (txt "completed")).
  vm_compute. reflexivity.
Defined.

Lemma update_present_dirs (name : text) (d d' : TrackDir)
  (es : list (text * node)) :
  lookup name es = Some (Dir d) ->
  map fst (filter is_dir (update name (Dir d') es))
  = map fst (filter is_dir es).
Proof.
  induction es as [|[n z] es IH]; [discriminate|]. cbn [lookup update].
  destruct (text_eqb n name) eqn:E.
  - intros [= ->]. reflexivity.
  - intros H. cbn [filter]. destruct (is_dir (n, z)); cbn [map fst];
      now rewrite IH.
Qed.

Lemma update_task_status_inv (st st' : Store)
  (track_id task_description new_status : text) :
  update_task_status st track_id task_description new_status = Ok st' ->
  st' = st
  \/ exists es tf d content',
       st = Some (mkConductor (Some es) tf)
       /\ lookup track_id es = Some (Dir d)
       /\ st' = Some (mkConductor
                        (Some (update track_id
                                 (Dir (mkTrackDir (metadata_json d)
                                         (spec_md d) (Some content'))) es))
                        tf).
Proof.
  unfold update_task_status.
  destruct (plan_file_of st track_id) as [content|] eqn:Hp;
    [|intros [= <-]; now left].
  destruct (re_sub _ _ content) as [content'|]; [|discriminate].
  unfold write_plan_file. destruct st as [[[es|] tf]|]; try discriminate.
  destruct (lookup track_id es) as [[|d]|] eqn:Hl; try discriminate.
  intros [= <-]. right. now exists es, tf, d, content'.
Qed.

(** X7: [update_task_status], given a track by the name of its folder,
    changes nothing but the plan of that track: the registry, the context
    of every other track (looked up under the name of its folder), the
    spec and the metadata of that track and the next track id are as
    before. *)
Theorem update_task_status_keeps_the_rest :
  forall (st st' : Store) (track_id task_description new_status : text),
    entry_name track_id = true ->
    update_task_status st track_id task_description new_status = Ok st' ->
    tracks_file_of st' = tracks_file_of st
    /\ (forall other, entry_name other = true -> other <> track_id ->
          load_track_context st' other = load_track_context st other)
    /\ ctx_spec (load_track_context st' track_id)
       = ctx_spec (load_track_context st track_id)
    /\ ctx_metadata (load_track_context st' track_id)
       = ctx_metadata (load_track_context st track_id)
    /\ get_next_track_id st' = get_next_track_id st.
Proof.
  intros st st' tid td s _ H.
  destruct (update_task_status_inv _ _ _ _ H)
    as [->|(es & tf & d & c' & -> & Hl & ->)]; [repeat split|].
  split; [reflexivity|]. split; [|split; [|split]].
  - intros other _ Hne. unfold load_track_context.
    cbn [tracks_dir_of tracks_dir]. now rewrite lookup_update_other.
  - unfold load_track_context. cbn [tracks_dir_of tracks_dir].
    now rewrite lookup_update_same, Hl.
  - unfold load_track_context. cbn [tracks_dir_of tracks_dir].
    now rewrite lookup_update_same, Hl.
  - unfold get_next_track_id. cbn [tracks_dir_of tracks_dir].
    now rewrite (@update_present_dirs tid d _ es Hl).
Qed.

Lemma update_task_status_keeps_the_rest_witness :
  let st' :=
    exec sample_store
      (OpUpdateTask (txt "track-001") (txt "Create User model")
         (txt "pending")) in
  tracks_file_of st' = tracks_file_of sample_store
  /\ load_track_context st' (txt "track-002")
     = load_track_context sample_store (txt "track-002")
  /\ ctx_plan (load_track_context st' (txt "track-001"))
     <> ctx_plan (load_track_context sample_store (txt "track-001")).
Proof.
  intros st'.
  destruct (@update_task_status_keeps_the_rest sample_store st'
              (txt "track-001") (txt "Create User model") (txt "pending"))
    as (Hf & Hother & _).
  - reflexivity.
  - vm_compute. reflexivity.
  - split; [exact Hf|]. split; [apply Hother; [reflexivity|discriminate]|].
    vm_compute. discriminate.
Defined.

(** ** Stores driven by any sequence of calls *)

Lemma update_present_names (name : text) (x y : node)
  (es : list (text * node)) :
  lookup name es = Some x ->
  map fst (update name y es) = map fst es.
Proof.
  induction es as [|[n z] es IH]; [discriminate|]. cbn [lookup update].
  destruct (text_eqb n name) eqn:E; [reflexivity|].
  intros H. cbn [map fst]. now rewrite IH.
Qed.

Lemma update_present_forall (P : text * node -> Prop) (name : text)
  (x y : node) (es : list (text * node)) :
  lookup name es = Some x -> P (name, y) -> Forall P es ->
  Forall P (update name y es).
Proof.
  intros Hl Hy H. induction H as [|[n z] es Hz Hes IH]; [discriminate|].
  cbn [lookup update] in *. destruct (text_eqb n name) eqn:E.
  - apply text_eqb_eq in E as ->. now constructor.
  - constructor; auto.
Qed.

Lemma update_present_all_dirs (name : text) (d : TrackDir)
  (es : list (text * node)) :
  forallb is_dir es = true ->
  forallb is_dir (update name (Dir d) es) = true.
Proof.
  induction es as [|[n z] es IH]; [reflexivity|]. cbn [update forallb].
  intros H. apply andb_true_iff in H as [Hz Hes].
  destruct (text_eqb n name); cbn [forallb]; [now rewrite Hes|].
  now rewrite Hz, IH.
Qed.

Lemma update_track_status_inv (st st' : Store) (track_id new_status : text) :
  update_track_status st track_id new_status = Ok st' ->
  st' = st
  \/ exists c content',
       st = Some c /\ tracks_file c <> None
       /\ st' = Some (mkConductor (tracks_dir c) (Some content')).
Proof.
  unfold update_track_status.
  destruct (tracks_file_of st) eqn:Hf; [|discriminate].
  destruct (get_track_by_id st track_id); [|intros [= <-]; now left].
  destruct (re_sub _ _ _) as [content'|]; [|discriminate].
  destruct st as [c|]; [|discriminate]. cbn [write_tracks_file].
  intros [= <-]. right. exists c, content'. repeat split.
  cbn [tracks_file_of] in Hf. congruence.
Qed.

Lemma exec_tidy (st : Store) (k : nat) (o : op) :
  tidy st k ->
  exists k', tidy (exec st o) k'
             /\ (k' = k
                 \/ k' = S k
                    /\ exists now d sp pl, o = OpCreate now d sp pl).
Proof.
  intros Ht. unfold exec. destruct o as [|now d sp pl|tid s|tid td s];
    cbn [apply_op].
  - (* init *)
    exists k. split; [|now left]. destruct st as [c|]; cbn [tidy] in *.
    + destruct Ht as (es & He & Hf & Hd & Hok).
      exists es. cbn [init_conductor_structure tracks_dir tracks_file].
      rewrite He. split; [reflexivity|]. split; [discriminate|].
      split; assumption.
    + subst k. exists []. split; [reflexivity|]. split; [discriminate|].
      split; [split; reflexivity|constructor].
  - (* create_track *)
    destruct (create_track st now d sp pl) as [[st' id]|e] eqn:Hc;
      [|exists k; split; [exact Ht|now left]].
    destruct (create_track_inv _ _ _ _ _ Hc) as (es & tf & -> & Hid & Hl & ->).
    cbn [tidy] in Ht. destruct Ht as (es0 & He & Hf & Hd & Hok).
    cbn [tracks_dir] in He. injection He as <-.
    rewrite (get_next_track_id_upto tf Hd) in Hid. subst id.
    exists (S k). split; [|right; split; eauto].
    cbn [tidy]. eexists. split; [reflexivity|].
    split; [discriminate|]. split.
    + destruct Hd as [Hn Hdirs]. split.
      * rewrite map_app, Hn, seq_S, map_app. reflexivity.
      * rewrite forallb_app, Hdirs. reflexivity.
    + apply Forall_app. split; [exact Hok|].
      constructor; [|constructor]. cbn [folder_ok snd fst].
      repeat split; try discriminate. eexists. repeat split.
  - (* update_track_status *)
    destruct (update_track_status st tid s) as [st'|e] eqn:Hu;
      [|exists k; split; [exact Ht|now left]].
    exists k. split; [|now left].
    destruct (update_track_status_inv _ _ _ Hu)
      as [->|(c & content' & -> & _ & ->)]; [exact Ht|].
    cbn [tidy] in *. destruct Ht as (es & He & Hf & Hd & Hok).
    exists es. split; [exact He|]. split; [discriminate|].
    split; assumption.
  - (* update_task_status *)
    destruct (update_task_status st tid td s) as [st'|e] eqn:Hu;
      [|exists k; split; [exact Ht|now left]].
    exists k. split; [|now left].
    destruct (update_task_status_inv _ _ _ _ Hu)
      as [->|(es & tf & d0 & c' & -> & Hl & ->)]; [exact Ht|].
    cbn [tidy] in *. destruct Ht as (es0 & He & Hf & Hd & Hok).
    cbn [tracks_dir tracks_file] in *. injection He as <-.
    eexists. split; [reflexivity|]. split; [exact Hf|].
    destruct Hd as [Hn Hdirs]. split; [split|].
    + now rewrite (@update_present_names tid (Dir d0) _ es Hl).
    + now apply update_present_all_dirs.
    + apply (@update_present_forall folder_ok tid (Dir d0) _ es Hl);
        [|exact Hok].
      rewrite Forall_forall in Hok. specialize (Hok _ (lookup_in _ _ Hl)).
      cbn [folder_ok snd fst] in *. destruct Hok as (Hm & Hs & _).
      repeat split; auto. discriminate.
Qed.

Lemma run_tidy (ops : list op) (st : Store) (k : nat) :
  tidy st k ->
  exists k', tidy (run st ops) k' /\ k <= k' <= k + creates ops.
Proof.
  revert st k. induction ops as [|o ops IH]; intros st k Ht.
  - exists k. split; [exact Ht|]. unfold creates. cbn [filter length]. lia.
  - destruct (@exec_tidy st k o Ht) as (k1 & Ht1 & Hk1).
    destruct (IH _ _ Ht1) as (k2 & Ht2 & Hk2).
    exists k2. split; [exact Ht2|]. unfold creates in *. cbn [filter].
    destruct Hk1 as [->|(-> & now & d & sp & pl & ->)].
    + destruct o; cbn [length]; lia.
    + cbn [length]. lia.
Qed.

Lemma tidy_next_id (st : Store) (k : nat) :
  tidy st k -> get_next_track_id st = track_id_of (S k).
Proof.
  destruct st as [[dir tf]|]; cbn [tidy].
  - intros (es & He & _ & Hd & _). cbn [tracks_dir] in He. subst dir.
    now apply get_next_track_id_upto.
  - intros ->. reflexivity.
Qed.

Lemma lookup_of_name (name : text) (es : list (text * node)) :
  In name (map fst es) -> exists x, lookup name es = Some x.
Proof.
  induction es as [|[n y] es IH]; [intros []|]. cbn [map fst lookup].
  destruct (text_eqb n name) eqn:E; [eauto|].
  intros [Hn|Hin]; [|now apply IH].
  apply text_eqb_neq in E. congruence.
Qed.

Lemma tidy_metadata (st : Store) (k i : nat) :
  tidy st k -> 1 <= i <= k ->
  exists m,
    ctx_metadata (load_track_context st (track_id_of i)) = Some m
    /\ md_id m = track_id_of i /\ md_status m = txt "pending".
Proof.
  destruct st as [[dir tf]|]; cbn [tidy]; [|lia].
  intros (es & He & _ & [Hn _] & Hok) Hi. cbn [tracks_dir] in He. subst dir.
  assert (Hin : In (track_id_of i) (map fst es)).
  { rewrite Hn. apply in_map. apply in_seq. lia. }
  destruct (lookup_of_name _ _ Hin) as [x Hl].
  rewrite Forall_forall in Hok. specialize (Hok _ (lookup_in _ _ Hl)).
  unfold load_track_context. cbn [tracks_dir_of tracks_dir]. rewrite Hl.
  destruct x as [|d]; cbn [folder_ok snd fst] in Hok; [contradiction|].
  destruct Hok as ((m & Hm & Hid & Hs) & _). exists m. now repeat split.
Qed.

(** X8: in a project driven from nothing by any sequence of
    [init_conductor_structure], [create_track], [update_track_status] and
    [update_task_status] calls (those that raise leaving it as it was),
    the track folders are exactly [track-001] to [track-k] with [k] at
    most the number of [create_track] calls, the next id is that of
    [k + 1], and the metadata of each folder still records its own id and
    the status ['pending'], whatever status updates were made. *)
Theorem track_folders_stay_sequential :
  forall (ops : list op),
    exists k,
      k <= creates ops
      /\ tidy (run None ops) k
      /\ get_next_track_id (run None ops) = track_id_of (S k)
      /\ (forall i, 1 <= i <= k ->
            exists m,
              ctx_metadata (load_track_context (run None ops) (track_id_of i))
              = Some m
              /\ md_id m = track_id_of i /\ md_status m = txt "pending").
Proof.
  intros ops. destruct (@run_tidy ops None 0 eq_refl) as (k & Ht & Hk).
  exists k. split; [lia|]. split; [exact Ht|].
  split; [now apply tidy_next_id|]. intros i Hi. now apply (@tidy_metadata _ k).
Qed.

Lemma track_folders_stay_sequential_witness :
  let ops :=
    [OpInit;
     OpCreate (txt "t0") (txt "Login") (txt "# spec") (txt "# plan");
     OpUpdateTrack (txt "track-001") (txt "completed");
     OpCreate (txt "t1") (txt "Signup") (txt "# spec") (txt "# plan")] in
  map tr_status (parse_tracks (run None ops)) = [Completed; Pending]
  /\ exists m,
       ctx_metadata (load_track_context (run None ops) (txt "track-001"))
       = Some m
       /\ md_status m = txt "pending".
Proof.
  intros ops. split; [vm_compute; reflexivity|].
  destruct (track_folders_stay_sequential ops) as (k & _ & _ & Hnext & Hmeta).
  assert (Hk : k = 2).
  { change (get_next_track_id (run None ops)) with (track_id_of 3) in Hnext.
    apply track_id_of_inj in Hnext. lia. }
  destruct (Hmeta 1) as (m & Hm & _ & Hs); [lia|].
  exists m. split; [exact Hm|exact Hs].
Defined.

(** ** Project status *)

Lemma count_status_partition (tracks : list Track) :
  length tracks
  = count_status Completed tracks + count_status InProgress tracks
    + count_status Pending tracks.
Proof.
  unfold count_status. induction tracks as [|t tracks IH]; [reflexivity|].
  cbn [filter length]. destruct (tr_status t); cbn [Status_eqb length]; lia.
Qed.

(** X9: in the status [get_project_status] reports, the numbers of
    completed, in-progress and pending tracks add up to the total, which
    is the number of tracks listed, the tracks [parse_tracks] returns;
    without a registry file all counts are zero and the list is empty. *)
Theorem get_project_status_counts :
  forall (st : Store),
    let ps := get_project_status st in
    ps_total_tracks ps = ps_completed ps + ps_in_progress ps + ps_pending ps
    /\ ps_total_tracks ps = length (ps_tracks ps)
    /\ ps_tracks ps = parse_tracks st
    /\ (tracks_file_of st = None -> ps = mkProjectStatus 0 0 0 0 []).
Proof.
  intros st ps. unfold ps, get_project_status.
  cbn [ps_total_tracks ps_completed ps_in_progress ps_pending ps_tracks].
  split; [apply count_status_partition|]. split; [reflexivity|].
  split; [reflexivity|].
  intros Hf. unfold parse_tracks. now rewrite Hf.
Qed.

Lemma get_project_status_counts_witness :
  get_project_status sample_store
  = mkProjectStatus 3 1 1 1 (parse_tracks sample_store)
  /\ get_project_status store_without_registry = mkProjectStatus 0 0 0 0 [].
Proof.
  split; [vm_compute; reflexivity|].
  apply (get_project_status_counts store_without_registry). reflexivity.
Defined.

(** ** The registry and the track folders agree *)

Lemma agrees_names (es : list (text * node)) (rows : list Row) :
  Forall2 agrees es rows ->
  map fst es = map track_id_of (map row_num rows)
  /\ forallb is_dir es = true.
Proof.
  induction 1 as [|e r es rows (Hn & d & m & Hd & _) H IH]; [now split|].
  destruct IH as [IHn IHd]. cbn [map forallb]. split; [congruence|].
  unfold is_dir at 1. now rewrite Hd, IHd.
Qed.

Lemma agrees_update (name : text) (d d' : TrackDir)
  (es : list (text * node)) (rows : list Row) :
  lookup name es = Some (Dir d) ->
  metadata_json d' = metadata_json d ->
  Forall2 agrees es rows ->
  Forall2 agrees (update name (Dir d') es) rows.
Proof.
  intros Hl Hm H. induction H as [|[n z] r es rows Ha H IH]; [discriminate|].
  cbn [lookup update] in *. destruct (text_eqb n name) eqn:E.
  - injection Hl as ->. constructor; [|exact H].
    destruct Ha as (Hn & d0 & m & [= <-] & Hmd & Hid & Hdesc).
    split; [exact Hn|]. exists d', m. cbn [snd fst] in *.
    repeat split; congruence.
  - constructor; [exact Ha|now apply IH].
Qed.

Lemma agrees_update_rows (d : text) (c : ascii) (es : list (text * node))
  (rows : list Row) :
  Forall2 agrees es rows ->
  Forall2 agrees es (map (update_row d c) rows).
Proof.
  induction 1 as [|e r es rows Ha H IH]; cbn [map]; constructor; [|exact IH].
  unfold agrees, update_row in *.
  now destruct (prefixb d (row_description r)).
Qed.

Lemma row_num_update_rows (d : text) (c : ascii) (rows : list Row) :
  map row_num (map (update_row d c) rows) = map row_num rows.
Proof.
  rewrite map_map. apply map_ext. intros r. unfold update_row.
  now destruct (prefixb d (row_description r)).
Qed.

Lemma exec_in_sync (st : Store) (o : op) :
  safe_op o = true -> in_sync st -> in_sync (exec st o).
Proof.
  intros Ho Hs. unfold exec.
  destruct o as [|now d sp pl|tid s|tid td s]; cbn [apply_op].
  - (* init *)
    destruct st as [c|]; cbn [in_sync init_conductor_structure] in *.
    + destruct Hs as (es & rows & He & Hf & Hrows & Hnum & Ha).
      exists es, rows. cbn [tracks_dir tracks_file]. rewrite He, Hf.
      split; [reflexivity|]. split; [reflexivity|].
      split; [exact Hrows|]. split; [exact Hnum|exact Ha].
    + exists [], []. split; [reflexivity|]. split; [reflexivity|].
      split; [constructor|]. split; [reflexivity|constructor].
  - (* create_track *)
    destruct (create_track st now d sp pl) as [[st' id]|e] eqn:Hc;
      [|exact Hs].
    destruct (create_track_inv _ _ _ _ _ Hc) as (es & tf & -> & Hid & Hl & ->).
    cbn [in_sync] in Hs.
    destruct Hs as (es0 & rows & He & Hf & Hrows & Hnum & Ha).
    cbn [tracks_dir tracks_file] in He, Hf. injection He as <-. subst tf.
    destruct (agrees_names Ha) as [Hn Hd]. rewrite Hnum in Hn.
    assert (Hup : dirs_upto es (length rows)) by (split; assumption).
    rewrite (get_next_track_id_upto _ Hup) in Hid. subst id.
    cbn [in_sync].
    eexists _, (rows ++ [mkRow " " (S (length rows)) d]).
    cbn [tracks_dir tracks_file registry_base].
    split; [reflexivity|]. split; [|split; [|split]].
    + f_equal.
      change (track_entry (track_id_of (S (length rows))) d)
        with (row_entry (mkRow " " (S (length rows)) d)).
      apply registry_snoc.
    + apply Forall_app. split; [exact Hrows|].
      constructor; [|constructor]. unfold safe_row.
      cbn [row_marker row_description]. cbn [safe_op] in Ho.
      apply andb_true_iff in Ho as [Ho _]. now rewrite Ho.
    + rewrite map_app, Hnum, length_app. cbn [map length row_num].
      now rewrite Nat.add_1_r, seq_S.
    + apply Forall2_app; [exact Ha|]. constructor; [|constructor].
      split; [reflexivity|]. eexists _, _. cbn [snd fst metadata_json].
      split; [reflexivity|]. split; [reflexivity|]. split; reflexivity.
  - (* update_track_status *)
    destruct (update_track_status st tid s) as [st'|e] eqn:Hu; [|exact Hs].
    destruct st as [c|]; [|discriminate]. cbn [in_sync] in *.
    destruct Hs as (es & rows & He & Hf & Hrows & Hnum & Ha).
    destruct (find (row_has_id tid) rows) as [r0|] eqn:Hfind.
    + rewrite (@update_track_status_registry c header_init rows tid s r0
                 Hf eq_refl Hrows Hfind) in Hu.
      injection Hu as <-.
      exists es, (map (update_row (row_description r0)
                         (marker_of_status_name s)) rows).
      cbn [tracks_dir tracks_file].
      split; [exact He|]. split; [reflexivity|]. split; [|split].
      * apply update_safe_rows;
          [apply marker_of_status_name_marker|exact Hrows].
      * now rewrite row_num_update_rows, length_map.
      * now apply agrees_update_rows.
    + unfold update_track_status in Hu. cbn [tracks_file_of] in Hu.
      rewrite Hf in Hu.
      rewrite (@get_track_by_id_registry c header_init rows tid
                 Hf eq_refl Hrows), Hfind in Hu.
      cbn [option_map] in Hu. injection Hu as <-.
      exists es, rows. split; [exact He|]. split; [exact Hf|].
      split; [exact Hrows|]. split; [exact Hnum|exact Ha].
  - (* update_task_status *)
    destruct (update_task_status st tid td s) as [st'|e] eqn:Hu; [|exact Hs].
    destruct (update_task_status_inv _ _ _ _ Hu)
      as [->|(es & tf & d0 & c' & -> & Hl & ->)]; [exact Hs|].
    cbn [in_sync] in *.
    destruct Hs as (es0 & rows & He & Hf & Hrows & Hnum & Ha).
    cbn [tracks_dir tracks_file] in *. injection He as <-.
    eexists _, rows. split; [reflexivity|]. split; [exact Hf|].
    split; [exact Hrows|]. split; [exact Hnum|].
    now apply (@agrees_update tid d0).
Qed.

Lemma run_in_sync (ops : list op) (st : Store) :
  forallb safe_op ops = true -> in_sync st -> in_sync (run st ops).
Proof.
  revert st. induction ops as [|o ops IH]; intros st Ho Hs; [exact Hs|].
  cbn [forallb] in Ho. apply andb_true_iff in Ho as [Ho Hops].
  cbn [run fold_left]. apply IH; [exact Hops|]. now apply exec_in_sync.
Qed.

Lemma track_ids_nodup (l : list nat) :
  NoDup l -> NoDup (map track_id_of l).
Proof.
  induction 1 as [|n l Hn H IH]; cbn [map]; constructor; [|exact IH].
  intros Hin. apply in_map_iff in Hin as (i & Hi & Hin).
  apply track_id_of_inj in Hi. congruence.
Qed.

Lemma find_by_id_nodup (l : list Track) (t : Track) :
  NoDup (map tr_id l) -> In t l ->
  find (fun u => text_eqb (tr_id u) (tr_id t)) l = Some t.
Proof.
  induction l as [|u l IH]; intros Hnd Hin; [destruct Hin|].
  cbn [map] in Hnd. inversion Hnd as [|x xs Hu Hl]; subst.
  cbn [find]. destruct Hin as [->|Hin].
  - now rewrite text_eqb_refl.
  - destruct (text_eqb (tr_id u) (tr_id t)) eqn:E; [|now apply IH].
    apply text_eqb_eq in E. exfalso. apply Hu. rewrite E. now apply in_map.
Qed.

Lemma lookup_nodup (es : list (text * node)) (e : text * node) :
  NoDup (map fst es) -> In e es -> lookup (fst e) es = Some (snd e).
Proof.
  induction es as [|[n x] es IH]; intros Hnd Hin; [destruct Hin|].
  cbn [map fst] in Hnd. inversion Hnd as [|y ys Hn Hl]; subst.
  cbn [lookup]. destruct Hin as [<-|Hin].
  - cbn [fst snd]. now rewrite text_eqb_refl.
  - destruct (text_eqb n (fst e)) eqn:E; [|now apply IH].
    apply text_eqb_eq in E. exfalso. apply Hn. rewrite E. now apply in_map.
Qed.

Lemma agrees_in (es : list (text * node)) (rows : list Row) (r : Row) :
  Forall2 agrees es rows -> In r rows -> exists e, In e es /\ agrees e r.
Proof.
  induction 1 as [|e r' es rows Ha H IH]; intros Hin; [destruct Hin|].
  destruct Hin as [->|Hin].
  - exists e. split; [now left|exact Ha].
  - destruct (IH Hin) as (e' & He' & Ha'). exists e'. split; [now right|auto].
Qed.

(** What a store in sync answers. *)
Lemma in_sync_answers (c : Conductor) :
  in_sync (Some c) ->
  exists k,
    map tr_id (parse_tracks (Some c)) = map track_id_of (seq 1 k)
    /\ get_next_track_id (Some c) = track_id_of (S k)
    /\ (forall t, In t (parse_tracks (Some c)) ->
          get_track_by_id (Some c) (tr_id t) = Some t
          /\ tr_folder t = txt "conductor/tracks/" ++ tr_id t
          /\ exists m,
               ctx_metadata (load_track_context (Some c) (tr_id t)) = Some m
               /\ md_id m = tr_id t
               /\ md_description m = tr_description t).
Proof.
  intros (es & rows & He & Hf & Hrows & Hnum & Ha).
  destruct c as [dir tf]. cbn [tracks_dir tracks_file] in He, Hf. subst dir tf.
  destruct (agrees_names Ha) as [Hn Hd]. rewrite Hnum in Hn.
  assert (Hp : parse_tracks
                 (Some (mkConductor (Some es)
                          (Some (registry_of header_init rows))))
               = map track_of_row rows).
  { unfold parse_tracks. cbn [tracks_file_of tracks_file].
    apply parse_registry; [reflexivity|].
    eapply Forall_impl; [|exact Hrows]. apply safe_row_plain. }
  assert (Hids : map tr_id (map track_of_row rows)
                 = map track_id_of (seq 1 (length rows))).
  { rewrite <- Hnum, !map_map. reflexivity. }
  exists (length rows). rewrite Hp. split; [exact Hids|].
  split; [apply get_next_track_id_upto; now split|].
  intros t Hin. split; [|split].
  - unfold get_track_by_id. rewrite Hp. apply find_by_id_nodup; [|exact Hin].
    rewrite Hids. apply track_ids_nodup, seq_NoDup.
  - apply in_map_iff in Hin as (r & <- & _). reflexivity.
  - apply in_map_iff in Hin as (r & <- & Hr).
    destruct (@agrees_in es rows r Ha Hr) as (e & He & Hname & d & m & Hdir & Hm & Hid
                                   & Hdesc).
    exists m. cbn [track_of_row tr_id tr_description].
    unfold load_track_context. cbn [tracks_dir_of tracks_dir].
    rewrite <- Hname, (@lookup_nodup es e), Hdir; [now repeat split| |exact He].
    rewrite Hn. apply track_ids_nodup, seq_NoDup.
Qed.

(** X10: in a project driven from nothing by any sequence of
    [init_conductor_structure], [create_track], [update_track_status] and
    [update_task_status] calls in which the descriptions of the tracks
    created are safe (plain, without [##] and without backslash) and
    have no carriage return, the
    registry and the track folders agree: the tracks [parse_tracks]
    returns have the ids [track-001] to [track-k] in order, the next id
    is that of [k + 1], and every track listed is the one
    [get_track_by_id] finds under its id, points to its folder, and has a
    folder whose metadata records the same id and description. *)
Theorem registry_and_folders_agree :
  forall (ops : list op),
    forallb safe_op ops = true ->
    let st := run None ops in
    exists k,
      map tr_id (parse_tracks st) = map track_id_of (seq 1 k)
      /\ get_next_track_id st = track_id_of (S k)
      /\ (forall t, In t (parse_tracks st) ->
            get_track_by_id st (tr_id t) = Some t
            /\ tr_folder t = txt "conductor/tracks/" ++ tr_id t
            /\ exists m,
                 ctx_metadata (load_track_context st (tr_id t)) = Some m
                 /\ md_id m = tr_id t
                 /\ md_description m = tr_description t).
Proof.
  intros ops Hops st.
  assert (Hs : in_sync st) by (apply run_in_sync; [exact Hops|exact I]).
  destruct st as [c|]; [now apply in_sync_answers|].
  exists 0. split; [reflexivity|]. split; [reflexivity|]. intros t [].
Qed.

Lemma registry_and_folders_agree_witness :
  let ops :=
    [OpInit;
     OpCreate (txt "t0") (txt "Login") (txt "# spec") (txt "# plan");
     OpCreate (txt "t1") (txt "Signup") (txt "# spec") (txt "# plan");
     OpUpdateTrack (txt "track-002") (txt "in_progress")] in
  let t := mkTrack (txt "track-002") (txt "Signup") InProgress
             (txt "conductor/tracks/track-002") in
  get_track_by_id (run None ops) (txt "track-002") = Some t
  /\ exists m,
       ctx_metadata (load_track_context (run None ops) (txt "track-002"))
       = Some m
       /\ md_description m = txt "Signup".
Proof.
  intros ops t.
  destruct (registry_and_folders_agree ops) as (k & _ & _ & H);
    [vm_compute; reflexivity|].
  destruct (H t) as (Hget & _ & m & Hm & _ & Hdesc);
    [vm_compute; right; left; reflexivity|].
  split; [exact Hget|]. exists m. split; [exact Hm|exact Hdesc].
Defined.

(** ** Creating a track on a registry that is already there, or missing *)

Lemma create_track_registry (st st' : Store) (h : text) (rows : list Row)
  (now description spec_content plan_content track_id : text) :
  registry_base (tracks_file_of st) = registry_of h rows ->
  create_track st now description spec_content plan_content
  = Ok (st', track_id) ->
  exists n,
    track_id = track_id_of n
    /\ tracks_file_of st'
       = Some (registry_of h (rows ++ [mkRow " " n description])).
Proof.
  intros Hb Hc.
  destruct (create_track_inv _ _ _ _ _ Hc) as (es & tf & -> & Hid & _ & ->).
  destruct (get_next_track_id_number es tf) as (n & Hn & _).
  rewrite Hn in Hid. subst track_id. exists n. split; [reflexivity|].
  cbn [tracks_file_of tracks_file] in *. rewrite Hb.
  change (track_entry (track_id_of n) description)
    with (row_entry (mkRow " " n description)).
  now rewrite registry_snoc.
Qed.

Lemma count_status_app (s : Status) (l1 l2 : list Track) :
  count_status s (l1 ++ l2) = count_status s l1 + count_status s l2.
Proof. unfold count_status. now rewrite filter_app, length_app. Qed.

(** X11: on a store whose registry is a header without [---] followed
    by entries with plain descriptions, whatever their ids and markers,
    a successful [create_track] with a plain description without
    carriage return adds exactly one record at the end of what
    [parse_tracks] returns: pending, with the
    id returned, the description given and the folder of that id; the
    records parsed before are unchanged, and [get_project_status] counts
    one more track and one more pending track. *)
Theorem create_track_appends_to_registry :
  forall (st st' : Store) (h : text) (rows : list Row)
         (now description spec_content plan_content track_id : text),
    tracks_file_of st = Some (registry_of h rows) ->
    infixb (txt "---") h = false ->
    Forall (fun r => plain_row r = true) rows ->
    plain_description description = true ->
    no_cr description = true ->
    create_track st now description spec_content plan_content
    = Ok (st', track_id) ->
    parse_tracks st'
    = parse_tracks st
      ++ [mkTrack track_id description Pending
            (txt "conductor/tracks/" ++ track_id)]
    /\ ps_total_tracks (get_project_status st')
       = S (ps_total_tracks (get_project_status st))
    /\ ps_pending (get_project_status st')
       = S (ps_pending (get_project_status st))
    /\ ps_completed (get_project_status st')
       = ps_completed (get_project_status st).
Proof.
  intros st st' h rows now d sp pl id Hf Hh Hrows Hd _ Hc.
  assert (Hb : registry_base (tracks_file_of st) = registry_of h rows)
    by now rewrite Hf.
  destruct (@create_track_registry st st' h rows now d sp pl id Hb Hc)
    as (n & -> & Hf').
  assert (Hp : parse_tracks st'
               = parse_tracks st
                 ++ [mkTrack (track_id_of n) d Pending
                       (txt "conductor/tracks/" ++ track_id_of n)]).
  { unfold parse_tracks. rewrite Hf, Hf'.
    rewrite !parse_registry; auto.
    - now rewrite map_app.
    - apply Forall_app. split; [exact Hrows|].
      constructor; [|constructor]. unfold plain_row.
      cbn [row_marker row_description]. now rewrite Hd. }
  split; [exact Hp|]. unfold get_project_status.
  cbn [ps_total_tracks ps_pending ps_completed]. rewrite Hp.
  rewrite length_app, !count_status_app. cbn [length].
  change (count_status Pending [_]) with 1.
  change (count_status Completed [_]) with 0.
  split; [lia|]. split; lia.
Qed.

Lemma create_track_appends_to_registry_witness :
  let st' :=
    exec sample_store
      (OpCreate (txt "t0") (txt "Reports") (txt "# spec") (txt "# plan")) in
  parse_tracks st'
  = parse_tracks sample_store
    ++ [mkTrack (txt "track-004") (txt "Reports") Pending
          (txt "conductor/tracks/track-004")].
Proof.
  intros st'.
  apply (@create_track_appends_to_registry sample_store st' header_init
           [mkRow "x" 1 (txt "Login"); mkRow " " 2 (txt "Signup");
            mkRow "~" 3 (txt "Billing")]
           (txt "t0") (txt "Reports") (txt "# spec") (txt "# plan")
           (txt "track-004")).
  - vm_compute. reflexivity.
  - reflexivity.
  - repeat constructor.
  - reflexivity.
  - reflexivity.
  - vm_compute. reflexivity.
Defined.

(** X12: when the tracks directory is there but the registry file is
    not, [create_track] with a plain description without carriage return
    writes a registry of its own, and [parse_tracks] then returns that one track only, pending,
    under the id returned. *)
Theorem create_track_without_registry :
  forall (st st' : Store)
         (now description spec_content plan_content track_id : text),
    tracks_file_of st = None ->
    plain_description description = true ->
    no_cr description = true ->
    create_track st now description spec_content plan_content
    = Ok (st', track_id) ->
    tracks_file_of st'
    = Some (header_add ++ track_entry track_id description)
    /\ parse_tracks st
       = []
    /\ parse_tracks st'
       = [mkTrack track_id description Pending
            (txt "conductor/tracks/" ++ track_id)]
    /\ get_track_by_id st' track_id
       = Some (mkTrack track_id description Pending
                 (txt "conductor/tracks/" ++ track_id)).
Proof.
  intros st st' now d sp pl id Hf Hd _ Hc.
  assert (Hb : registry_base (tracks_file_of st) = registry_of header_add [])
    by (rewrite Hf; reflexivity).
  destruct (@create_track_registry st st' header_add [] now d sp pl id Hb Hc)
    as (n & -> & Hf').
  assert (Hp : parse_tracks st'
               = [mkTrack (track_id_of n) d Pending
                    (txt "conductor/tracks/" ++ track_id_of n)]).
  { unfold parse_tracks. rewrite Hf'. rewrite parse_registry;
      [reflexivity|reflexivity|].
    constructor; [|constructor]. unfold plain_row.
    cbn [row_marker row_description]. now rewrite Hd. }
  split; [|split; [|split]].
  - destruct (create_track_inv _ _ _ _ _ Hc) as (es & tf & -> & _ & _ & ->).
    cbn [tracks_file_of tracks_file] in *. now subst tf.
  - unfold parse_tracks. now rewrite Hf.
  - exact Hp.
  - unfold get_track_by_id. rewrite Hp. cbn [find tr_id].
    now rewrite text_eqb_refl.
Qed.

Lemma create_track_without_registry_witness :
  let st := Some (mkConductor (Some []) None) in
  let st' :=
    exec st (OpCreate (txt "t0") (txt "Login") (txt "# spec")
               (txt "# plan")) in
  parse_tracks st'
  = [mkTrack (txt "track-001") (txt "Login") Pending
       (txt "conductor/tracks/track-001")].
Proof.
  intros st st'.
  apply (@create_track_without_registry st st' (txt "t0") (txt "Login")
           (txt "# spec") (txt "# plan") (txt "track-001")).
  - reflexivity.
  - reflexivity.
  - reflexivity.
  - vm_compute. reflexivity.
Defined.

(** ** Initialising a project *)

(** A replacement template is refused with [re.error] or [IndexError],
    never with an error of the file system. *)
Lemma parse_template_fuel_raises (fuel : nat) :
  forall (s : text) (e : exn),
    parse_template_fuel fuel s = Raise e -> e = ReError \/ e = IndexError.
Proof.
  induction fuel as [|f IH]; intros s e; cbn [parse_template_fuel].
  - destruct s; [discriminate|]. intros [= <-]. now left.
  - repeat (match goal with
            | |- context [parse_template_fuel f ?r] =>
                destruct (parse_template_fuel f r) eqn:?
            | |- context [if ?b then _ else _] => destruct b
            | |- context [match ?x with _ => _ end] => destruct x
            end);
      try discriminate; intros [= <-]; eauto.
Qed.

(** X13: [init_conductor_structure] can be called at any time: it
    never overwrites a registry that is there and never touches a track
    folder, so every reading ([parse_tracks], [load_track_context],
    [parse_plan], [get_next_track_id]) answers after it as before; a
    second call changes nothing; and after it [create_track] and
    [update_track_status] no longer fail for a missing directory or
    registry. *)
Theorem init_conductor_structure_keeps_what_is_there :
  forall (st : Store),
    let st' := init_conductor_structure st in
    init_conductor_structure st' = st'
    /\ (forall content, tracks_file_of st = Some content ->
          tracks_file_of st' = Some content)
    /\ parse_tracks st' = parse_tracks st
    /\ (forall tid, load_track_context st' tid = load_track_context st tid)
    /\ (forall tid, parse_plan st' tid = parse_plan st tid)
    /\ get_next_track_id st' = get_next_track_id st
    /\ (forall now d sp pl,
          create_track st' now d sp pl <> Raise FileNotFoundError)
    /\ (forall tid s,
          update_track_status st' tid s <> Raise FileNotFoundError).
Proof.
  intros st st'.
  assert (Hdir : exists es,
             tracks_dir_of st' = Some es
             /\ (tracks_dir_of st = Some es
                 \/ tracks_dir_of st = None /\ es = [])).
  { destruct st as [[[es|] tf]|]; eexists; (split; [reflexivity|]); auto. }
  assert (Hfile : exists content,
             tracks_file_of st' = Some content
             /\ (tracks_file_of st = Some content
                 \/ tracks_file_of st = None /\ content = header_init)).
  { destruct st as [[dir [content|]]|]; eexists; (split; [reflexivity|]);
      auto. }
  destruct Hdir as (es & Hd' & Hd). destruct Hfile as (content & Hf' & Hf).
  split; [|split; [|split; [|split; [|split; [|split; [|split]]]]]].
  - now destruct st as [[[?|] [?|]]|].
  - intros c Hc. destruct Hf as [Hf|[Hf _]]; congruence.
  - unfold parse_tracks. rewrite Hf'.
    destruct Hf as [->|[-> ->]]; reflexivity.
  - intros tid. unfold load_track_context. rewrite Hd'.
    destruct Hd as [->|[-> ->]]; reflexivity.
  - intros tid. unfold parse_plan, plan_file_of. rewrite Hd'.
    destruct Hd as [->|[-> ->]]; reflexivity.
  - unfold get_next_track_id. rewrite Hd'.
    destruct Hd as [->|[-> ->]]; reflexivity.
  - intros now d sp pl. unfold st', init_conductor_structure, create_track.
    destruct (lookup _ _) as [[|d0]|]; discriminate.
  - intros tid s. unfold update_track_status. rewrite Hf'.
    destruct (get_track_by_id st' tid); [|discriminate].
    unfold re_sub, parse_template.
    destruct (parse_template_fuel _ _) as [tpl|e] eqn:E; [discriminate|].
    apply parse_template_fuel_raises in E as [-> | ->]; discriminate.
Qed.

Lemma init_conductor_structure_keeps_what_is_there_witness :
  tracks_file_of (init_conductor_structure sample_store)
  = Some sample_registry
  /\ parse_tracks (init_conductor_structure None) = [].
Proof.
  destruct (init_conductor_structure_keeps_what_is_there sample_store)
    as (_ & Hfile & _).
  destruct (init_conductor_structure_keeps_what_is_there None)
    as (_ & _ & Hparse & _).
  split; [apply Hfile; reflexivity|exact Hparse].
Defined.

(** ** The records of [parse_tracks], for any document *)

Lemma infixb_app_keep (l a b : text) :
  infixb l a = true -> infixb l (a ++ b) = true.
Proof.
  induction a as [|x a IH]; cbn [app infixb].
  - rewrite orb_false_r. intros H. destruct l; [|discriminate].
    now destruct b.
  - intros H. apply orb_true_iff in H as [H|H].
    + change (x :: a ++ b) with ((x :: a) ++ b).
      now rewrite prefixb_app_l.
    + rewrite IH by exact H. apply orb_true_r.
Qed.

Lemma infixb_within (l x g y : text) :
  infixb l (x ++ g ++ y) = false -> infixb l g = false.
Proof.
  intros H. apply infixb_app_l in H.
  destruct (infixb l g) eqn:E; [|reflexivity].
  now rewrite (infixb_app_keep _ _ y E) in H.
Qed.

Lemma free_no_infix (x : ascii) (l a s : text) :
  free (x :: l) a s -> infixb (x :: l) a = false.
Proof.
  induction a as [|y a IH]; intros H; [reflexivity|].
  cbn [infixb]. rewrite IH by (now apply free_tail in H).
  rewrite orb_false_r.
  destruct (prefixb (x :: l) (y :: a)) eqn:E; [|reflexivity].
  apply free_head in H. change (y :: a ++ s) with ((y :: a) ++ s) in H.
  now rewrite prefixb_app_l in H.
Qed.

Lemma free_snoc (l a : text) (y : ascii) (s : text) :
  free l a (y :: s) -> prefixb l (y :: s) = false -> free l (a ++ [y]) s.
Proof.
  intros Ha Hy. apply free_app.
  - exact Ha.
  - apply free_cons; [exact Hy|apply free_nil].
Qed.

(** No section that [split] returns contains the separator. *)
Lemma split_go_sections (x : ascii) (sep : text) (s : text) :
  (forall cur, free (x :: sep) (rev cur) s ->
     Forall (fun section => infixb (x :: sep) section = false)
       (split_go (x :: sep) 0 cur s))
  /\ (forall k,
        Forall (fun section => infixb (x :: sep) section = false)
          (split_go (x :: sep) k [] s)).
Proof.
  induction s as [|a s [IH0 IHk]].
  - split.
    + intros cur H. cbn [split_go]. constructor; [|constructor].
      now apply free_no_infix in H.
    + intros k. destruct k; cbn [split_go]; constructor; constructor.
  - assert (H0 : forall cur, free (x :: sep) (rev cur) (a :: s) ->
               Forall (fun section => infixb (x :: sep) section = false)
                 (split_go (x :: sep) 0 cur (a :: s))).
    { intros cur H. cbn [split_go].
      destruct (prefixb (x :: sep) (a :: s)) eqn:E.
      - constructor; [now apply free_no_infix in H|apply IHk].
      - apply IH0. cbn [rev]. now apply free_snoc. }
    split; [exact H0|]. intros [|k].
    + apply H0. apply free_nil.
    + cbn [split_go]. apply IHk.
Qed.

Lemma split_sections (x : ascii) (sep : text) (s section : text) :
  In section (split (x :: sep) s) -> infixb (x :: sep) section = false.
Proof.
  intros Hin. destruct (split_go_sections x sep s) as [H _].
  specialize (H [] (free_nil _ _)). rewrite Forall_forall in H.
  now apply H.
Qed.

Lemma lstrip_idem (t : text) : lstrip (lstrip t) = lstrip t.
Proof.
  destruct (lstrip_split t) as (ws & _ & _ & H). now apply lstrip_nonspace.
Qed.

Lemma strip_idem (t : text) : strip (strip t) = strip t.
Proof.
  unfold strip, rstrip.
  destruct (lstrip_split t) as (_ & _ & _ & Hu). set (u := lstrip t) in *.
  destruct (lstrip_split (rev u)) as (ws & Hr & _ & _).
  set (v := lstrip (rev u)) in *.
  assert (Hv : lstrip (rev v) = rev v).
  { apply lstrip_nonspace. destruct (rev v) as [|y v'] eqn:Ev; [exact I|].
    assert (Hu' : u = y :: v' ++ rev ws).
    { rewrite <- (rev_involutive u), Hr, rev_app_distr, Ev. reflexivity. }
    now rewrite Hu' in Hu. }
  rewrite Hv, rev_involutive. unfold v. now rewrite lstrip_idem.
Qed.

Lemma strip_within (t : text) : exists x y, t = x ++ strip t ++ y.
Proof.
  unfold strip, rstrip.
  destruct (lstrip_split t) as (ws & Ht & _). set (u := lstrip t) in *.
  destruct (lstrip_split (rev u)) as (ws' & Hr & _).
  exists ws, (rev ws'). rewrite Ht at 1. f_equal.
  now rewrite <- rev_app_distr, <- Hr, rev_involutive.
Qed.

Lemma strip_chars (P : ascii -> Prop) (t : text) :
  Forall P t -> Forall P (strip t).
Proof.
  intros H. destruct (strip_within t) as (x & y & Ht). rewrite Ht in H.
  apply Forall_app in H as [_ H]. now apply Forall_app in H as [H _].
Qed.

(** Every captured group is a piece of the text matched, made of
    characters of the class of its item. *)
Lemma match_here_groups (p : regex) :
  forall (s : text) (gs : list text) (r : text),
    match_here p s = Some (gs, r) ->
    Forall2 (fun it g => Forall (fun a => cls it a = true) g
                         /\ exists x y, s = x ++ g ++ y)
      (filter cap p) gs.
Proof.
  assert (Hweak : forall (pre s : text) (its : list item) (gs : list text),
             Forall2 (fun it g => Forall (fun a => cls it a = true) g
                                  /\ exists x y, s = x ++ g ++ y) its gs ->
             Forall2 (fun it g => Forall (fun a => cls it a = true) g
                                  /\ exists x y, pre ++ s = x ++ g ++ y)
               its gs).
  { intros pre s its gs H. eapply Forall2_impl; [|exact H].
    intros it g [Hc (x & y & ->)]. split; [exact Hc|].
    exists (pre ++ x), y. now rewrite <- app_assoc. }
  induction p as [|[c q b] p IH]; intros s gs r; cbn [match_here filter cap].
  - intros [= <- <-]. constructor.
  - destruct q.
    + destruct s as [|a s]; [discriminate|].
      destruct (c a) eqn:Ca; [|discriminate].
      destruct (match_here p s) as [[gs' r']|] eqn:E; [|discriminate].
      intros [= <- <-]. apply IH in E. apply (Hweak [a]) in E.
      destruct b; cbn [keep]; [|exact E].
      constructor; [|exact E]. cbn [cls].
      split; [now constructor|]. now exists [], s.
    + destruct (rep c (match_here p) s) as [[g [gs' r']]|] eqn:E;
        [|discriminate].
      intros [= <- <-].
      apply rep_sound in E as (s' & -> & Hg & E).
      apply IH in E. apply (Hweak g) in E.
      destruct b; cbn [keep]; [|exact E].
      constructor; [|exact E]. cbn [cls].
      split; [exact Hg|]. now exists [], s'.
    + destruct s as [|a s]; [discriminate|].
      destruct (c a) eqn:Ca; [|discriminate].
      destruct (rep c (match_here p) s) as [[g [gs' r']]|] eqn:E;
        [|discriminate].
      intros [= <- <-].
      apply rep_sound in E as (s' & -> & Hg & E).
      apply IH in E. apply (Hweak (a :: g)) in E.
      destruct b; cbn [keep]; [|exact E].
      constructor; [|exact E]. cbn [cls].
      split; [now constructor|]. now exists [], s'.
Qed.

Lemma search_groups (p : regex) (s : text) (gs : list text) (r : text) :
  search p s = Some (gs, r) ->
  Forall2 (fun it g => Forall (fun a => cls it a = true) g
                       /\ exists x y, s = x ++ g ++ y)
    (filter cap p) gs.
Proof.
  intros H. apply search_some_match in H as (s1 & s2 & -> & H).
  apply match_here_groups in H. eapply Forall2_impl; [|exact H].
  intros it g [Hc (x & y & ->)]. split; [exact Hc|].
  exists (s1 ++ x), y. now rewrite <- app_assoc.
Qed.

(** What a section contributes: at most one record, whose id is a piece
    of the section without []], and whose description is the stripped
    form of a piece of the section without line feed. *)
Lemma parse_section_record (section : text) (t : Track) :
  In t (parse_section section) ->
  parse_section section = [t]
  /\ tr_folder t = txt "conductor/tracks/" ++ tr_id t
  /\ Forall (fun a => not_rbracket a = true) (tr_id t)
  /\ (exists x y, section = x ++ tr_id t ++ y)
  /\ exists g, tr_description t = strip g
               /\ Forall (fun a => is_dot a = true) g
               /\ exists x y, section = x ++ g ++ y.
Proof.
  unfold parse_section.
  destruct (search heading_re section) as [[gs r]|] eqn:Eh; [|intros []].
  destruct (search folder_re section) as [[[|g gs'] r']|] eqn:Ef;
    try (intros []).
  destruct g as [|a g]; [intros []|]. intros [<-|[]].
  cbn [tr_folder tr_id tr_description].
  apply search_groups in Eh, Ef.
  change (filter cap heading_re)
    with [Item is_marker One true; Item is_dot Plus true] in Eh.
  change (filter cap folder_re) with [Item not_rbracket Plus true] in Ef.
  inversion Ef as [|it1 g1 its1 gs1 [Hid Hsub] _]; subst.
  inversion Eh as [|it2 g2 its2 gs2 _ Hrest]; subst.
  inversion Hrest as [|it3 g3 its3 gs3 [Hd Hdsub] Hnil]; subst.
  inversion Hnil; subst. cbn [cls nth] in *.
  split; [reflexivity|]. split; [reflexivity|]. split; [exact Hid|].
  split; [exact Hsub|]. exists g3. now repeat split.
Qed.

Lemma length_flat_map_le (A B : Type) (f : A -> list B) (l : list A) :
  (forall a, length (f a) <= 1) -> length (flat_map f l) <= length l.
Proof.
  intros H. induction l as [|a l IH]; [apply le_n|].
  cbn [flat_map length]. rewrite length_app. specialize (H a). lia.
Qed.

Lemma parse_section_at_most_one (section : text) :
  length (parse_section section) <= 1.
Proof.
  destruct (parse_section section) as [|t l] eqn:E; [auto|].
  assert (Hin : In t (parse_section section)) by (rewrite E; now left).
  apply parse_section_record in Hin as [H _]. rewrite E in H.
  injection H as ->. apply le_n.
Qed.

(** X14: whatever the registry document contains, [parse_tracks_text]
    returns at most one record for each [---] separator [split] cuts at,
    and every record is well formed: its folder is the path of its id;
    its id has no []] and no [---]; its description has no line feed, no
    surrounding whitespace and no [---]. *)
Theorem parse_tracks_records_well_formed :
  forall (content : text),
    length (parse_tracks_text content)
    <= length (split (txt "---") content) - 1
    /\ forall t, In t (parse_tracks_text content) ->
         tr_folder t = txt "conductor/tracks/" ++ tr_id t
         /\ forallb not_rbracket (tr_id t) = true
         /\ infixb (txt "---") (tr_id t) = false
         /\ forallb is_dot (tr_description t) = true
         /\ strip (tr_description t) = tr_description t
         /\ infixb (txt "---") (tr_description t) = false.
Proof.
  intros content. unfold parse_tracks_text. split.
  - etransitivity;
      [apply length_flat_map_le, parse_section_at_most_one|].
    destruct (split (txt "---") content); cbn [tl length]; lia.
  - intros t Hin. apply in_flat_map in Hin as (section & Hsec & Hin).
    assert (Hfree : infixb (txt "---") section = false).
    { apply (@split_sections "-" (txt "--") content).
      change (In section (split (txt "---") content)).
      destruct (split (txt "---") content); [destruct Hsec|now right]. }
    apply parse_section_record in Hin
      as (_ & Hfolder & Hid & (x & y & Hidsub) & g & Hd & Hg & x' & y' & Hgsub).
    split; [exact Hfolder|]. split; [|split; [|split; [|split]]].
    + apply forallb_forall. now apply Forall_forall.
    + rewrite Hidsub in Hfree. now apply infixb_within in Hfree.
    + apply forallb_forall. apply Forall_forall. rewrite Hd.
      now apply strip_chars.
    + rewrite Hd. apply strip_idem.
    + rewrite Hgsub in Hfree. apply infixb_within in Hfree.
      destruct (strip_within g) as (x1 & y1 & Hs). rewrite Hs in Hfree.
      apply infixb_within in Hfree. now rewrite Hd.
Qed.

Lemma parse_tracks_records_well_formed_witness :
  strip (txt "Signup") = txt "Signup"
  /\ infixb (txt "---") (txt "track-002") = false.
Proof.
  destruct (parse_tracks_records_well_formed sample_registry) as [_ H].
  destruct (H (mkTrack (txt "track-002") (txt "Signup") Pending
                 (txt "conductor/tracks/track-002")))
    as (_ & _ & Hid & _ & Hs & _).
  - vm_compute. right. left. reflexivity.
  - split; [exact Hs|exact Hid].
Defined.

(** ** Plans: reading *)

Lemma free_newline (l s : text) :
  forallb is_dot l = true -> free [newline] l s.
Proof.
  intros H. apply free_chars. apply forallb_Forall in H.
  eapply Forall_impl; [|exact H]. intros a Ha. cbn beta in Ha.
  rewrite is_dot_newline in Ha. now apply negb_true_iff in Ha.
Qed.

Lemma split_lines (lines : list text) (cur : text) :
  Forall (fun l => forallb is_dot l = true) lines ->
  split_go [newline] 0 cur (flat_map (fun l => l ++ [newline]) lines)
  = match lines with
    | [] => [rev cur]
    | l :: lines' => (rev cur ++ l) :: lines' ++ [[]]
    end.
Proof.
  intros H. revert cur. induction H as [|l lines Hl Hlines IH]; intros cur;
    [reflexivity|].
  cbn [flat_map]. rewrite <- app_assoc.
  rewrite split_go_free by now apply free_newline.
  rewrite (@split_go_sep newline [] _ (rev l ++ cur)).
  rewrite rev_app_distr, rev_involutive. f_equal.
  rewrite IH. destruct lines; reflexivity.
Qed.

Lemma render_line_dot (l : PlanLine) :
  line_ok l = true -> forallb is_dot (render_line l) = true.
Proof.
  destruct l as [name|m desc|m desc|t]; cbn [line_ok render_line]; intros H.
  - apply andb_true_iff in H as [_ H]. unfold phase_line.
    now rewrite forallb_app, H.
  - apply andb_true_iff in H as [Hm H]. apply andb_true_iff in H as [_ H].
    unfold task_line. rewrite !forallb_app, H.
    destruct (is_marker_cases _ Hm) as [-> | [-> | ->]]; reflexivity.
  - apply andb_true_iff in H as [Hm H]. apply andb_true_iff in H as [_ H].
    unfold subtask_line. rewrite !forallb_app, H.
    destruct (is_marker_cases _ Hm) as [-> | [-> | ->]]; reflexivity.
  - apply andb_true_iff in H as [H _]. now apply andb_true_iff in H as [H _].
Qed.

Lemma split_plan_text (ls : list PlanLine) :
  Forall (fun l => line_ok l = true) ls ->
  split [newline] (plan_text ls) = map render_line ls ++ [[]].
Proof.
  intros H. unfold split, plan_text.
  assert (E : flat_map (fun l => render_line l ++ [newline]) ls
              = flat_map (fun l => l ++ [newline]) (map render_line ls)).
  { clear H. induction ls as [|l ls IH]; [reflexivity|].
    cbn [flat_map map]. now rewrite IH. }
  rewrite E, split_lines.
  - destruct (map render_line ls); reflexivity.
  - apply Forall_map. eapply Forall_impl; [|exact H]. apply render_line_dot.
Qed.

Lemma task_line_match (m : ascii) (desc : text) :
  is_marker m = true -> forallb is_dot desc = true ->
  exists g, match_here task_re (task_line m desc) = Some ([[m]; g], [])
            /\ strip g = strip desc.
Proof.
  intros Hm Hd.
  destruct (@match_here_tail (" "%char :: desc)) as (g & Hg & Hs);
    [discriminate|cbn [forallb]; now rewrite Hd|].
  exists g. split.
  - unfold task_re, task_line.
    cbn [txt list_ascii_of_string app lit map].
    rewrite match_here_lit_cons, Ascii.eqb_refl.
    unfold ws_star at 1. rewrite match_here_star_lit_1 by reflexivity.
    rewrite match_here_one_cap, Hm.
    rewrite match_here_lit_cons, Ascii.eqb_refl.
    unfold ws_star at 1. rewrite match_here_star_lit_1 by reflexivity.
    rewrite !match_here_lit_cons, !Ascii.eqb_refl.
    now rewrite Hg.
  - rewrite Hs. apply (@strip_app_spaces [" "%char]). repeat constructor.
Qed.

Lemma plain_text_inv (d : text) :
  plain_text d = true ->
  (exists c0 d', d = c0 :: d' /\ is_space c0 = false)
  /\ strip d = d /\ forallb is_dot d = true.
Proof.
  unfold plain_text. intros H.
  apply andb_true_iff in H as [H Hdot]. apply andb_true_iff in H as [Hne Hs].
  apply negb_true_iff in Hne. apply text_eqb_neq in Hne.
  apply text_eqb_eq in Hs. split; [now apply strip_fixed_head|now split].
Qed.

(** What the loop of [parse_plan] does on each kind of line. *)
Lemma plan_step_line (l : PlanLine) (tasks : list Task)
  (phase : option text) :
  line_ok l = true ->
  plan_step (tasks, phase) (render_line l)
  = match l with
    | PhaseLine name => (tasks, Some name)
    | TaskLine m desc =>
        (tasks ++ [mkTask phase desc (status_of_marker [m]) []], phase)
    | SubtaskLine m desc =>
        (append_subtask tasks (mkSubtask desc (status_of_marker [m])), phase)
    | TextLine _ => (tasks, phase)
    end.
Proof.
  destruct l as [name|m desc|m desc|t]; cbn [line_ok render_line]; intros H.
  - apply andb_true_iff in H as [Hs _]. apply text_eqb_eq in Hs.
    unfold plan_step, phase_line.
    replace (prefixb (txt "## ") (txt "## " ++ name)) with true by reflexivity.
    cbn [txt list_ascii_of_string app skipn]. now rewrite Hs.
  - apply andb_true_iff in H as [Hm Hd].
    apply plain_text_inv in Hd as (_ & Hs & Hd).
    unfold plan_step.
    replace (prefixb (txt "## ") (task_line m desc)) with false
      by reflexivity.
    destruct (task_line_match m desc Hm Hd) as (g & -> & Hg).
    cbn [nth]. now rewrite Hg, Hs.
  - apply andb_true_iff in H as [Hm Hd].
    apply plain_text_inv in Hd as (_ & Hs & Hd).
    rewrite plan_step_subtask_line by assumption. rewrite Hs.
    now destruct tasks.
  - apply andb_true_iff in H as [H Hp]. apply andb_true_iff in H as [_ Ha].
    apply negb_true_iff in Hp. unfold plan_step. rewrite Hp.
    destruct t as [|a t]; [reflexivity|].
    apply andb_true_iff in Ha as [Hh Hsp]. apply negb_true_iff in Hh, Hsp.
    assert (Ht : match_here task_re (a :: t) = None).
    { unfold task_re. cbn [txt list_ascii_of_string app lit map].
      now rewrite match_here_lit_cons, Ascii.eqb_sym, Hh. }
    assert (Hsub : match_here subtask_re (a :: t) = None).
    { unfold subtask_re, ws_one. cbn [app].
      now rewrite match_here_one, Hsp. }
    now rewrite Ht, Hsub.
Qed.

Lemma attach_last (subs : list Subtask) :
  forall (ts : list Task) (t : Task),
    fold_left append_subtask subs (ts ++ [t])
    = ts ++ [mkTask (tk_phase t) (tk_task t) (tk_status t)
               (tk_subtasks t ++ subs)].
Proof.
  induction subs as [|s subs IH]; intros ts t; cbn [fold_left].
  - rewrite app_nil_r. now destruct t.
  - rewrite append_subtask_last, IH.
    cbn [tk_phase tk_task tk_status tk_subtasks].
    now rewrite <- app_assoc.
Qed.

Lemma plan_loop_lines (ls : list PlanLine) :
  forall (acc : list Task) (phase : option text),
    Forall (fun l => line_ok l = true) ls ->
    fst (plan_loop (map render_line ls) (acc, phase))
    = fold_left append_subtask (subtasks_of ls) acc ++ tasks_of phase ls.
Proof.
  unfold plan_loop.
  induction ls as [|l ls IH]; intros acc phase H.
  - cbn [map fold_left subtasks_of tasks_of fst]. now rewrite app_nil_r.
  - inversion H as [|l0 ls0 Hl Hls]; subst. cbn [map fold_left].
    rewrite plan_step_line by exact Hl.
    destruct l as [name|m desc|m desc|t]; rewrite IH by exact Hls;
      cbn [subtasks_of tasks_of fold_left]; try reflexivity.
    rewrite attach_last. cbn [tk_phase tk_task tk_status tk_subtasks app].
    now rewrite <- app_assoc.
Qed.

Lemma parse_plan_text_lines (ls : list PlanLine) :
  Forall (fun l => line_ok l = true) ls ->
  parse_plan_text (plan_text ls) = tasks_of None ls.
Proof.
  intros H. unfold parse_plan_text. rewrite split_plan_text by exact H.
  unfold plan_loop. rewrite fold_left_app. cbn [fold_left].
  pose proof (@plan_loop_lines ls [] None H) as Hl. unfold plan_loop in Hl.
  destruct (fold_left plan_step (map render_line ls) ([], None))
    as [tasks phase].
  cbn [fst] in Hl. rewrite Hl.
  assert (Hnil : forall subs, fold_left append_subtask subs [] = []).
  { intros subs. induction subs as [|s subs IHs]; [reflexivity|exact IHs]. }
  rewrite Hnil. reflexivity.
Qed.

(** X15: a plan written line by line in the format [parse_plan] reads
    (phase headers [## name], task lines [- [m] Task: description],
    subtask lines of four spaces and [- [m] description], and other lines
    that start neither with [-], whitespace nor [## ]) is read back as
    its tasks, in order: each task carries the name of the last phase
    header above it (none before the first header), the status of its
    marker, and the subtask lines down to the next task line, which
    includes subtask lines that follow a later phase header.  This holds
    for the plan given to [create_track], when it has no carriage
    return, under the id it returns. *)
Theorem parse_plan_reads_plan_lines :
  forall (ls : list PlanLine),
    Forall (fun l => line_ok l = true) ls ->
    parse_plan_text (plan_text ls) = tasks_of None ls
    /\ (forall st track_id,
          plan_file_of st track_id = Some (plan_text ls) ->
          parse_plan st track_id = tasks_of None ls)
    /\ (forall st st' now description spec_content track_id,
          no_cr (plan_text ls) = true ->
          create_track st now description spec_content (plan_text ls)
          = Ok (st', track_id) ->
          parse_plan st' track_id = tasks_of None ls).
Proof.
  intros ls H. pose proof (parse_plan_text_lines H) as Hp.
  split; [exact Hp|]. split.
  - intros st tid Hf. unfold parse_plan. now rewrite Hf.
  - intros st st' now d sp tid _ Hc.
    destruct (create_track_inv _ _ _ _ _ Hc) as (es & tf & -> & _ & Hl & ->).
    unfold parse_plan, plan_file_of. cbn [tracks_dir_of tracks_dir].
    rewrite lookup_snoc_new by exact Hl. cbn [plan_md]. exact Hp.
Qed.

Lemma parse_plan_reads_plan_lines_witness :
  parse_plan_text
    (plan_text
       [TextLine (txt "# Implementation Plan: User Authentication");
        PhaseLine (txt "Phase 1: Database Models");
        TaskLine " " (txt "Create User model");
        PhaseLine (txt "Phase 2: API");
        SubtaskLine "x" (txt "Write the migration");
        TaskLine "~" (txt "Add login endpoint")])
  = [mkTask (Some (txt "Phase 1: Database Models"))
       (txt "Create User model") Pending
       [mkSubtask (txt "Write the migration") Completed];
     mkTask (Some (txt "Phase 2: API")) (txt "Add login endpoint")
       InProgress []].
Proof.
  apply (@parse_plan_reads_plan_lines
           [TextLine (txt "# Implementation Plan: User Authentication");
            PhaseLine (txt "Phase 1: Database Models");
            TaskLine " " (txt "Create User model");
            PhaseLine (txt "Phase 2: API");
            SubtaskLine "x" (txt "Write the migration");
            TaskLine "~" (txt "Add login endpoint")]).
  repeat constructor.
Defined.

(** X16: [get_next_pending_task] returns the first task of the plan,
    in document order, whose own status is not completed, whatever the
    statuses of its subtasks; it returns nothing exactly when every task
    parsed is completed, in particular when the plan has no task or the
    plan file is missing. *)
Theorem get_next_pending_task_first_incomplete :
  forall (st : Store) (track_id : text),
    (get_next_pending_task st track_id = None <->
       Forall (fun t => tk_status t = Completed) (parse_plan st track_id))
    /\ (forall t,
          get_next_pending_task st track_id = Some t <->
          exists before after,
            parse_plan st track_id = before ++ t :: after
            /\ Forall (fun u => tk_status u = Completed) before
            /\ tk_status t <> Completed)
    /\ (plan_file_of st track_id = None ->
        get_next_pending_task st track_id = None).
Proof.
  intros st tid. unfold get_next_pending_task. split; [|split].
  - rewrite find_none_iff. split; intros H; eapply Forall_impl; try exact H;
      intros t; apply not_completed_iff.
  - intros t. rewrite find_some_iff.
    split; intros (l1 & l2 & Hp & Hall & Ht); exists l1, l2;
      (split; [exact Hp|]); split.
    + eapply Forall_impl; [|exact Hall]. intros u; apply not_completed_iff.
    + now apply not_completed_true_iff.
    + eapply Forall_impl; [|exact Hall]. intros u; apply not_completed_iff.
    + now apply not_completed_true_iff.
  - intros Hf. unfold parse_plan. now rewrite Hf.
Qed.

Lemma get_next_pending_task_first_incomplete_witness :
  get_next_pending_task sample_store (txt "track-001") = None
  /\ get_next_pending_task sample_store (txt "track-009") = None.
Proof.
  destruct (get_next_pending_task_first_incomplete sample_store
              (txt "track-001")) as (Hnone & _).
  destruct (get_next_pending_task_first_incomplete sample_store
              (txt "track-009")) as (_ & _ & Hmissing).
  split.
  - apply Hnone. vm_compute. repeat constructor.
  - apply Hmissing. reflexivity.
Defined.

(** ** Plans: status updates *)

Lemma quiet_nil (p : regex) (s : text) : quiet p [] s.
Proof. intros a1 a2 H Hne. symmetry in H. apply app_eq_nil in H. tauto. Qed.

Lemma quiet_cons (p : regex) (x : ascii) (a s : text) :
  match_here p (x :: a ++ s) = None -> quiet p a s -> quiet p (x :: a) s.
Proof.
  intros Hx Ha [|y a1] a2 Heq Hne; cbn [app] in Heq.
  - now subst.
  - injection Heq as -> ->. now apply (Ha a1 a2).
Qed.

Lemma quiet_app (p : regex) (a b s : text) :
  quiet p a (b ++ s) -> quiet p b s -> quiet p (a ++ b) s.
Proof.
  induction a as [|x a IH]; intros Ha Hb; [exact Hb|].
  cbn [app]. apply quiet_cons.
  - rewrite <- app_assoc. apply (Ha [] (x :: a)); [reflexivity|discriminate].
  - apply IH; [|exact Hb]. intros a1 a2 -> Hne. now apply (Ha (x :: a1) a2).
Qed.

Lemma sub_go_quiet (p : regex) (tpl : list piece) (a s : text) :
  quiet p a s -> sub_go p tpl 0 (a ++ s) = a ++ sub_go p tpl 0 s.
Proof.
  induction a as [|x a IH]; intros H; [reflexivity|].
  cbn [app]. rewrite sub_go_none.
  - f_equal. apply IH. intros a1 a2 -> Hne. now apply (H (x :: a1) a2).
  - apply (H [] (x :: a)); [reflexivity|discriminate].
Qed.

Lemma old_task_pattern_not_hyphen (d : text) (x : ascii) (s : text) :
  Ascii.eqb "-" x = false -> match_here (old_task_pattern d) (x :: s) = None.
Proof.
  intros H. unfold old_task_pattern.
  cbn [txt list_ascii_of_string app lit map].
  now rewrite match_here_lit_cons, H.
Qed.

Lemma old_task_pattern_hyphen (d : text) (y : ascii) (s : text) :
  is_space y = false -> Ascii.eqb y "[" = false ->
  match_here (old_task_pattern d) ("-"%char :: y :: s) = None.
Proof.
  intros Hsp Hb. unfold old_task_pattern.
  cbn [txt list_ascii_of_string app lit map].
  rewrite match_here_lit_cons, Ascii.eqb_refl. unfold ws_star at 1.
  rewrite (@match_here_star_lit is_space "[" _ [] (y :: s));
    [|constructor|reflexivity|exact Hsp].
  now rewrite match_here_lit_cons, Ascii.eqb_sym, Hb.
Qed.

Lemma quiet_chars (d : text) (a s : text) :
  Forall (fun y => Ascii.eqb "-" y = false) a ->
  quiet (old_task_pattern d) a s.
Proof.
  intros H. induction H as [|y a Hy Ha IH]; [apply quiet_nil|].
  apply quiet_cons; [|exact IH]. now apply old_task_pattern_not_hyphen.
Qed.

Lemma hyphen_ok_quiet (d : text) (t s : text) :
  hyphen_ok t = true -> quiet (old_task_pattern d) t s.
Proof.
  induction t as [|a t IH]; intros H; [apply quiet_nil|].
  cbn [hyphen_ok] in H. apply andb_true_iff in H as [Ha Ht].
  apply quiet_cons; [|now apply IH].
  destruct (Ascii.eqb a "-") eqn:E.
  - apply Ascii.eqb_eq in E. subst a. destruct t as [|y t]; [discriminate|].
    apply andb_true_iff in Ha as [Hsp Hb]. apply negb_true_iff in Hsp, Hb.
    cbn [app]. now apply old_task_pattern_hyphen.
  - apply old_task_pattern_not_hyphen. now rewrite Ascii.eqb_sym.
Qed.

Lemma hyphen_ok_app (a b : text) :
  hyphen_ok (a ++ b) = true -> hyphen_ok b = true.
Proof.
  induction a as [|x a IH]; [auto|]. cbn [app hyphen_ok]. intros H.
  apply andb_true_iff in H as [_ H]. now apply IH.
Qed.

Lemma task_line_seg (m : ascii) (desc : text) :
  task_line m desc = task_seg m ++ desc.
Proof. unfold task_line, task_seg. now rewrite <- !app_assoc. Qed.

Lemma new_task_seg (c : ascii) (d : text) : new_task c d = task_seg c ++ d.
Proof. unfold new_task, task_seg. now rewrite <- !app_assoc. Qed.

(** The pattern of [update_task_status] at the start of a task line: it
    matches exactly when the description looked up is a prefix of what
    follows [Task: ]. *)
Lemma old_task_pattern_at_line (m c0 cj : ascii) (d' dj' s : text) :
  is_marker m = true -> is_space c0 = false -> is_space cj = false ->
  match_here (old_task_pattern (c0 :: d')) (task_seg m ++ (cj :: dj') ++ s)
  = if prefixb (c0 :: d') ((cj :: dj') ++ s)
    then Some ([], skipn (length (c0 :: d')) ((cj :: dj') ++ s))
    else None.
Proof.
  intros Hm Hc0 Hcj.
  unfold old_task_pattern, task_seg.
  cbn [txt list_ascii_of_string app lit map].
  rewrite match_here_lit_cons, Ascii.eqb_refl.
  unfold ws_star at 1. rewrite match_here_star_lit_1 by reflexivity.
  rewrite match_here_one, Hm.
  rewrite match_here_lit_cons, Ascii.eqb_refl.
  unfold ws_star at 1. rewrite match_here_star_lit_1 by reflexivity.
  rewrite !match_here_lit_cons, !Ascii.eqb_refl.
  unfold ws_star.
  change (" "%char :: cj :: dj' ++ s) with ([" "%char] ++ cj :: dj' ++ s).
  rewrite match_here_star_lit;
    [|repeat constructor|exact Hc0|exact Hcj].
  change (Item (Ascii.eqb c0) One false
          :: map (fun a => Item (Ascii.eqb a) One false) d')
    with (lit (c0 :: d')).
  apply match_here_lit_only.
Qed.

(** At the hyphen of a subtask line whose description does not start
    with [Task:], the pattern does not match. *)
Lemma old_task_pattern_at_subtask (m cj : ascii) (d dj' s : text) :
  is_marker m = true -> is_space cj = false ->
  prefixb (txt "Task:") ((cj :: dj') ++ s) = false ->
  match_here (old_task_pattern d)
    (txt "- [" ++ [m] ++ txt "] " ++ (cj :: dj') ++ s) = None.
Proof.
  intros Hm Hcj Hp.
  unfold old_task_pattern.
  cbn [txt list_ascii_of_string app lit map].
  rewrite match_here_lit_cons, Ascii.eqb_refl.
  unfold ws_star at 1. rewrite match_here_star_lit_1 by reflexivity.
  rewrite match_here_one, Hm.
  rewrite match_here_lit_cons, Ascii.eqb_refl.
  unfold ws_star at 1.
  change (" "%char :: cj :: dj' ++ s) with ([" "%char] ++ cj :: dj' ++ s).
  rewrite match_here_star_lit;
    [|repeat constructor|reflexivity|exact Hcj].
  change (match_here (lit (txt "Task:") ++ ws_star :: lit d)
            ((cj :: dj') ++ s) = None).
  now apply match_here_lit_fail.
Qed.

Lemma marker_not_hyphen (m : ascii) :
  is_marker m = true -> Ascii.eqb "-" m = false.
Proof.
  intros H. destruct (is_marker_cases _ H) as [-> | [-> | ->]]; reflexivity.
Qed.

Lemma quiet_task_seg_tail (d : text) (m : ascii) (s : text) :
  is_marker m = true ->
  quiet (old_task_pattern d) (skipn 1 (task_seg m)) s.
Proof.
  intros Hm. apply quiet_chars. unfold task_seg.
  cbn [txt list_ascii_of_string app skipn].
  repeat (constructor; [first [reflexivity|now apply marker_not_hyphen]|]).
  constructor.
Qed.

Lemma quiet_subtask_line (d : text) (m : ascii) (desc s : text) :
  is_marker m = true -> plain_text desc = true -> hyphen_ok desc = true ->
  prefixb (txt "Task:") desc = false ->
  match s with [] => True | y :: _ => is_dot y = false end ->
  quiet (old_task_pattern d) (subtask_line m desc) s.
Proof.
  intros Hm Hd Hh Hp Hs.
  apply plain_text_inv in Hd as ((cj & dj' & -> & Hcj) & _ & _).
  unfold subtask_line. cbn [txt list_ascii_of_string app].
  do 4 (apply quiet_cons; [now apply old_task_pattern_not_hyphen|]).
  apply quiet_cons.
  - change (match_here (old_task_pattern d)
              (txt "- [" ++ [m] ++ txt "] " ++ (cj :: dj') ++ s) = None).
    apply old_task_pattern_at_subtask; [exact Hm|exact Hcj|].
    rewrite prefixb_line; [exact Hp|reflexivity|exact Hs].
  - do 2 (apply quiet_cons; [now apply old_task_pattern_not_hyphen|]).
    apply quiet_cons;
      [apply old_task_pattern_not_hyphen; now apply marker_not_hyphen|].
    do 2 (apply quiet_cons; [now apply old_task_pattern_not_hyphen|]).
    now apply hyphen_ok_quiet.
Qed.

Lemma quiet_newline (d : text) (s : text) :
  quiet (old_task_pattern d) [newline] s.
Proof. apply quiet_chars. repeat constructor. Qed.

Lemma sub_go_segment (p : regex) (tpl : list piece) (seg rest : text) :
  quiet p seg (newline :: rest) -> quiet p [newline] rest ->
  sub_go p tpl 0 (seg ++ newline :: rest)
  = seg ++ newline :: sub_go p tpl 0 rest.
Proof.
  intros Hseg Hnl.
  change (newline :: rest) with ([newline] ++ rest).
  rewrite app_assoc, sub_go_quiet by (now apply quiet_app).
  now rewrite <- app_assoc.
Qed.

(** One line of a plan under the substitution of [update_task_status]. *)
Lemma sub_line (d : text) (c : ascii) (l : PlanLine) (rest : text) :
  safe_task_description d = true -> line_safe l = true ->
  sub_go (old_task_pattern d) (map Ch (new_task c d)) 0
    (render_line l ++ newline :: rest)
  = render_line (update_line d c l)
    ++ newline :: sub_go (old_task_pattern d) (map Ch (new_task c d)) 0 rest.
Proof.
  intros Hd Hl. set (tpl := map Ch (new_task c d)).
  apply andb_true_iff in Hd as [Hd _].
  apply plain_text_inv in Hd as ((c0 & d' & Ed & Hc0) & _ & Hdot).
  apply andb_true_iff in Hl as [Hok Hsafe].
  pose proof (quiet_newline d rest) as Hnl.
  destruct l as [name|m desc|m desc|t];
    cbn [line_ok render_line update_line] in *.
  - (* phase header *)
    apply sub_go_segment; [|exact Hnl]. unfold phase_line.
    apply quiet_app; [|now apply hyphen_ok_quiet].
    apply quiet_chars. repeat constructor.
  - (* task line *)
    apply andb_true_iff in Hok as [Hm Hdesc].
    apply plain_text_inv in Hdesc as ((cj & dj' & Ej & Hcj) & _ & _).
    rewrite task_line_seg.
    pose proof (@old_task_pattern_at_line m c0 cj d' dj' (newline :: rest)
                  Hm Hc0 Hcj) as Hmatch.
    rewrite <- Ed, <- Ej in Hmatch.
    rewrite (@prefixb_line d desc (newline :: rest) Hdot eq_refl) in Hmatch.
    destruct (prefixb d desc) eqn:Epre.
    + (* the marker is rewritten *)
      cbn [render_line]. rewrite task_line_seg.
      destruct (prefixb_true _ _ Epre) as [dj2 Edj].
      rewrite Edj in Hmatch, Hsafe |- *. apply hyphen_ok_app in Hsafe.
      rewrite <- !app_assoc in Hmatch.
      rewrite skipn_app, skipn_all, Nat.sub_diag in Hmatch.
      cbn [app skipn] in Hmatch.
      rewrite <- !app_assoc.
      rewrite (app_assoc (task_seg m) d) in Hmatch |- *.
      rewrite (@sub_go_match (old_task_pattern d) tpl (task_seg m ++ d)
                 (dj2 ++ newline :: rest) []);
        [|unfold task_seg; discriminate|exact Hmatch].
      unfold tpl. rewrite expand_literal, new_task_seg. fold tpl.
      rewrite sub_go_segment; [|now apply hyphen_ok_quiet|exact Hnl].
      now rewrite <- !app_assoc.
    + (* the line is left as it is *)
      cbn [render_line]. rewrite task_line_seg.
      assert (Hh : task_seg m = "-"%char :: skipn 1 (task_seg m))
        by reflexivity.
      rewrite <- app_assoc. rewrite Hh in Hmatch |- *.
      cbn [app] in Hmatch |- *.
      rewrite sub_go_none by exact Hmatch. f_equal.
      rewrite app_assoc. rewrite sub_go_segment; [|
        apply quiet_app; [now apply quiet_task_seg_tail
                         |now apply hyphen_ok_quiet]
        |exact Hnl].
      now rewrite <- app_assoc.
  - (* subtask line *)
    apply andb_true_iff in Hok as [Hm Hdesc].
    apply andb_true_iff in Hsafe as [Hh Hp]. apply negb_true_iff in Hp.
    apply sub_go_segment; [|exact Hnl].
    now apply quiet_subtask_line.
  - (* any other line *)
    apply sub_go_segment; [|exact Hnl]. now apply hyphen_ok_quiet.
Qed.

Lemma sub_plan (d : text) (c : ascii) (ls : list PlanLine) :
  safe_task_description d = true ->
  Forall (fun l => line_safe l = true) ls ->
  sub_go (old_task_pattern d) (map Ch (new_task c d)) 0 (plan_text ls)
  = plan_text (map (update_line d c) ls).
Proof.
  intros Hd H. induction H as [|l ls Hl Hls IH]; [reflexivity|].
  unfold plan_text in *. cbn [flat_map map].
  rewrite <- !app_assoc. cbn [app]. now rewrite sub_line, IH.
Qed.

Lemma new_task_no_backslash (c : ascii) (d : text) :
  is_marker c = true ->
  forallb (fun a => negb (Ascii.eqb a backslash)) d = true ->
  forallb (fun a => negb (Ascii.eqb a backslash)) (new_task c d) = true.
Proof.
  intros Hc Hd. unfold new_task. rewrite !forallb_app, Hd.
  destruct (is_marker_cases _ Hc) as [-> | [-> | ->]]; reflexivity.
Qed.

(** The substitution of [update_task_status] on a whole plan. *)
Lemma re_sub_plan (d : text) (c : ascii) (ls : list PlanLine) :
  safe_task_description d = true -> is_marker c = true ->
  Forall (fun l => line_safe l = true) ls ->
  re_sub (old_task_pattern d) (new_task c d) (plan_text ls)
  = Ok (plan_text (map (update_line d c) ls)).
Proof.
  intros Hd Hc Hls. unfold re_sub.
  rewrite parse_template_literal.
  - now rewrite sub_plan.
  - apply new_task_no_backslash; [exact Hc|].
    now apply andb_true_iff in Hd as [_ Hd].
Qed.

Lemma line_ok_update (d : text) (c : ascii) (l : PlanLine) :
  is_marker c = true -> line_ok l = true ->
  line_ok (update_line d c l) = true.
Proof.
  intros Hc. destruct l as [name|m desc|m desc|t]; cbn [update_line]; auto.
  destruct (prefixb d desc); [|auto]. cbn [line_ok]. intros H.
  apply andb_true_iff in H as [_ H]. now rewrite Hc, H.
Qed.

Lemma subtasks_of_update (d : text) (c : ascii) (ls : list PlanLine) :
  subtasks_of (map (update_line d c) ls) = subtasks_of ls.
Proof.
  induction ls as [|l ls IH]; [reflexivity|].
  destruct l as [name|m desc|m desc|t]; cbn [map update_line subtasks_of];
    try (now rewrite IH).
  now destruct (prefixb d desc).
Qed.

Lemma tasks_of_update (d : text) (c : ascii) (ls : list PlanLine) :
  forall phase,
    tasks_of phase (map (update_line d c) ls)
    = map (retag_task d (status_of_marker [c])) (tasks_of phase ls).
Proof.
  induction ls as [|l ls IH]; intros phase; [reflexivity|].
  destruct l as [name|m desc|m desc|t]; cbn [map update_line tasks_of];
    try apply IH.
  unfold retag_task at 1. cbn [tk_task tk_phase tk_subtasks].
  destruct (prefixb d desc); cbn [tasks_of];
    now rewrite IH, subtasks_of_update.
Qed.

Lemma plan_file_of_inv (st : Store) (track_id content : text) :
  plan_file_of st track_id = Some content ->
  exists es tf dd,
    st = Some (mkConductor (Some es) tf)
    /\ lookup track_id es = Some (Dir dd)
    /\ plan_md dd = Some content.
Proof.
  unfold plan_file_of. destruct st as [[[es|] tf]|]; try discriminate.
  cbn [tracks_dir_of tracks_dir].
  destruct (lookup track_id es) as [[|dd]|] eqn:E; try discriminate.
  intros H. now exists es, tf, dd.
Qed.

(** X17: on a plan written line by line in that format, whose texts
    have no [-] followed by whitespace or [[] and whose subtask
    descriptions do not start with [Task:], [update_task_status] with a
    plain description without backslash succeeds and rewrites the marker
    of every task line whose description starts with the description
    given, in every phase, and nothing else: the plan parsed afterwards is
    the one parsed before with the new status on each of those tasks, in
    particular on every task with exactly that description; phases,
    descriptions and subtasks are unchanged. *)
Theorem update_task_status_marks_tasks :
  forall (st : Store) (track_id : text) (ls : list PlanLine)
         (task_description new_status : text),
    plan_file_of st track_id = Some (plan_text ls) ->
    Forall (fun l => line_safe l = true) ls ->
    safe_task_description task_description = true ->
    let c := marker_of_status_name new_status in
    let status := status_of_marker [c] in
    exists st',
      update_task_status st track_id task_description new_status = Ok st'
      /\ plan_file_of st' track_id
         = Some (plan_text (map (update_line task_description c) ls))
      /\ parse_plan st' track_id
         = map (retag_task task_description status) (parse_plan st track_id)
      /\ (forall t, In t (parse_plan st' track_id) ->
            tk_task t = task_description -> tk_status t = status).
Proof.
  intros st tid ls d s Hf Hls Hd c status.
  assert (Hc : is_marker c = true) by apply marker_of_status_name_marker.
  assert (Hok : Forall (fun l => line_ok l = true) ls).
  { eapply Forall_impl; [|exact Hls]. intros l Hl.
    now apply andb_true_iff in Hl as [Hl _]. }
  assert (Hok' : Forall (fun l => line_ok l = true)
                   (map (update_line d c) ls)).
  { apply Forall_map. eapply Forall_impl; [|exact Hok].
    intros l. now apply line_ok_update. }
  destruct (plan_file_of_inv _ _ Hf) as (es & tf & dd & -> & Hl & Hpm).
  set (st' := Some (mkConductor
                      (Some (update tid
                               (Dir (mkTrackDir (metadata_json dd)
                                       (spec_md dd)
                                       (Some (plan_text
                                                (map (update_line d c) ls)))))
                               es)) tf)).
  assert (Hf' : plan_file_of st' tid
                = Some (plan_text (map (update_line d c) ls))).
  { unfold plan_file_of, st'. cbn [tracks_dir_of tracks_dir].
    now rewrite lookup_update_same. }
  assert (Hp' : parse_plan st' tid
                = map (retag_task d status)
                    (parse_plan (Some (mkConductor (Some es) tf)) tid)).
  { unfold parse_plan. rewrite Hf', Hf.
    rewrite !parse_plan_text_lines by assumption. apply tasks_of_update. }
  exists st'. split; [|split; [exact Hf'|split; [exact Hp'|]]].
  - unfold update_task_status. rewrite Hf. fold c.
    rewrite re_sub_plan by assumption.
    unfold write_plan_file. now rewrite Hl.
  - intros t Hin Ht. rewrite Hp' in Hin.
    apply in_map_iff in Hin as (u & <- & _). unfold retag_task in *.
    destruct (prefixb d (tk_task u)) eqn:E; [reflexivity|].
    cbn [tk_task] in Ht. rewrite Ht in E.
    assert (Hrefl : prefixb d d = true).
    { rewrite <- (app_nil_r d) at 2. apply prefixb_app. }
    congruence.
Qed.

Lemma update_task_status_marks_tasks_witness :
  let ls :=
    [TextLine (txt "# Implementation Plan");
     PhaseLine (txt "Phase 1: Sign-up");
     TaskLine " " (txt "Create User");
     SubtaskLine " " (txt "Write the migration");
     TaskLine " " (txt "Create User model");
     TaskLine "~" (txt "Add log-in page")] in
  let st :=
    Some (mkConductor
            (Some [(txt "track-001",
                    Dir (mkTrackDir None None (Some (plan_text ls))))])
            None) in
  exists st',
    update_task_status st (txt "track-001") (txt "Create User")
      (txt "completed") = Ok st'
    /\ map tk_status (parse_plan st' (txt "track-001"))
       = [Completed; Completed; InProgress].
Proof.
  intros ls st.
  destruct (@update_task_status_marks_tasks st (txt "track-001") ls
              (txt "Create User") (txt "completed"))
    as (st' & Hu & _ & Hp & _).
  - reflexivity.
  - repeat constructor.
  - reflexivity.
  - exists st'. split; [exact Hu|]. rewrite Hp. vm_compute. reflexivity.
Defined.

(** ** Descriptions with a backslash *)

Lemma parse_template_fuel_bad_escape (a : text) (e : ascii) (rest : text) :
  forallb (fun x => negb (Ascii.eqb x backslash)) a = true ->
  bad_escape e = true ->
  forall fuel,
    parse_template_fuel fuel (a ++ backslash :: e :: rest) = Raise ReError.
Proof.
  intros Ha He. induction a as [|x a IH]; intros fuel.
  - destruct fuel as [|f]; [reflexivity|]. cbn [app].
    destruct e as [[] [] [] [] [] [] [] []]; try discriminate He;
      reflexivity.
  - cbn [forallb] in Ha. apply andb_true_iff in Ha as [Hx Ha].
    destruct fuel as [|f]; [reflexivity|].
    cbn [app parse_template_fuel]. rewrite Hx, (IH Ha). reflexivity.
Qed.

Lemma re_sub_bad_escape (p : regex) (pre a rest s : text) (e : ascii) :
  forallb (fun x => negb (Ascii.eqb x backslash)) pre = true ->
  forallb (fun x => negb (Ascii.eqb x backslash)) a = true ->
  bad_escape e = true ->
  re_sub p (pre ++ a ++ backslash :: e :: rest) s = Raise ReError.
Proof.
  intros Hpre Ha He. unfold re_sub, parse_template.
  rewrite app_assoc, parse_template_fuel_bad_escape; auto.
  now rewrite forallb_app, Hpre, Ha.
Qed.

(** X18: a description in which a backslash is followed by a letter
    that is no escape of a replacement template (as in [\d] or [\w])
    makes both status updates raise the error of [re.sub], before
    anything is written: [update_task_status] whenever the plan file is
    there, and [update_track_status] whenever the track looked up has
    such a description. *)
Theorem status_updates_raise_on_bad_escape :
  forall (st : Store) (track_id new_status : text) (a rest : text)
         (e : ascii),
    forallb (fun x => negb (Ascii.eqb x backslash)) a = true ->
    bad_escape e = true ->
    let d := a ++ backslash :: e :: rest in
    (plan_file_of st track_id <> None ->
     update_task_status st track_id d new_status = Raise ReError)
    /\ (forall t,
          get_track_by_id st track_id = Some t -> tr_description t = d ->
          update_track_status st track_id new_status = Raise ReError).
Proof.
  intros st tid s a rest e Ha He d.
  assert (Hc : forall c, is_marker c = true ->
                 forallb (fun x => negb (Ascii.eqb x backslash)) (task_seg c)
                 = true
                 /\ forallb (fun x => negb (Ascii.eqb x backslash))
                      (heading_seg c) = true).
  { intros c Hm.
    destruct (is_marker_cases _ Hm) as [-> | [-> | ->]]; now split. }
  destruct (Hc _ (marker_of_status_name_marker s)) as [Hk Hh].
  split.
  - intros Hf. unfold update_task_status.
    destruct (plan_file_of st tid) as [content|]; [|now destruct Hf].
    rewrite new_task_seg. unfold d.
    now rewrite (@re_sub_bad_escape _ _ a rest content e Hk Ha He).
  - intros t Hget Hd. unfold update_track_status.
    destruct (tracks_file_of st) as [content|] eqn:Hf.
    + rewrite Hget, Hd, new_heading_seg. unfold d.
      now rewrite (@re_sub_bad_escape _ _ a rest content e Hh Ha He).
    + unfold get_track_by_id, parse_tracks in Hget. rewrite Hf in Hget.
      discriminate.
Qed.

Lemma status_updates_raise_on_bad_escape_witness :
  let st :=
    run None
      [OpInit;
       OpCreate (txt "t0") (txt "Parse \d+ tokens") (txt "# spec")
         (txt "- [ ] Task: Parse \d+ tokens")] in
  update_task_status st (txt "track-001") (txt "Parse \d+ tokens")
    (txt "completed") = Raise ReError
  /\ update_track_status st (txt "track-001") (txt "completed")
     = Raise ReError.
Proof.
  intros st.
  destruct (@status_updates_raise_on_bad_escape st (txt "track-001")
              (txt "completed") (txt "Parse ") (txt "+ tokens") "d"%char
              eq_refl eq_refl) as [Htask Htrack].
  split.
  - apply Htask. vm_compute. discriminate.
  - apply (Htrack (mkTrack (txt "track-001") (txt "Parse \d+ tokens") Pending
                     (txt "conductor/tracks/track-001")));
      vm_compute; reflexivity.
Defined.

(** ** Updating a task twice *)

Lemma update_update (name : text) (x y : node) (es : list (text * node)) :
  update name y (update name x es) = update name y es.
Proof.
  induction es as [|[n z] es IH]; cbn [update].
  - now rewrite text_eqb_refl.
  - destruct (text_eqb n name) eqn:E; cbn [update]; rewrite E;
      [reflexivity|now rewrite IH].
Qed.

Lemma line_safe_update (d : text) (c : ascii) (l : PlanLine) :
  is_marker c = true -> line_safe l = true ->
  line_safe (update_line d c l) = true.
Proof.
  intros Hc H. apply andb_true_iff in H as [Hok Hs]. unfold line_safe.
  rewrite line_ok_update by assumption.
  destruct l as [name|m desc|m desc|t]; cbn [update_line]; auto.
  now destruct (prefixb d desc).
Qed.

Lemma update_line_idem (d : text) (c : ascii) (l : PlanLine) :
  update_line d c (update_line d c l) = update_line d c l.
Proof.
  destruct l as [name|m desc|m desc|t]; cbn [update_line]; auto.
  destruct (prefixb d desc) eqn:E; cbn [update_line]; now rewrite E.
Qed.

(** [update_task_status] on a store whose plan is made of safe lines. *)
Lemma update_task_status_plan (es : list (text * node)) (tf : option text)
  (dd : TrackDir) (track_id : text) (ls : list PlanLine)
  (d new_status : text) :
  lookup track_id es = Some (Dir dd) ->
  plan_md dd = Some (plan_text ls) ->
  Forall (fun l => line_safe l = true) ls ->
  safe_task_description d = true ->
  update_task_status (Some (mkConductor (Some es) tf)) track_id d new_status
  = Ok (Some (mkConductor
                (Some (update track_id
                         (Dir (mkTrackDir (metadata_json dd) (spec_md dd)
                                 (Some (plan_text
                                          (map (update_line d
                                                  (marker_of_status_name
                                                     new_status)) ls)))))
                         es)) tf)).
Proof.
  intros Hl Hpm Hls Hd. unfold update_task_status, plan_file_of.
  cbn [tracks_dir_of tracks_dir]. rewrite Hl, Hpm.
  rewrite re_sub_plan;
    [|exact Hd|apply marker_of_status_name_marker|exact Hls].
  unfold write_plan_file. now rewrite Hl.
Qed.

(** X19: on such a plan, a second [update_task_status] with the same
    arguments returns the store the first one returned: marking a task
    twice is the same as marking it once. *)
Theorem update_task_status_idempotent :
  forall (st : Store) (track_id : text) (ls : list PlanLine)
         (task_description new_status : text),
    plan_file_of st track_id = Some (plan_text ls) ->
    Forall (fun l => line_safe l = true) ls ->
    safe_task_description task_description = true ->
    exists st1,
      update_task_status st track_id task_description new_status = Ok st1
      /\ update_task_status st1 track_id task_description new_status
         = Ok st1.
Proof.
  intros st tid ls d s Hf Hls Hd.
  destruct (plan_file_of_inv _ _ Hf) as (es & tf & dd & -> & Hl & Hpm).
  set (c := marker_of_status_name s).
  eexists. split.
  - apply (@update_task_status_plan es tf dd tid ls d s Hl Hpm Hls Hd).
  - fold c.
    rewrite (@update_task_status_plan _ tf
               (mkTrackDir (metadata_json dd) (spec_md dd)
                  (Some (plan_text (map (update_line d c) ls))))
               tid (map (update_line d c) ls) d s).
    + cbn [metadata_json spec_md]. fold c. rewrite update_update, map_map.
      rewrite (map_ext _ _ (update_line_idem d c)). reflexivity.
    + apply lookup_update_same.
    + reflexivity.
    + apply Forall_map. eapply Forall_impl; [|exact Hls].
      intros l. apply line_safe_update. apply marker_of_status_name_marker.
    + exact Hd.
Qed.

Lemma update_task_status_idempotent_witness :
  let ls :=
    [PhaseLine (txt "Phase 1");
     TaskLine " " (txt "Create User");
     TaskLine " " (txt "Create User model")] in
  let st :=
    Some (mkConductor
            (Some [(txt "track-001",
                    Dir (mkTrackDir None None (Some (plan_text ls))))])
            None) in
  exists st1,
    update_task_status st (txt "track-001") (txt "Create User")
      (txt "in_progress") = Ok st1
    /\ update_task_status st1 (txt "track-001") (txt "Create User")
         (txt "in_progress") = Ok st1.
Proof.
  intros ls st.
  apply (@update_task_status_idempotent st (txt "track-001") ls
           (txt "Create User") (txt "in_progress")).
  - reflexivity.
  - repeat constructor.
  - reflexivity.
Defined.

(** ** The setup files *)

Lemma exec_setup_some (d : Docs) (o : setup_op) :
  exists d',
    exec_setup (Some d) o = Some d'
    /\ exists_file (product_md d')
       = exists_file (product_md d) || writes_product o
    /\ exists_file (tech_stack_md d')
       = exists_file (tech_stack_md d) || writes_tech_stack o
    /\ exists_file (workflow_md d')
       = exists_file (workflow_md d) || writes_workflow o.
Proof.
  destruct d as [p g t w s].
  destruct o; try (eexists; split; [reflexivity|];
                   cbn [product_md tech_stack_md workflow_md exists_file
                        writes_product writes_tech_stack writes_workflow];
                   now rewrite ?orb_false_r, ?orb_true_r).
  destruct s; eexists; (split; [reflexivity|]);
    cbn [product_md tech_stack_md workflow_md exists_file
         writes_product writes_tech_stack writes_workflow];
    now rewrite ?orb_false_r.
Qed.

Lemma run_setup_some (ops : list setup_op) :
  forall d,
    exists d',
      run_setup (Some d) ops = Some d'
      /\ exists_file (product_md d')
         = exists_file (product_md d) || existsb writes_product ops
      /\ exists_file (tech_stack_md d')
         = exists_file (tech_stack_md d) || existsb writes_tech_stack ops
      /\ exists_file (workflow_md d')
         = exists_file (workflow_md d) || existsb writes_workflow ops.
Proof.
  induction ops as [|o ops IH]; intros d.
  - exists d. cbn [existsb]. now rewrite !orb_false_r.
  - destruct (exec_setup_some d o) as (d1 & E1 & Hp1 & Ht1 & Hw1).
    destruct (IH d1) as (d2 & E2 & Hp2 & Ht2 & Hw2).
    exists d2. cbn [run_setup fold_left existsb] in *. rewrite E1.
    split; [exact E2|].
    now rewrite Hp2, Ht2, Hw2, Hp1, Ht1, Hw1, !orb_assoc.
Qed.

(** X20: in a project whose [conductor] directory is there, after any
    sequence of setup calls ([create_product_md],
    [create_product_guidelines_md], [create_tech_stack_md],
    [create_workflow_md], [save_state], [init_conductor_structure]),
    [is_setup] holds exactly when each of [product.md], [tech-stack.md]
    and [workflow.md] was there before or has been written by one of
    the calls; [product-guidelines.md], the recorded step and
    [init_conductor_structure] play no role, and a project that is set up
    stays so. *)
Theorem is_setup_after_setup_calls :
  forall (d : Docs) (ops : list setup_op),
    is_setup (run_setup (Some d) ops)
    = (exists_file (product_md d) || existsb writes_product ops)
      && (exists_file (tech_stack_md d) || existsb writes_tech_stack ops)
      && (exists_file (workflow_md d) || existsb writes_workflow ops)
    /\ (is_setup (Some d) = true -> is_setup (run_setup (Some d) ops) = true)
    /\ is_setup (run_setup None [InitStructure]) = false.
Proof.
  intros d ops.
  destruct (run_setup_some ops d) as (d' & E & Hp & Ht & Hw).
  assert (H : is_setup (run_setup (Some d) ops)
              = (exists_file (product_md d) || existsb writes_product ops)
                && (exists_file (tech_stack_md d)
                    || existsb writes_tech_stack ops)
                && (exists_file (workflow_md d)
                    || existsb writes_workflow ops)).
  { rewrite E. cbn [is_setup forallb]. rewrite Hp, Ht, Hw.
    now rewrite andb_true_r, andb_assoc. }
  split; [exact H|]. split; [|reflexivity].
  rewrite H. cbn [is_setup forallb]. rewrite andb_true_r. intros Hs.
  apply andb_true_iff in Hs as [Hs1 Hs]. apply andb_true_iff in Hs as [Hs2 Hs3].
  now rewrite Hs1, Hs2, Hs3.
Qed.

Lemma is_setup_after_setup_calls_witness :
  is_setup
    (run_setup None
       [InitStructure; SetWorkflow (txt "w"); SetProduct (txt "p");
        SetTechStack (txt "t")])
  = true
  /\ is_setup
       (run_setup None
          [InitStructure; SetProduct (txt "p"); SetGuidelines (txt "g");
           SetTechStack (txt "t")])
     = false.
Proof.
  split.
  - apply (is_setup_after_setup_calls
             (mkDocs (Some (txt "p")) None (Some (txt "t")) (Some (txt "w"))
                (Some (txt "2.3_tech_stack"))) []).
    reflexivity.
  - destruct (is_setup_after_setup_calls
                (mkDocs None None None None (Some []))
                [SetProduct (txt "p"); SetGuidelines (txt "g");
                 SetTechStack (txt "t")]) as [H _].
    exact H.
Defined.

(** X21: before the [conductor] directory is made, every setup call
    that writes raises [FileNotFoundError], and the readers answer with
    their defaults; [init_conductor_structure] can be called at any time:
    it keeps every context file and the recorded step, a second call
    changes nothing, and after it no setup call raises. *)
Theorem setup_calls_need_the_directory :
  forall (ds : DocStore) (o : setup_op),
    (ds = None -> o <> InitStructure ->
     apply_setup_op ds o = Raise FileNotFoundError)
    /\ (ds = None ->
        is_setup ds = false /\ load_state ds = []
        /\ load_context_files ds = mkContextFiles [] [] [] [])
    /\ (forall e, apply_setup_op (init_setup_files ds) o <> Raise e)
    /\ init_setup_files (init_setup_files ds) = init_setup_files ds
    /\ load_context_files (init_setup_files ds) = load_context_files ds
    /\ load_state (init_setup_files ds) = load_state ds
    /\ is_setup (init_setup_files ds) = is_setup ds.
Proof.
  intros ds o. split; [|split; [|split; [|split; [|split; [|split]]]]].
  - intros -> Ho. destruct o; try reflexivity. now destruct Ho.
  - intros ->. repeat split.
  - intros e. destruct ds as [[p g t w [s|]]|]; destruct o; discriminate.
  - now destruct ds as [[p g t w [s|]]|].
  - now destruct ds as [[p g t w [s|]]|].
  - now destruct ds as [[p g t w [s|]]|].
  - now destruct ds as [[p g t w [s|]]|].
Qed.

Lemma setup_calls_need_the_directory_witness :
  create_product_md None (txt "p") = Raise FileNotFoundError
  /\ load_state None = [].
Proof.
  destruct (setup_calls_need_the_directory None (SetProduct (txt "p")))
    as (Hraise & Hread & _).
  split.
  - apply Hraise; [reflexivity|discriminate].
  - now destruct (Hread eq_refl) as (_ & Hs & _).
Defined.

(** X22: what a setup call writes is read back: after
    [create_product_md], [create_product_guidelines_md],
    [create_tech_stack_md] or [create_workflow_md] with a content without
    carriage return, [load_context_files] returns the content given under
    the key of that file and what it returned before under the three
    others, and [load_state] returns the step of that call; after
    [save_state] it returns the step saved, and the context files are as
    before. *)
Theorem setup_calls_read_back :
  forall (d : Docs) (o : setup_op),
    no_cr (written o) = true ->
    let before := load_context_files (Some d) in
    let after := load_context_files (exec_setup (Some d) o) in
    cf_product after
    = match o with SetProduct c => c | _ => cf_product before end
    /\ cf_guidelines after
       = match o with SetGuidelines c => c | _ => cf_guidelines before end
    /\ cf_tech_stack after
       = match o with SetTechStack c => c | _ => cf_tech_stack before end
    /\ cf_workflow after
       = match o with SetWorkflow c => c | _ => cf_workflow before end
    /\ load_state (exec_setup (Some d) o)
       = match step_of o with
         | Some step => step
         | None => load_state (Some d)
         end.
Proof.
  intros [p g t w s] o _. destruct o; try (repeat split; reflexivity).
  destruct s; repeat split; reflexivity.
Qed.

Lemma setup_calls_read_back_witness :
  let ds :=
    exec_setup (Some (mkDocs None None None (Some (txt "w")) None))
      (SetProduct (txt "# Product")) in
  cf_product (load_context_files ds) = txt "# Product"
  /\ cf_workflow (load_context_files ds) = txt "w"
  /\ load_state ds = txt "2.1_product_guide".
Proof.
  intros ds.
  destruct (@setup_calls_read_back
              (mkDocs None None None (Some (txt "w")) None)
              (SetProduct (txt "# Product")) eq_refl)
    as (Hp & _ & _ & Hw & Hs).
  split; [exact Hp|]. split; [exact Hw|exact Hs].
Defined.

(** ** Looking a track up, on any registry *)

(** X23: [get_track_by_id] returns the first record of [parse_tracks],
    in document order, whose id is the one asked for, so that with the
    same id in two entries the first one answers; it returns nothing
    exactly when no record has that id, in particular when the registry
    file is missing. *)
Theorem get_track_by_id_first_match :
  forall (st : Store) (track_id : text),
    (get_track_by_id st track_id = None <->
       Forall (fun t => tr_id t <> track_id) (parse_tracks st))
    /\ (forall t,
          get_track_by_id st track_id = Some t <->
          exists before after,
            parse_tracks st = before ++ t :: after
            /\ Forall (fun u => tr_id u <> track_id) before
            /\ tr_id t = track_id)
    /\ (tracks_file_of st = None -> get_track_by_id st track_id = None).
Proof.
  intros st tid. unfold get_track_by_id. split; [|split].
  - rewrite find_none_iff. split; intros H; eapply Forall_impl; try exact H;
      intros t; apply text_eqb_neq.
  - intros t. rewrite find_some_iff.
    split; intros (l1 & l2 & Hp & Hall & Ht); exists l1, l2;
      (split; [exact Hp|]); split.
    + eapply Forall_impl; [|exact Hall]. intros u; apply text_eqb_neq.
    + now apply text_eqb_eq.
    + eapply Forall_impl; [|exact Hall]. intros u; apply text_eqb_neq.
    + now apply text_eqb_eq.
  - intros Hf. unfold parse_tracks. now rewrite Hf.
Qed.

Lemma get_track_by_id_first_match_witness :
  get_track_by_id
    (store_of_registry
       (registry_of header_init
          [mkRow "x" 7 (txt "Login"); mkRow " " 7 (txt "Signup")]))
    (txt "track-007")
  = Some (mkTrack (txt "track-007") (txt "Login") Completed
            (txt "conductor/tracks/track-007"))
  /\ get_track_by_id store_without_registry (txt "track-007") = None.
Proof.
  split.
  - apply (get_track_by_id_first_match
             (store_of_registry
                (registry_of header_init
                   [mkRow "x" 7 (txt "Login"); mkRow " " 7 (txt "Signup")]))
             (txt "track-007")).
    exists [], [mkTrack (txt "track-007") (txt "Signup") Pending
                  (txt "conductor/tracks/track-007")].
    split; [vm_compute; reflexivity|]. split; [constructor|reflexivity].
  - apply (get_track_by_id_first_match store_without_registry
             (txt "track-007")).
    reflexivity.
Defined.

(** ** Status names outside the three known ones *)

Lemma unknown_status_marker (new_status : text) :
  new_status <> txt "pending" ->
  new_status <> txt "in_progress" ->
  new_status <> txt "completed" ->
  marker_of_status_name new_status = " "%char.
Proof.
  intros H1 H2 H3. unfold marker_of_status_name.
  apply text_eqb_neq in H1, H2, H3. now rewrite H1, H2, H3.
Qed.

(** C9: a status name outside the three known ones is not rejected: it
    is mapped to the pending marker, so both update operations return on
    it exactly what they return on ['pending'] (the same store, or the
    same exception, which is then not about the status), and the pending
    marker is written.  On a registry of safe rows the heading of the
    track looked up is rewritten with [[ ]] (as is every heading whose
    description starts with that track's), so the track reads pending
    afterwards whatever its status was; on a plan of safe lines every
    task line whose description starts with the description given is
    rewritten with [[ ]] and the task reads pending afterwards. *)
Theorem unknown_status_falls_back_to_pending :
  forall (new_status : text),
    new_status <> txt "pending" ->
    new_status <> txt "in_progress" ->
    new_status <> txt "completed" ->
    marker_of_status_name new_status = " "%char
    /\ (forall st track_id,
          update_track_status st track_id new_status
          = update_track_status st track_id (txt "pending"))
    /\ (forall st track_id task_description,
          update_task_status st track_id task_description new_status
          = update_task_status st track_id task_description (txt "pending"))
    /\ (forall st h rows track_id t,
          tracks_file_of st = Some (registry_of h rows) ->
          header_ok h = true ->
          Forall (fun r => safe_row r = true) rows ->
          get_track_by_id st track_id = Some t ->
          exists st1 t1,
            update_track_status st track_id new_status = Ok st1
            /\ tracks_file_of st1
               = Some (registry_of h
                         (map (update_row (tr_description t) " ") rows))
            /\ get_track_by_id st1 track_id = Some t1
            /\ tr_description t1 = tr_description t
            /\ tr_status t1 = Pending)
    /\ (forall st track_id ls task_description,
          plan_file_of st track_id = Some (plan_text ls) ->
          Forall (fun l => line_safe l = true) ls ->
          safe_task_description task_description = true ->
          exists st1,
            update_task_status st track_id task_description new_status
            = Ok st1
            /\ plan_file_of st1 track_id
               = Some (plan_text (map (update_line task_description " ") ls))
            /\ parse_plan st1 track_id
               = map (retag_task task_description Pending)
                   (parse_plan st track_id)).
Proof.
  intros s H1 H2 H3.
  pose proof (unknown_status_marker H1 H2 H3) as Hm.
  split; [exact Hm|]. split; [|split; [|split]].
  - intros st track_id. unfold update_track_status. now rewrite Hm.
  - intros st track_id d. unfold update_task_status. now rewrite Hm.
  - intros [c0|] h rows tid t Hf Hh Hrows Hget; [|discriminate].
    cbn [tracks_file_of] in Hf.
    rewrite (@get_track_by_id_registry c0 h rows tid Hf Hh Hrows) in Hget.
    destruct (find (row_has_id tid) rows) as [r0|] eqn:Hfind;
      [|discriminate].
    injection Hget as <-. cbn [track_of_row tr_description].
    set (d := row_description r0).
    assert (Hrows' : Forall (fun r => safe_row r = true)
                       (map (update_row d " ") rows)).
    { apply update_safe_rows; [reflexivity|exact Hrows]. }
    exists (Some (mkConductor (tracks_dir c0)
                    (Some (registry_of h (map (update_row d " ") rows))))),
           (track_of_row (update_row d " " r0)).
    split; [|split; [reflexivity|split; [|split]]].
    + rewrite (@update_track_status_registry c0 h rows tid s r0
                 Hf Hh Hrows Hfind).
      fold d. now rewrite Hm.
    + rewrite (@get_track_by_id_registry
                 (mkConductor (tracks_dir c0)
                    (Some (registry_of h (map (update_row d " ") rows))))
                 h (map (update_row d " ") rows) tid eq_refl Hh Hrows').
      now rewrite find_update_row, Hfind.
    + cbn [track_of_row tr_description]. apply update_row_description.
    + unfold update_row, d.
      assert (Hrefl : prefixb (row_description r0) (row_description r0)
                      = true).
      { rewrite <- (app_nil_r (row_description r0)) at 2.
        apply prefixb_app. }
      rewrite Hrefl. reflexivity.
  - intros st tid ls d Hf Hls Hd.
    assert (Hok : Forall (fun l => line_ok l = true) ls).
    { eapply Forall_impl; [|exact Hls]. intros l Hl.
      now apply andb_true_iff in Hl as [Hl _]. }
    assert (Hok' : Forall (fun l => line_ok l = true)
                     (map (update_line d " ") ls)).
    { apply Forall_map. eapply Forall_impl; [|exact Hok].
      intros l. now apply line_ok_update. }
    destruct (plan_file_of_inv _ _ Hf) as (es & tf & dd & -> & Hl & Hpm).
    eexists. split; [|split].
    + rewrite (@update_task_status_plan es tf dd tid ls d s Hl Hpm Hls Hd).
      rewrite Hm. reflexivity.
    + unfold plan_file_of. cbn [tracks_dir_of tracks_dir].
      now rewrite lookup_update_same.
    + unfold parse_plan at 1, plan_file_of at 1.
      cbn [tracks_dir_of tracks_dir]. rewrite lookup_update_same.
      cbn [plan_md]. unfold parse_plan. rewrite Hf.
      rewrite !parse_plan_text_lines by assumption.
      apply (@tasks_of_update d " " ls None).
Qed.

Lemma unknown_status_falls_back_to_pending_witness :
  marker_of_status_name (txt "done") = " "%char
  /\ (exists st1 t1,
        update_track_status sample_store (txt "track-001") (txt "done")
        = Ok st1
        /\ get_track_by_id sample_store (txt "track-001")
           = Some (mkTrack (txt "track-001") (txt "Login") Completed
                     (txt "conductor/tracks/track-001"))
        /\ get_track_by_id st1 (txt "track-001") = Some t1
        /\ tr_status t1 = Pending)
  /\ (exists st1,
        update_task_status sample_store (txt "track-001")
          (txt "Create User model") (txt "done") = Ok st1
        /\ map tk_status (parse_plan sample_store (txt "track-001"))
           = [Completed]
        /\ map tk_status (parse_plan st1 (txt "track-001")) = [Pending]).
Proof.
  destruct (@unknown_status_falls_back_to_pending (txt "done"))
    as (Hm & _ & _ & Htrack & Htask).
  - vm_compute; discriminate.
  - vm_compute; discriminate.
  - vm_compute; discriminate.
  - split; [exact Hm|]. split.
    + destruct (Htrack sample_store header_init
                  [mkRow "x" 1 (txt "Login"); mkRow " " 2 (txt "Signup");
                   mkRow "~" 3 (txt "Billing")]
                  (txt "track-001")
                  (mkTrack (txt "track-001") (txt "Login") Completed
                     (txt "conductor/tracks/track-001")))
        as (st1 & t1 & Hu & _ & Hg & _ & Hs).
      * vm_compute. reflexivity.
      * reflexivity.
      * repeat constructor.
      * vm_compute. reflexivity.
      * exists st1, t1. split; [exact Hu|].
        split; [vm_compute; reflexivity|]. split; [exact Hg|exact Hs].
    + destruct (Htask sample_store (txt "track-001")
                  [TextLine (txt "# Implementation Plan");
                   PhaseLine (txt "Phase 1: Database Models");
                   TaskLine "x" (txt "Create User model");
                   SubtaskLine " " (txt "Write the migration")]
                  (txt "Create User model"))
        as (st1 & Hu & _ & Hp).
      * vm_compute. reflexivity.
      * repeat constructor.
      * reflexivity.
      * exists st1. split; [exact Hu|].
        split; [vm_compute; reflexivity|]. rewrite Hp.
        vm_compute. reflexivity.
Defined.
